(** * Statistics cache of weblate/utils/stats.py

    A shallow embedding of the caching statistics calculator: the record
    kept per node, the lazy attribute protocol ([__getattr__], [store],
    [save], [update_stats]), the leaf computation over the units of a
    translation, the aggregation over the children of a composite node and
    the propagation to parents ([update_parents]).

    Python values are dynamically typed; the embedding keeps a small value
    type and lets every operation fail the way the interpreter does. *)

From Stdlib Require Import ZArith String Ascii QArith Qcanon Lia.
From stdpp Require Import base strings gmap list numbers.

Open Scope string_scope.
Open Scope Z_scope.
Open Scope list_scope.

(** ** Values and exceptions *)

(** The values a statistics record holds: [None], integers (counts, sums,
    author ids), floats (readings of [monotonic()], percents) and datetimes.
    Floats are embedded as the rationals they denote; only comparison,
    [max] and the percent arithmetic are applied to them.  Datetimes are
    seconds on the time line. *)
Inductive value :=
| VNone
| VInt (n : Z)
| VFloat (q : Qc)
| VTime (t : Z).

#[global] Instance value_eq_dec : EqDecision value.
Proof. solve_decision. Defined.

Inductive exn :=
| AttributeError (msg name : string)
| TypeError
| KeyError (key : string)
| NotImplementedError
| RecursionError.

Inductive res (A : Type) :=
| Ok (a : A)
| Raise (e : exn).
Arguments Ok {A} a.
Arguments Raise {A} e.

#[global] Instance res_ret : MRet res := fun A a => Ok a.
#[global] Instance res_bind : MBind res := fun A B f m =>
  match m with
  | Ok a => f a
  | Raise e => Raise e
  end.

(** A statistics record, the dict behind [_data] and the local [stats]. *)
Abbreviation record := (gmap string value).

(** [d[key]] *)
Definition index (d : record) (key : string) : res value :=
  match d !! key with
  | Some v => Ok v
  | None => Raise (KeyError key)
  end.

(** [d.get(key, default)] *)
Definition dict_get (d : record) (key : string) (default : value) : value :=
  match d !! key with
  | Some v => v
  | None => default
  end.

(** Truth value of an object in a condition. *)
Definition truthy (v : value) : bool :=
  match v with
  | VNone => false
  | VInt n => negb (n =? 0)
  | VFloat q => negb (bool_decide (q = 0%Qc))
  | VTime _ => true
  end.

Definition number (v : value) : option Qc :=
  match v with
  | VInt n => Some (Qc_of_Z n)
  | VFloat q => Some q
  | _ => None
  end.

Definition Qc_ltb (a b : Qc) : bool := bool_decide (a < b)%Qc.
Definition Qc_leb (a b : Qc) : bool := bool_decide (a <= b)%Qc.

(** [a < b] *)
Definition py_lt (a b : value) : res bool :=
  match a, b with
  | VTime s, VTime t => Ok (s <? t)
  | _, _ =>
      match number a, number b with
      | Some x, Some y => Ok (Qc_ltb x y)
      | _, _ => Raise TypeError
      end
  end.

(** [a <= b] *)
Definition py_le (a b : value) : res bool :=
  match a, b with
  | VTime s, VTime t => Ok (s <=? t)
  | _, _ =>
      match number a, number b with
      | Some x, Some y => Ok (Qc_leb x y)
      | _, _ => Raise TypeError
      end
  end.

(** [max(a, b)]: the first argument unless the second is greater. *)
Definition py_max (a b : value) : res value :=
  gt ← py_lt a b;
  Ok (if gt : bool then b else a).

(** [a + b] *)
Definition py_add (a b : value) : res value :=
  match a, b with
  | VInt x, VInt y => Ok (VInt (x + y))
  | VTime _, _ | _, VTime _ | VNone, _ | _, VNone => Raise TypeError
  | _, _ =>
      match number a, number b with
      | Some x, Some y => Ok (VFloat (x + y))
      | _, _ => Raise TypeError
      end
  end.

(** [a - b] on numbers (the differences the [waiting_review] properties
    take). *)
Definition py_sub (a b : value) : res value :=
  match a, b with
  | VInt x, VInt y => Ok (VInt (x - y))
  | VTime _, _ | _, VTime _ | VNone, _ | _, VNone => Raise TypeError
  | _, _ =>
      match number a, number b with
      | Some x, Some y => Ok (VFloat (x - y))
      | _, _ => Raise TypeError
      end
  end.

(** ** Strings *)

(** [s.startswith(p)] *)
Definition startswith (p s : string) : bool := String.prefix p s.

(** [s.endswith(p)] *)
Definition endswith (p s : string) : bool :=
  (String.length p <=? String.length s)%nat
  && String.eqb (substring (String.length s - String.length p) (String.length p) s) p.

(** [s[:-n]] *)
Definition drop_last (n : nat) (s : string) : string :=
  substring 0 (String.length s - n) s.

(** [x in keys] for a set of strings *)
Definition contains (keys : list string) (x : string) : bool :=
  existsb (String.eqb x) keys.

(** ** Key sets *)

Definition BASICS : list string :=
  [ "all"; "fuzzy"; "todo"; "readonly"; "nottranslated"; "translated";
    "approved"; "allchecks"; "translated_checks"; "dismissed_checks";
    "suggestions"; "nosuggestions"; "comments"; "approved_suggestions";
    "unlabeled"; "unapproved" ].

Definition CHANGE_KEYS : list string :=
  [ "recent_changes"; "monthly_changes"; "total_changes" ].

Definition BASIC_KEYS : list string :=
  map (fun x => (x ++ "_words")%string) BASICS
  ++ map (fun x => (x ++ "_chars")%string) BASICS
  ++ BASICS
  ++ [ "languages"; "last_changed"; "last_author" ]
  ++ CHANGE_KEYS.

Definition SOURCE_KEYS : list string :=
  BASIC_KEYS ++ [ "source_strings"; "source_words"; "source_chars" ].

(** ** Children of a composite node *)

(** The statistics object of a child as the aggregation sees it: the value
    or the exception that reading an attribute of it gives.  In the code
    such a read runs the [__getattr__] of the child, which on a miss
    computes the record of the child and saves it under the cache key of
    the child.  Those effects belong to the child and are not part of the
    state of the object that reads it: a child stands here for the values
    its reads return.  What is stated of an object that reads children is
    therefore stated of its own record, its own cache slot and its own
    calls of [save].  [stats_of] below makes a child of a statistics object
    in a given state. *)
Record stats_obj := { attr : string → res value }.

(** ** aggregate and zero_stats *)

Definition aggregate (stats : record) (item : string) (stats_obj : stats_obj)
  : res record :=
  if String.eqb item "stats_timestamp" then
    cur ← index stats item;
    theirs ← attr stats_obj item;
    m ← py_max cur theirs;
    Ok (<[item := m]> stats)
  else if String.eqb item "last_changed" then
    last ← index stats "last_changed";
    theirs ← attr stats_obj "last_changed";
    newer ← (if truthy theirs
             then (if negb (truthy last) then Ok true else py_lt last theirs)
             else Ok false);
    if newer : bool then
      changed ← attr stats_obj "last_changed";
      author ← attr stats_obj "last_author";
      Ok (<["last_author" := author]> (<["last_changed" := changed]> stats))
    else Ok stats
  else if negb (String.eqb item "last_author") then
    cur ← index stats item;
    theirs ← attr stats_obj item;
    total ← py_add cur theirs;
    Ok (<[item := total]> stats)
  else Ok stats.

Definition zero_stats (keys : list string) : record :=
  <["stats_timestamp" := VInt 0]>
    (<["last_author" := VNone]>
       (<["last_changed" := VNone]>
          (list_to_map (map (fun item => (item, VInt 0)) keys)))).

(** [for item in keys: aggregate(stats, item, stats_obj)] *)
Fixpoint aggregate_keys (keys : list string) (stats_obj : stats_obj)
  (stats : record) : res record :=
  match keys with
  | [] => Ok stats
  | item :: rest =>
      stats' ← aggregate stats item stats_obj;
      aggregate_keys rest stats_obj stats'
  end.

(** ** The state of a statistics object and of the cache *)

(** The state of one statistics object, and the cache as this object
    reads and writes it.  [_data] is [None] until the record is loaded.
    [cache] is the cache store; a slot may hold [None] because [save]
    writes [_data] as it is.  [cache_sets] logs the [cache.set] calls of
    this object, latest first, and [on_commit] counts the parent updates
    this object registers with [transaction.on_commit].  The writes and
    registrations of another object, such as a child whose read misses, are
    not recorded here. *)
Record world := World {
  _data : option record;
  _pending_save : bool;
  cache : gmap string (option record);
  cache_sets : list (string * option record);
  on_commit : nat;
}.

Definition with_data (d : option record) (w : world) : world :=
  World d (_pending_save w) (cache w) (cache_sets w) (on_commit w).

Definition with_pending_save (b : bool) (w : world) : world :=
  World (_data w) b (cache w) (cache_sets w) (on_commit w).

Definition cache_set (key : string) (v : option record) (w : world) : world :=
  World (_data w) (_pending_save w) (<[key := v]> (cache w))
    ((key, v) :: cache_sets w) (on_commit w).

Definition transaction_on_commit (w : world) : world :=
  World (_data w) (_pending_save w) (cache w) (cache_sets w) (S (on_commit w)).

(** Computations of a method: they read and change the world and either
    return or raise; what was changed before an exception stays changed. *)
Definition M (A : Type) : Type := world → res A * world.

#[global] Instance M_ret : MRet M := fun A a w => (Ok a, w).
#[global] Instance M_bind : MBind M := fun A B f m w =>
  match m w with
  | (Ok a, w') => f a w'
  | (Raise e, w') => (Raise e, w')
  end.

Definition raise {A} (e : exn) : M A := fun w => (Raise e, w).
Definition lift {A} (r : res A) : M A := fun w => (r, w).
Definition gets {A} (f : world → A) : M A := fun w => (Ok (f w), w).
Definition modify (f : world → world) : M unit := fun w => (Ok tt, f w).

(** The two clocks a computation reads: [monotonic()] and
    [timezone.now()]. *)
Record clock := { monotonic : Qc; now : Z }.

(** [timedelta(days=d, hours=h)] in seconds. *)
Definition timedelta (days hours : Z) : Z := days * 86400 + hours * 3600.

(** ** Raw content of a translation *)

(** The state constants of weblate.utils.state, which is not part of the
    sources at hand; they are parameters of the development. *)
Class States := {
  STATE_EMPTY : Z;
  STATE_FUZZY : Z;
  STATE_TRANSLATED : Z;
  STATE_APPROVED : Z;
  STATE_READONLY : Z;
}.

Record Check := { check_name : string; dismissed : bool }.
Record Comment := { resolved : bool }.

(** A unit with the related rows the leaf computation joins. *)
Record Unit := {
  state : Z;
  num_words : Z;
  source : string;
  check : list Check;
  suggestion : nat;
  comment : list Comment;
  source_unit_labels : list string;
}.

Record Change := {
  change_pk : Z;
  timestamp : Z;
  author_id : option Z;
}.

(** A row of a grouped query: the group name and its three measures. *)
Record stat_row := {
  row_name : option string;
  strings : value;
  words : value;
  chars : value;
}.

(** What a translation object offers to its statistics: its units, its
    change history (newest first, as [order()] returns it), the cached
    pointers to the last change, and the results of the grouped check and
    label queries together with the known checks and labels. *)
Record Translation := {
  enable_review : bool;
  unit_set : list Unit;
  change_set_content : list Change;
  last_change_cache : option Change;
  cached_change_pk : option Z;
  Change_objects : list Change;
  CHECKS : list string;
  check_stats : list stat_row;
  label_set : list string;
  label_stats : list stat_row;
  translation_label_stats : list stat_row;
}.

(** ** Kinds of statistics objects *)

(** One constructor per class, with what the class reads from its
    [_object]: the children ([object_set], [category_set]) as statistics
    objects, review settings, and for projects and the global node the
    languages of the translations below them. *)
Inductive node :=
| DummyTranslationStats
| TranslationStats (translation : Translation)
| LanguageStats (object_set : list stats_obj)
| ComponentStats (review : bool) (object_set : list stats_obj)
    (source_translation : option stats_obj)
| ProjectLanguageStats (review : bool) (object_set category_set : list stats_obj)
| CategoryLanguageStats (review : bool) (object_set category_set : list stats_obj)
| CategoryStats (object_set category_set : list stats_obj)
| ProjectStats (review : bool) (object_set category_set : list stats_obj)
    (translation_languages : list Z)
| ComponentListStats (object_set : list stats_obj)
| GlobalStats (object_set : list stats_obj) (translation_languages : list Z)
| GhostStats (base : option stats_obj).

Record BaseStats := { kind : node; cache_key : string }.

Definition basic_keys (self : BaseStats) : list string :=
  match kind self with
  | DummyTranslationStats | TranslationStats _ => BASIC_KEYS
  | _ => SOURCE_KEYS
  end.

Definition has_review (self : BaseStats) : bool :=
  match kind self with
  | TranslationStats t => enable_review t
  | ComponentStats r _ _ | ProjectLanguageStats r _ _
  | CategoryLanguageStats r _ _ | ProjectStats r _ _ _ => r
  | _ => true
  end.

Definition object_set_of (self : BaseStats) : list stats_obj :=
  match kind self with
  | LanguageStats os | ComponentStats _ os _ | ProjectLanguageStats _ os _
  | CategoryLanguageStats _ os _ | CategoryStats os _ | ProjectStats _ os _ _
  | ComponentListStats os | GlobalStats os _ => os
  | _ => []
  end.

Definition category_set_of (self : BaseStats) : list stats_obj :=
  match kind self with
  | ProjectLanguageStats _ _ cs | CategoryLanguageStats _ _ cs
  | CategoryStats _ cs | ProjectStats _ _ cs _ => cs
  | _ => []
  end.

(** ** load, save, clear, store *)

Definition load (self : BaseStats) : M (option record) :=
  match kind self with
  | DummyTranslationStats | GhostStats _ => mret (Some ∅)
  | _ => gets (fun w => match cache w !! cache_key self with
                        | Some v => v
                        | None => Some ∅
                        end)
  end.

(** [BaseStats.save]: [cache.set(self.cache_key, self._data, 30 * 86400)] *)
Definition base_save (self : BaseStats) : M unit :=
  modify (fun w => cache_set (cache_key self) (_data w) w).

Definition save (self : BaseStats) (update_parents : bool) : M unit :=
  match kind self with
  | DummyTranslationStats | GhostStats _ => mret tt
  | TranslationStats _ =>
      base_save self;;
      if update_parents then modify transaction_on_commit else mret tt
  | _ => base_save self
  end.

Definition clear : M unit := modify (with_data (Some ∅)).

Definition is_None (v : value) : bool :=
  match v with VNone => true | _ => false end.

(** The value [store] writes for [value] under [key]. *)
Definition stored (key : string) (v : value) : value :=
  if is_None v && negb (startswith "last_" key) then VInt 0 else v.

Definition store (self : BaseStats) (key : string) (v : value) : M unit :=
  d ← gets _data;
  (match d with
   | None => l ← load self; modify (with_data l)
   | Some _ => mret tt
   end);;
  d ← gets _data;
  match d with
  | None => raise TypeError
  | Some d => modify (with_data (Some (<[key := stored key v]> d)))
  end.

(** [for key, value in items: self.store(key, value)] *)
Fixpoint store_all (self : BaseStats) (items : list (string * value)) : M unit :=
  match items with
  | [] => mret tt
  | (key, v) :: rest => store self key v;; store_all self rest
  end.

(** ** Queries on raw content *)

(** [Count("id")] over the rows of a query. *)
Definition Count {A} (rows : list A) : value := VInt (Z.of_nat (List.length rows)).

Definition total {A} (f : A → Z) (rows : list A) : Z :=
  foldr (fun r acc => f r + acc) 0 rows.

(** [Sum(field)]: SQL gives NULL over no rows. *)
Definition Sum {A} (f : A → Z) (rows : list A) : value :=
  match rows with
  | [] => VNone
  | _ => VInt (total f rows)
  end.

(** Modelled from the spec: conditional_sum of weblate.utils.db is not part
    of the sources.  One aggregate pass gives, per partition, the sum of a
    measure over the items that satisfy the partition's condition: the SQL
    [SUM(CASE WHEN cond THEN value ELSE 0 END)]. *)
Definition conditional_sum {A} (measure : A → Z) (cond : A → bool)
  (rows : list A) : value :=
  Sum (fun r => if cond r then measure r else 0) rows.

(** The annotations of [_calculate_basic]; each is a count over the related
    rows of one unit. *)
Definition active_checks_count (u : Unit) : Z :=
  Z.of_nat (List.length (List.filter (fun c => negb (dismissed c)) (check u))).
Definition dismissed_checks_count (u : Unit) : Z :=
  Z.of_nat (List.length (List.filter dismissed (check u))).
Definition suggestion_count (u : Unit) : Z := Z.of_nat (suggestion u).
Definition comment_count (u : Unit) : Z :=
  Z.of_nat (List.length (List.filter (fun c => negb (resolved c)) (comment u))).

(** [Length("source")] *)
Definition Length_source (u : Unit) : Z := Z.of_nat (String.length (source u)).

(** [source_unit__labels__isnull=True] *)
Definition labels_isnull (u : Unit) : bool :=
  match source_unit_labels u with [] => true | _ => false end.

Section Calculators.
Context `{States}.

Definition one (u : Unit) : Z := 1.

(** The [base.aggregate(...)] call of [TranslationStats._calculate_basic],
    keyword by keyword. *)
Definition unit_aggregate (units : list Unit) : list (string * value) :=
  [ ("all", Count units);
    ("all_words", Sum num_words units);
    ("all_chars", Sum Length_source units);
    ("fuzzy", conditional_sum one (fun u => state u =? STATE_FUZZY) units);
    ("fuzzy_words",
      conditional_sum num_words (fun u => state u =? STATE_FUZZY) units);
    ("fuzzy_chars",
      conditional_sum Length_source (fun u => state u =? STATE_FUZZY) units);
    ("readonly", conditional_sum one (fun u => state u =? STATE_READONLY) units);
    ("readonly_words",
      conditional_sum num_words (fun u => state u =? STATE_READONLY) units);
    ("readonly_chars",
      conditional_sum Length_source (fun u => state u =? STATE_READONLY) units);
    ("translated",
      conditional_sum one (fun u => STATE_TRANSLATED <=? state u) units);
    ("translated_words",
      conditional_sum num_words (fun u => STATE_TRANSLATED <=? state u) units);
    ("translated_chars",
      conditional_sum Length_source (fun u => STATE_TRANSLATED <=? state u) units);
    ("todo", conditional_sum one (fun u => state u <? STATE_TRANSLATED) units);
    ("todo_words",
      conditional_sum num_words (fun u => state u <? STATE_TRANSLATED) units);
    ("todo_chars",
      conditional_sum Length_source (fun u => state u <? STATE_TRANSLATED) units);
    ("nottranslated",
      conditional_sum one (fun u => state u =? STATE_EMPTY) units);
    ("nottranslated_words",
      conditional_sum num_words (fun u => state u =? STATE_EMPTY) units);
    ("nottranslated_chars",
      conditional_sum Length_source (fun u => state u =? STATE_EMPTY) units);
    ("approved", conditional_sum one (fun u => state u =? STATE_APPROVED) units);
    ("approved_words",
      conditional_sum num_words (fun u => state u =? STATE_APPROVED) units);
    ("approved_chars",
      conditional_sum Length_source (fun u => state u =? STATE_APPROVED) units);
    ("unapproved",
      conditional_sum one (fun u => state u =? STATE_TRANSLATED) units);
    ("unapproved_words",
      conditional_sum num_words (fun u => state u =? STATE_TRANSLATED) units);
    ("unapproved_chars",
      conditional_sum Length_source (fun u => state u =? STATE_TRANSLATED) units);
    ("unlabeled", conditional_sum one labels_isnull units);
    ("unlabeled_words", conditional_sum num_words labels_isnull units);
    ("unlabeled_chars", conditional_sum Length_source labels_isnull units);
    ("allchecks",
      conditional_sum one (fun u => 0 <? active_checks_count u) units);
    ("allchecks_words",
      conditional_sum num_words (fun u => 0 <? active_checks_count u) units);
    ("allchecks_chars",
      conditional_sum Length_source (fun u => 0 <? active_checks_count u) units);
    ("translated_checks",
      conditional_sum one
        (fun u => (state u =? STATE_TRANSLATED) && (0 <? active_checks_count u))
        units);
    ("translated_checks_words",
      conditional_sum num_words
        (fun u => (state u =? STATE_TRANSLATED) && (0 <? active_checks_count u))
        units);
    ("translated_checks_chars",
      conditional_sum Length_source
        (fun u => (state u =? STATE_TRANSLATED) && (0 <? active_checks_count u))
        units);
    ("dismissed_checks",
      conditional_sum one (fun u => 0 <? dismissed_checks_count u) units);
    ("dismissed_checks_words",
      conditional_sum num_words (fun u => 0 <? dismissed_checks_count u) units);
    ("dismissed_checks_chars",
      conditional_sum Length_source (fun u => 0 <? dismissed_checks_count u) units);
    ("suggestions", conditional_sum one (fun u => 0 <? suggestion_count u) units);
    ("suggestions_words",
      conditional_sum num_words (fun u => 0 <? suggestion_count u) units);
    ("suggestions_chars",
      conditional_sum Length_source (fun u => 0 <? suggestion_count u) units);
    ("nosuggestions",
      conditional_sum one
        (fun u => (state u <? STATE_TRANSLATED) && (suggestion_count u =? 0))
        units);
    ("nosuggestions_words",
      conditional_sum num_words
        (fun u => (state u <? STATE_TRANSLATED) && (suggestion_count u =? 0))
        units);
    ("nosuggestions_chars",
      conditional_sum Length_source
        (fun u => (state u <? STATE_TRANSLATED) && (suggestion_count u =? 0))
        units);
    ("approved_suggestions",
      conditional_sum one
        (fun u => (STATE_APPROVED <=? state u) && (0 <? suggestion_count u))
        units);
    ("approved_suggestions_words",
      conditional_sum num_words
        (fun u => (STATE_APPROVED <=? state u) && (0 <? suggestion_count u))
        units);
    ("approved_suggestions_chars",
      conditional_sum Length_source
        (fun u => (STATE_APPROVED <=? state u) && (0 <? suggestion_count u))
        units);
    ("comments", conditional_sum one (fun u => 0 <? comment_count u) units);
    ("comments_words",
      conditional_sum num_words (fun u => 0 <? comment_count u) units);
    ("comments_chars",
      conditional_sum Length_source (fun u => 0 <? comment_count u) units) ].

(** [get_last_change_obj]: the pointer set by [Change.save], else the cached
    primary key ([0] stands for no change), else the newest content change.
    The writes to the auxiliary last-change cache do not touch the
    statistics record and are left out. *)
Definition get_last_change_obj (t : Translation) : option Change :=
  match last_change_cache t with
  | Some c => Some c
  | None =>
      let newest := head (change_set_content t) in
      match cached_change_pk t with
      | Some pk =>
          if pk =? 0 then None
          else match find (fun c => change_pk c =? pk) (Change_objects t) with
               | Some c => Some c
               | None => newest
               end
      | None => newest
      end
  end.

Definition of_option (o : option Z) : value :=
  match o with Some n => VInt n | None => VNone end.

Definition fetch_last_change (self : BaseStats) (t : Translation) : M unit :=
  match get_last_change_obj t with
  | None =>
      store self "last_changed" VNone;;
      store self "last_author" VNone
  | Some last_change =>
      store self "last_changed" (VTime (timestamp last_change));;
      store self "last_author" (of_option (author_id last_change))
  end.

(** [self.last_changed - timedelta(hours=6)] *)
Definition minus_timedelta (v : value) (delta : Z) : res Z :=
  match v with
  | VTime t => Ok (t - delta)
  | _ => Raise TypeError
  end.

(** [count_changes]; [getattr] is attribute access on [self]. *)
Definition count_changes (getattr : string → M value) (self : BaseStats)
  (t : Translation) (clk : clock) : M unit :=
  last_changed ← getattr "last_changed";
  if truthy last_changed then
    let monthly := now clk - timedelta 30 0 in
    recently ← lift (minus_timedelta last_changed (timedelta 0 6));
    let changes := change_set_content t in
    store self "recent_changes"
      (conditional_sum (fun _ => 1) (fun c => recently <? timestamp c) changes);;
    store self "monthly_changes"
      (conditional_sum (fun _ => 1) (fun c => monthly <? timestamp c) changes);;
    store self "total_changes" (Count changes)
  else
    store self "recent_changes" (VInt 0);;
    store self "monthly_changes" (VInt 0);;
    store self "total_changes" (VInt 0).

Definition translation_calculate_basic (getattr : string → M value)
  (self : BaseStats) (t : Translation) (clk : clock) : M unit :=
  store_all self (unit_aggregate (unit_set t));;
  store self "languages" (VInt 1);;
  fetch_last_change self t;;
  count_changes getattr self t clk.

(** The loop bodies shared by [calculate_checks] and [calculate_labels]. *)
Definition store_row (self : BaseStats) (name : string) (stat : stat_row)
  : M unit :=
  store self name (strings stat);;
  store self (name ++ "_words")%string (words stat);;
  store self (name ++ "_chars")%string (chars stat).

Definition store_zero (self : BaseStats) (name : string) : M unit :=
  store self name (VInt 0);;
  store self (name ++ "_words")%string (VInt 0);;
  store self (name ++ "_chars")%string (VInt 0).

Definition discard (x : string) (s : list string) : list string :=
  List.filter (fun y => negb (String.eqb y x)) s.

(** The first loop of [calculate_checks]; [allchecks] holds the checks not
    seen yet. *)
Fixpoint store_check_rows (self : BaseStats) (stats : list stat_row)
  (allchecks : list string) : M (list string) :=
  match stats with
  | [] => mret allchecks
  | stat :: rest =>
      match row_name stat with
      | None => store_check_rows self rest allchecks
      | Some name =>
          let check := ("check:" ++ name)%string in
          store_row self check stat;;
          store_check_rows self rest (discard check allchecks)
      end
  end.

Fixpoint store_zeros (self : BaseStats) (names : list string) : M unit :=
  match names with
  | [] => mret tt
  | name :: rest => store_zero self name;; store_zeros self rest
  end.

Definition calculate_checks (self : BaseStats) (t : Translation) : M unit :=
  allchecks ← store_check_rows self (check_stats t) (CHECKS t);
  store_zeros self allchecks;;
  save self true.

(** The first loop of [calculate_labels]; here the set holds bare label
    names. *)
Fixpoint store_label_rows (self : BaseStats) (stats : list stat_row)
  (alllabels : list string) : M (list string) :=
  match stats with
  | [] => mret alllabels
  | stat :: rest =>
      match row_name stat with
      | None => store_label_rows self rest alllabels
      | Some label_name =>
          store_row self ("label:" ++ label_name)%string stat;;
          store_label_rows self rest (discard label_name alllabels)
      end
  end.

Definition calculate_labels (self : BaseStats) (t : Translation) : M unit :=
  alllabels ← store_label_rows self
                (label_stats t ++ translation_label_stats t) (label_set t);
  store_zeros self (map (fun name => ("label:" ++ name)%string) alllabels);;
  save self true.

(** ** Aggregation over children *)

(** [stats[key] += stats_obj.name] *)
Definition add_attr (stats : record) (key : string) (stats_obj : stats_obj)
  (name : string) : res record :=
  cur ← index stats key;
  theirs ← attr stats_obj name;
  sum ← py_add cur theirs;
  Ok (<[key := sum]> stats).

(** [calculate_source] of [AggregatingStats], overridden by
    [ParentAggregatingStats] and by [ComponentStats]. *)
Definition calculate_source (self : BaseStats) (stats_obj : stats_obj)
  (stats : record) : res record :=
  match kind self with
  | ComponentStats _ _ _ => Ok stats
  | CategoryStats _ _ | ProjectStats _ _ _ _ | ComponentListStats _
  | GlobalStats _ _ =>
      stats ← aggregate stats "source_chars" stats_obj;
      stats ← aggregate stats "source_words" stats_obj;
      aggregate stats "source_strings" stats_obj
  | _ =>
      stats ← add_attr stats "source_chars" stats_obj "all_chars";
      stats ← add_attr stats "source_words" stats_obj "all_words";
      add_attr stats "source_strings" stats_obj "all"
  end.

(** [for obj in self.object_set: ...] *)
Fixpoint aggregate_objects (self : BaseStats) (objects : list stats_obj)
  (stats : record) : res record :=
  match objects with
  | [] => Ok stats
  | stats_obj :: rest =>
      stats ← aggregate_keys BASIC_KEYS stats_obj stats;
      stats ← calculate_source self stats_obj stats;
      aggregate_objects self rest stats
  end.

(** [for category in self.category_set: ...] *)
Fixpoint aggregate_categories (self : BaseStats) (categories : list stats_obj)
  (stats : record) : res record :=
  match categories with
  | [] => Ok stats
  | stats_obj :: rest =>
      stats ← aggregate_keys (basic_keys self) stats_obj stats;
      aggregate_categories self rest stats
  end.

Definition prefetch_source (self : BaseStats) : M unit :=
  match kind self with
  | ComponentStats _ _ None =>
      store self "source_chars" (VInt 0);;
      store self "source_words" (VInt 0);;
      store self "source_strings" (VInt 0)
  | ComponentStats _ _ (Some stats_obj) =>
      all_chars ← lift (attr stats_obj "all_chars");
      store self "source_chars" all_chars;;
      all_words ← lift (attr stats_obj "all_words");
      store self "source_words" all_words;;
      all ← lift (attr stats_obj "all");
      store self "source_strings" all
  | _ => mret tt
  end.

(** The two loops of [AggregatingStats._calculate_basic], which fill the
    local [stats]. *)
Definition aggregated (self : BaseStats) : res record :=
  stats ← aggregate_objects self (object_set_of self)
            (zero_stats (basic_keys self));
  aggregate_categories self (category_set_of self) stats.

(** [AggregatingStats._calculate_basic] *)
Definition aggregating_calculate_basic (self : BaseStats) : M unit :=
  stats ← lift (aggregated self);
  store_all self (map_to_list stats);;
  prefetch_source self.

(** Modelled from the spec: [Project.languages] and
    [Language.objects.have_translation()] are not part of the sources.  The
    languages key at project and global scope is the distinct count of the
    languages among the translations below the node. *)
Definition languages_count (translation_languages : list Z) : value :=
  VInt (Z.of_nat (size (list_to_set translation_languages : gset Z))).

(** The local [stats] of [GhostStats._calculate_basic]. *)
Definition ghost_stats (self : BaseStats) (base : option stats_obj)
  : res record :=
  let stats := zero_stats (basic_keys self) in
  match base with
  | None => Ok stats
  | Some base =>
      all ← attr base "all";
      let stats := <["all" := all]> stats in
      all_words ← attr base "all_words";
      let stats := <["all_words" := all_words]> stats in
      all_chars ← attr base "all_chars";
      let stats := <["all_chars" := all_chars]> stats in
      all ← index stats "all";
      let stats := <["todo" := all]> stats in
      all_words ← index stats "all_words";
      let stats := <["todo_words" := all_words]> stats in
      all_chars ← index stats "all_chars";
      Ok (<["todo_chars" := all_chars]> stats)
  end.

(** [GhostStats._calculate_basic] *)
Definition ghost_calculate_basic (self : BaseStats) (base : option stats_obj)
  : M unit :=
  stats ← lift (ghost_stats self base);
  store_all self (map_to_list stats).

(** [_calculate_basic], dispatched on the class. *)
Definition _calculate_basic (getattr : string → M value) (self : BaseStats)
  (clk : clock) : M unit :=
  match kind self with
  | DummyTranslationStats =>
      modify (with_data (Some (zero_stats (basic_keys self))))
  | TranslationStats t => translation_calculate_basic getattr self t clk
  | GhostStats base => ghost_calculate_basic self base
  | ProjectLanguageStats _ _ _ | CategoryLanguageStats _ _ _ =>
      aggregating_calculate_basic self;;
      store self "languages" (VInt 1)
  | ProjectStats _ _ _ languages | GlobalStats _ languages =>
      aggregating_calculate_basic self;;
      store self "languages" (languages_count languages)
  | _ => aggregating_calculate_basic self
  end.

Definition calculate_basic (getattr : string → M value) (self : BaseStats)
  (clk : clock) : M unit :=
  _calculate_basic getattr self clk;;
  store self "stats_timestamp" (VFloat (monotonic clk)).

(** [calculate_by_name] of [BaseStats], extended by [TranslationStats]. *)
Definition calculate_by_name (getattr : string → M value) (self : BaseStats)
  (clk : clock) (name : string) : M unit :=
  (if contains (basic_keys self) name
   then calculate_basic getattr self clk;; save self true
   else mret tt);;
  match kind self with
  | TranslationStats t =>
      if startswith "check:" name then calculate_checks self t
      else if startswith "label:" name then calculate_labels self t
      else mret tt
  | _ => mret tt
  end.

(** ** Percents *)

Definition is_zero (v : value) : bool :=
  match v with
  | VInt n => n =? 0
  | VFloat q => bool_decide (q = 0%Qc)
  | _ => false
  end.

(** Modelled from the spec: translation_percent of weblate.trans.util is
    not part of the sources.  The result is 100 if the denominator is 0 and
    [zero_complete] holds, 0 if the denominator is 0 and it does not, and
    numerator / denominator * 100 otherwise, not clamped. *)
Definition translation_percent (translated total : value)
  (zero_complete : bool) : res value :=
  if is_zero total then
    Ok (VFloat (if zero_complete then Qc_of_Z 100 else Qc_of_Z 0))
  else
    match number translated, number total with
    | Some n, Some d => Ok (VFloat (n / d * Qc_of_Z 100)%Qc)
    | _, _ => Raise TypeError
    end.

(** [calculate_percent]; [getattr] is attribute access on [self]. *)
Definition calculate_percent (getattr : string → M value) (self : BaseStats)
  (item : string) : M value :=
  let base := drop_last 8 item in
  total ← (if endswith "_words" base then getattr "all_words"
           else if endswith "_chars" base then getattr "all_chars"
           else getattr "all");
  let completed :=
    if has_review self
    then [ "approved"; "approved_words"; "approved_chars" ]
    else [ "translated"; "translated_words"; "translated_chars" ] in
  translated ← getattr base;
  lift (translation_percent translated total (contains completed base)).

(** The six [waiting_review] properties: [suffix] is what follows
    [waiting_review] in the name of the property. *)
Definition waiting_review (getattr : string → M value) (suffix : string)
  : M value :=
  translated ← getattr ("translated" ++ suffix)%string;
  approved ← getattr ("approved" ++ suffix)%string;
  difference ← lift (py_sub translated approved);
  readonly ← getattr ("readonly" ++ suffix)%string;
  lift (py_sub difference readonly).

Definition waiting_review_suffixes : list string :=
  [ "_percent"; ""; "_words_percent"; "_words"; "_chars_percent"; "_chars" ].

(** Attribute access on a statistics object for a metric name: the
    properties of the class come first, [__getattr__] serves the rest.
    The other names the class defines, its methods and plain attributes,
    are no metric names and are not read through here. *)
Definition attribute (__getattr__ : string → M value) (name : string)
  : M value :=
  match find (fun suffix => String.eqb name ("waiting_review" ++ suffix))
          waiting_review_suffixes with
  | Some suffix => waiting_review __getattr__ suffix
  | None => __getattr__ name
  end.

(** ** __getattr__ *)

(** [self._data] where a dict is needed. *)
Definition loaded : M record :=
  d ← gets _data;
  match d with
  | Some d => mret d
  | None => raise TypeError
  end.

Definition has (name : string) (d : record) : bool :=
  match d !! name with Some _ => true | None => false end.

(** The calculators read attributes of [self] again, so the definition is
    recursive; [fuel] bounds the nesting of these reads and its exhaustion
    is the interpreter's [RecursionError]. *)
Fixpoint __getattr__ (fuel : nat) (self : BaseStats) (clk : clock)
  (name : string) : M value :=
  match fuel with
  | O => raise RecursionError
  | S fuel =>
      let getattr := attribute (__getattr__ fuel self clk) in
      if startswith "_" name then raise (AttributeError "Invalid stats" name)
      else
        d ← gets _data;
        (match d with
         | None => l ← load self; modify (with_data l)
         | Some _ => mret tt
         end);;
        if endswith "_percent" name then calculate_percent getattr self name
        else if String.eqb name "stats_timestamp" then
          d ← gets _data;
          match d with
          | Some d => mret (dict_get d name (VInt 0))
          | None => raise (AttributeError "NoneType" "get")
          end
        else
          d ← loaded;
          if negb (has name d) then
            was_pending ← gets _pending_save;
            modify (with_pending_save true);;
            calculate_by_name getattr self clk name;;
            d ← loaded;
            if negb (has name d)
            then raise (AttributeError "Unsupported stats" name)
            else
              (if negb was_pending
               then save self true;; modify (with_pending_save false)
               else mret tt);;
              d ← loaded;
              lift (index d name)
          else lift (index d name)
  end.

(** [getattr(self, name)] *)
Definition getattr (fuel : nat) (self : BaseStats) (clk : clock)
  (name : string) : M value :=
  attribute (__getattr__ fuel self clk) name.

(** ** update_stats *)

Definition update_stats (fuel : nat) (self : BaseStats) (clk : clock)
  (STATS_LAZY update_parents : bool) : M unit :=
  clear;;
  if STATS_LAZY then save self update_parents
  else
    calculate_basic (getattr fuel self clk) self clk;;
    save self update_parents.

(** A statistics object in a given state, seen as a child: what its reads
    return from that state.  The state the reads leave the child in is
    dropped. *)
Definition stats_of (fuel : nat) (self : BaseStats) (clk : clock) (w : world)
  : stats_obj :=
  {| attr name := fst (getattr fuel self clk name w) |}.

End Calculators.

(** ** update_parents *)

(** A statistics object yielded by [get_update_objects], with the record it
    holds in this process, if it holds one. *)
Record stat_object := { stat : BaseStats; stat_data : option record }.

Definition is_loaded (s : stat_object) : bool :=
  match stat_data s with Some _ => true | None => false end.

(** [d[k] = v] on a dict, which keeps insertion order: a key that is present
    keeps its place and takes the new value, a new key goes last. *)
Fixpoint dict_setitem {V} (k : string) (v : V) (d : list (string * V))
  : list (string * V) :=
  match d with
  | [] => [(k, v)]
  | (k', v') :: rest =>
      if String.eqb k' k then (k, v) :: rest
      else (k', v') :: dict_setitem k v rest
  end.

(** [prefetch_many]: one [cache.get_many] for the objects that are not
    loaded.  [lookup] is keyed by cache key, so of several unloaded objects
    with one key the last takes the data; keys without a hit give the empty
    record. *)
Fixpoint prefetch_many (cache : gmap string (option record))
  (stats : list stat_object) : list stat_object :=
  match stats with
  | [] => []
  | s :: rest =>
      (if is_loaded s
          || existsb (fun s' => negb (is_loaded s')
                                && String.eqb (cache_key (stat s'))
                                     (cache_key (stat s))) rest
       then s
       else {| stat := stat s;
               stat_data := match cache !! cache_key (stat s) with
                            | Some v => v
                            | None => Some ∅
                            end |})
      :: prefetch_many cache rest
  end.

(** [prefetch_stats] on the values of a dict: the same objects, loaded. *)
Definition prefetch_stats (cache : gmap string (option record))
  (queryset : list stat_object) : list stat_object :=
  match queryset with
  | [] => []
  | _ => prefetch_many cache queryset
  end.

(** The dict [stat_objects] of [update_parents]. *)
Definition stat_objects (update_objects extra_objects : list stat_object)
  : list (string * stat_object) :=
  foldl (fun d s => dict_setitem (cache_key (stat s)) s d)
    (foldl (fun d s => dict_setitem (cache_key (stat s)) s d) [] update_objects)
    extra_objects.

Section UpdateParents.
Context `{States}.

(** [stat.stats_timestamp] *)
Definition stats_timestamp (cache : gmap string (option record))
  (s : stat_object) : res value :=
  fst (__getattr__ 1 (stat s) {| monotonic := 0%Qc; now := 0 |}
         "stats_timestamp" (World (stat_data s) false cache [] 0)).

(** The loop of [update_parents]: the result lists, in order, the objects
    whose [update_stats] is called.  [timestamp] is what
    [self.stats_timestamp] gives. *)
Fixpoint update_loop (timestamp : value) (cache : gmap string (option record))
  (stats : list stat_object) : res (list stat_object) :=
  match stats with
  | [] => Ok []
  | s :: rest =>
      skip ← (if truthy timestamp
              then theirs ← stats_timestamp cache s; py_le timestamp theirs
              else Ok false);
      updated ← update_loop timestamp cache rest;
      Ok (if skip : bool then updated else s :: updated)
  end.

Definition update_parents (timestamp : value)
  (cache : gmap string (option record))
  (update_objects extra_objects : list stat_object) : res (list stat_object) :=
  update_loop timestamp cache
    (prefetch_stats cache (map snd (stat_objects update_objects extra_objects))).

End UpdateParents.

(** ** get_update_objects *)

(** The entities [get_update_objects] walks through, each with its
    statistics object; [GlobalStats()] is made anew at every yield and is
    given as [global]. *)
Inductive Category :=
| RootCategory (category_stats project_stats : stat_object)
| NestedCategory (category_stats project_stats : stat_object)
    (parent : Category).

Definition category_stats_of (c : Category) : stat_object :=
  match c with
  | RootCategory stats _ | NestedCategory stats _ _ => stats
  end.

Record Component := {
  component_stats : stat_object;
  component_project_stats : stat_object;
  component_category : option Category;
  componentlist_set : list stat_object;
}.

Record TranslationObject := {
  language_stats : stat_object;
  translation_component : Component;
  project_language_stats : stat_object;
}.

(** [BaseStats.get_update_objects], which the language, project, component
    list and project-language statistics inherit. *)
Definition base_update_objects (global : stat_object) : list stat_object :=
  [ global ].

(** [CategoryStats.get_update_objects] *)
Fixpoint category_update_objects (global : stat_object) (c : Category)
  : list stat_object :=
  match c with
  | RootCategory _ project =>
      project :: base_update_objects global ++ base_update_objects global
  | NestedCategory _ project parent =>
      project :: base_update_objects global
      ++ category_stats_of parent :: category_update_objects global parent
      ++ base_update_objects global
  end.

(** [ComponentStats.get_update_objects] *)
Definition component_update_objects (global : stat_object) (c : Component)
  : list stat_object :=
  component_project_stats c :: base_update_objects global
  ++ match component_category c with
     | Some category =>
         category_stats_of category :: category_update_objects global category
     | None => []
     end
  ++ concat (map (fun clist => clist :: base_update_objects global)
               (componentlist_set c))
  ++ base_update_objects global.

(** [TranslationStats.get_update_objects] *)
Definition translation_update_objects (global : stat_object)
  (t : TranslationObject) : list stat_object :=
  language_stats t :: base_update_objects global
  ++ component_stats (translation_component t)
     :: component_update_objects global (translation_component t)
  ++ project_language_stats t :: base_update_objects global
  ++ base_update_objects global.

(** * Vocabulary of the statements *)

(** The record after a sequence of stores. *)
Fixpoint apply_items (items : list (string * value)) (d : record) : record :=
  match items with
  | [] => d
  | (k, v) :: rest => apply_items rest (<[k := stored k v]> d)
  end.

(** The last value stored under [k], if any. *)
Fixpoint last_stored (k : string) (items : list (string * value))
  : option value :=
  match items with
  | [] => None
  | (k', v) :: rest =>
      match last_stored k rest with
      | Some v' => Some v'
      | None => if String.eqb k' k then Some (stored k v) else None
      end
  end.


(** A name that reaches the record: no leading underscore, no percent
    marker, not the timestamp, not a property. *)
Definition plain (name : string) : bool :=
  negb (startswith "_" name)
  && negb (endswith "_percent" name)
  && negb (String.eqb name "stats_timestamp")
  && negb (existsb (fun suffix => String.eqb name ("waiting_review" ++ suffix))
             waiting_review_suffixes).

(** The records this object wrote with [cache.set] under one key, latest
    first. *)
Definition sets_of (key : string) (w : world) : list (option record) :=
  map snd (List.filter (fun e => String.eqb (fst e) key) (cache_sets w)).

(** The cache key of a yielded object. *)
Definition key_of (s : stat_object) : string := cache_key (stat s).

(** The keys of a sequence, each once, in the order of first occurrence. *)
Definition first_occurrences (keys : list string) : list string :=
  foldl (fun seen k => if contains seen k then seen else seen ++ [k]) [] keys.

(** Keys that [aggregate] sums. *)
Definition numeric (k : string) : bool :=
  negb (String.eqb k "stats_timestamp")
  && negb (String.eqb k "last_changed")
  && negb (String.eqb k "last_author").

(** The integer a record holds under a key, and the integer a child gives
    for an attribute. *)
Definition int_of (o : option value) : Z :=
  match o with Some (VInt n) => n | _ => 0 end.

Definition int_attr (c : stats_obj) (k : string) : Z :=
  match attr c k with Ok (VInt n) => n | _ => 0 end.

(** A child whose record is complete on [keys]: the counters are integers,
    the last change is a datetime or [None]. *)
Definition readable (keys : list string) (c : stats_obj) : Prop :=
  (∀ k, k ∈ keys → numeric k = true → ∃ n, attr c k = Ok (VInt n))
  ∧ (attr c "last_changed" = Ok VNone
     ∨ ∃ t, attr c "last_changed" = Ok (VTime t))
  ∧ (∃ a, attr c "last_author" = Ok a).

(** When a child was last changed. *)
Definition changed_at (c : stats_obj) : option Z :=
  match attr c "last_changed" with Ok (VTime t) => Some t | _ => None end.

(** The last change a record holds, and the one it holds after a child has
    been aggregated into it. *)
Definition last_pair (stats : record) : option value * option value :=
  (stats !! "last_changed", stats !! "last_author").

Definition merge_pair (c : stats_obj) (p : option value * option value)
  : option value * option value :=
  match attr c "last_changed", attr c "last_author" with
  | Ok (VTime t'), Ok a =>
      match fst p with
      | Some (VTime t) =>
          if t <? t' then (Some (VTime t'), Some a) else p
      | _ => (Some (VTime t'), Some a)
      end
  | _, _ => p
  end.

(** The effect of aggregating [c] over the keys [keys]. *)
Definition updated_by (keys : list string) (c : stats_obj)
  (stats stats' : record) : Prop :=
  (∀ k, numeric k = true →
     stats' !! k = if contains keys k
                   then Some (VInt (int_of (stats !! k) + int_attr c k))
                   else stats !! k)
  ∧ stats' !! "stats_timestamp" = stats !! "stats_timestamp"
  ∧ last_pair stats' = (if contains keys "last_changed"
                        then merge_pair c (last_pair stats)
                        else last_pair stats).

(** [p] is the last change of the most recently changed child: nothing if
    no child has a last change, else the change and the author of a child
    that no other child is more recent than. *)
Definition latest_of (children : list stats_obj)
  (p : option value * option value) : Prop :=
  (p = (Some VNone, Some VNone) ∧ ∀ c, c ∈ children → changed_at c = None)
  ∨ ∃ c t a, c ∈ children
      ∧ attr c "last_changed" = Ok (VTime t) ∧ attr c "last_author" = Ok a
      ∧ p = (Some (VTime t), Some a)
      ∧ ∀ c' t', c' ∈ children → changed_at c' = Some t' → t' ≤ t.

(** A record the aggregation can add to. *)
Definition summable (keys : list string) (stats : record) : Prop :=
  (∀ k, k ∈ keys → numeric k = true → ∃ n, stats !! k = Some (VInt n))
  ∧ (stats !! "last_changed" = Some VNone
     ∨ ∃ t, stats !! "last_changed" = Some (VTime t)).

(** The classes that aggregate children. *)
Definition composite (self : BaseStats) : bool :=
  match kind self with
  | DummyTranslationStats | TranslationStats _ | GhostStats _ => false
  | _ => true
  end.

(** The classes whose [save] writes the cache. *)
Definition persists (self : BaseStats) : bool :=
  match kind self with
  | DummyTranslationStats | GhostStats _ => false
  | _ => true
  end.

(** The classes under [ParentAggregatingStats]. *)
Definition parent_aggregating (self : BaseStats) : bool :=
  match kind self with
  | CategoryStats _ _ | ProjectStats _ _ _ _ | ComponentListStats _
  | GlobalStats _ _ => true
  | _ => false
  end.

Definition SOURCE_ONLY : list string :=
  [ "source_strings"; "source_words"; "source_chars" ].

(** The attribute of an object child that feeds a source key. *)
Definition source_attr (self : BaseStats) (k : string) : option string :=
  match kind self with
  | ComponentStats _ _ _ => None
  | CategoryStats _ _ | ProjectStats _ _ _ _ | ComponentListStats _
  | GlobalStats _ _ => Some k
  | _ =>
      Some (if String.eqb k "source_chars" then "all_chars"
            else if String.eqb k "source_words" then "all_words"
            else "all")
  end.

(** What an object child adds under a key. *)
Definition object_part (self : BaseStats) (c : stats_obj) (k : string) : Z :=
  if contains SOURCE_ONLY k
  then match source_attr self k with
       | Some a => int_attr c a
       | None => 0
       end
  else int_attr c k.

(** The effect of [calculate_source] for one object child. *)
Definition source_updated (self : BaseStats) (c : stats_obj)
  (stats stats' : record) : Prop :=
  (∀ k, numeric k = true →
     stats' !! k =
       if contains SOURCE_ONLY k
       then Some (VInt (int_of (stats !! k)
                        + match source_attr self k with
                          | Some a => int_attr c a
                          | None => 0
                          end))
       else stats !! k)
  ∧ stats' !! "stats_timestamp" = stats !! "stats_timestamp"
  ∧ last_pair stats' = last_pair stats.

(** The keys read from an object child. *)
Definition object_keys (self : BaseStats) : list string :=
  if parent_aggregating self then SOURCE_KEYS else BASIC_KEYS.

(** What [prefetch_source] stores. *)
Definition source_items (self : BaseStats) : res (list (string * value)) :=
  match kind self with
  | ComponentStats _ _ None =>
      Ok [ ("source_chars", VInt 0); ("source_words", VInt 0);
           ("source_strings", VInt 0) ]
  | ComponentStats _ _ (Some stats_obj) =>
      all_chars ← attr stats_obj "all_chars";
      all_words ← attr stats_obj "all_words";
      all ← attr stats_obj "all";
      Ok [ ("source_chars", all_chars); ("source_words", all_words);
           ("source_strings", all) ]
  | _ => Ok []
  end.

(** What the overriding [_calculate_basic] methods store after the
    aggregation. *)
Definition languages_items (self : BaseStats) : list (string * value) :=
  match kind self with
  | ProjectLanguageStats _ _ _ | CategoryLanguageStats _ _ _ =>
      [ ("languages", VInt 1) ]
  | ProjectStats _ _ _ languages | GlobalStats _ languages =>
      [ ("languages", languages_count languages) ]
  | _ => []
  end.

(** The partition measures: every basic key but [languages], the last
    change and the change counters. *)
Definition MEASURE_KEYS : list string :=
  map (fun x => (x ++ "_words")%string) BASICS
  ++ map (fun x => (x ++ "_chars")%string) BASICS
  ++ BASICS.

(** Number of rows that satisfy a condition. *)
Definition count_if {A} (cond : A → bool) (rows : list A) : Z :=
  Z.of_nat (List.length (List.filter cond rows)).

(** A value a counter may hold before [store] normalises it. *)
Definition countable (v : value) : Prop := v = VNone ∨ ∃ n, v = VInt n.

(** Modelled from the spec: the constants of weblate.utils.state are not
    part of the sources.  The spec orders the states as
    empty < fuzzy < translated < approved; this assignment follows that order
    and gives the read-only state a value of its own. *)
#[global] Instance weblate_states : States := {|
  STATE_EMPTY := 0;
  STATE_FUZZY := 10;
  STATE_TRANSLATED := 20;
  STATE_APPROVED := 30;
  STATE_READONLY := 100;
|}.

Section Vocabulary.
Context `{States}.

(** The order of the states, with the read-only state apart from the four
    ordered ones. *)
Definition states_ok : Prop :=
  STATE_EMPTY < STATE_FUZZY ∧ STATE_FUZZY < STATE_TRANSLATED
  ∧ STATE_TRANSLATED < STATE_APPROVED
  ∧ STATE_READONLY ≠ STATE_EMPTY ∧ STATE_READONLY ≠ STATE_FUZZY
  ∧ STATE_READONLY ≠ STATE_TRANSLATED ∧ STATE_READONLY ≠ STATE_APPROVED.

(** A translation statistics object. *)
Definition translation_stats (t : Translation) (key : string) : BaseStats :=
  {| kind := TranslationStats t; cache_key := key |}.

(** What the leaf computation stores after the unit measures and the
    languages key: the last change and the change counters. *)
Definition change_items (t : Translation) (clk : clock)
  : list (string * value) :=
  match get_last_change_obj t with
  | None =>
      [ ("last_changed", VNone); ("last_author", VNone);
        ("recent_changes", VInt 0); ("monthly_changes", VInt 0);
        ("total_changes", VInt 0) ]
  | Some last_change =>
      [ ("last_changed", VTime (timestamp last_change));
        ("last_author", of_option (author_id last_change));
        ("recent_changes",
          conditional_sum (fun _ => 1)
            (fun c => timestamp last_change - timedelta 0 6 <? timestamp c)
            (change_set_content t));
        ("monthly_changes",
          conditional_sum (fun _ => 1)
            (fun c => now clk - timedelta 30 0 <? timestamp c)
            (change_set_content t));
        ("total_changes", Count (change_set_content t)) ]
  end.

(** Everything the leaf computation stores, in order. *)
Definition leaf_items (t : Translation) (clk : clock) : list (string * value) :=
  unit_aggregate (unit_set t) ++ ("languages", VInt 1) :: change_items t clk.

(** The record [calculate_basic] leaves when it starts from the record [d]
    and finishes: the stores of the class, then the timestamp. *)
Definition computed (self : BaseStats) (clk : clock) (d : record) : res record :=
  let timestamp := [ ("stats_timestamp", VFloat (monotonic clk)) ] in
  match kind self with
  | DummyTranslationStats =>
      Ok (apply_items timestamp (zero_stats (basic_keys self)))
  | TranslationStats t => Ok (apply_items (leaf_items t clk ++ timestamp) d)
  | GhostStats base =>
      stats ← ghost_stats self base;
      Ok (apply_items (map_to_list stats ++ timestamp) d)
  | _ =>
      stats ← aggregated self;
      src ← source_items self;
      Ok (apply_items (map_to_list stats ++ src ++ languages_items self
                       ++ timestamp) d)
  end.




End Vocabulary.

(** ** The percent rule in the words of the specification *)

(** The denominator: [all_words] if the antecedent ends in [_words],
    [all_chars] if it ends in [_chars], else [all]. *)
Definition denominator_key (antecedent : string) : string :=
  if endswith "_words" antecedent then "all_words"
  else if endswith "_chars" antecedent then "all_chars"
  else "all".

(** [zero_complete]: the antecedent is an approved measure when the node
    has a review workflow, a translated measure when it has none. *)
Definition zero_complete (review : bool) (antecedent : string) : bool :=
  if review
  then bool_decide (antecedent ∈ [ "approved"; "approved_words"; "approved_chars" ])
  else bool_decide
         (antecedent ∈ [ "translated"; "translated_words"; "translated_chars" ]).

(** The rule: read the denominator, read the antecedent, take the percent. *)
Definition percent_rule (read : string → M value) (review : bool)
  (antecedent : string) : M value :=
  denominator ← read (denominator_key antecedent);
  numerator ← read antecedent;
  lift (translation_percent numerator denominator
          (zero_complete review antecedent)).

(** The value a cache slot holds under a key of the record. *)
Definition slot_value (slot : option (option record)) (k : string)
  : option value :=
  match slot with
  | Some (Some d) => d !! k
  | _ => None
  end.

(** The world once [__getattr__] has made sure the record is loaded. *)
Definition after_load (self : BaseStats) (w : world) : world :=
  match _data w with
  | Some _ => w
  | None => with_data (match fst (load self w) with
                       | Ok l => l
                       | Raise _ => None
                       end) w
  end.

(** The world after [save]. *)
Definition saved (self : BaseStats) (update_parents : bool) (w : world) : world :=
  snd (save self update_parents w).

(** ** Sample objects *)

Definition empty_world : world := World None false ∅ [] 0.

Definition noon : clock := {| monotonic := Qc_of_Z 5; now := 100000 |}.

Definition later : clock := {| monotonic := Qc_of_Z 6; now := 100001 |}.

(** A translation with the given units and no change history. *)
Definition with_units (units : list Unit) : Translation :=
  {| enable_review := true; unit_set := units; change_set_content := [];
     last_change_cache := None; cached_change_pk := None;
     Change_objects := []; CHECKS := [ "check:same" ]; check_stats := [];
     label_set := []; label_stats := []; translation_label_stats := [] |}.

Definition no_content : Translation := with_units [].

(** The translation [t] with the unit [u] as its only unit. *)
Definition only_unit (t : Translation) (u : Unit) : Translation :=
  {| enable_review := enable_review t; unit_set := [u];
     change_set_content := change_set_content t;
     last_change_cache := last_change_cache t;
     cached_change_pk := cached_change_pk t;
     Change_objects := Change_objects t; CHECKS := CHECKS t;
     check_stats := check_stats t; label_set := label_set t;
     label_stats := label_stats t;
     translation_label_stats := translation_label_stats t |}.

Definition one_unit (u : Unit) : Translation := with_units [u].

(** A unit of three characters in the given state, with the given number
    of words. *)
Definition plain_unit (s n : Z) : Unit :=
  {| state := s; num_words := n; source := "abc"; check := [];
     suggestion := 0; comment := []; source_unit_labels := [] |}.

(** One unit in each state. *)
Definition five_units : Translation :=
  with_units [ plain_unit 0 1; plain_unit 10 2; plain_unit 20 3;
               plain_unit 30 4; plain_unit 100 5 ].

(** A complete record with the given counts of strings, source strings and
    languages, last change and timestamp; the other counters are 0. *)
Definition child_record (all source_strings languages : Z)
  (last_changed last_author stats_timestamp : value) : record :=
  <["stats_timestamp" := stats_timestamp]>
    (<["last_author" := last_author]>
       (<["last_changed" := last_changed]>
          (<["languages" := VInt languages]>
             (<["source_strings" := VInt source_strings]>
                (<["all" := VInt all]> (zero_stats SOURCE_KEYS)))))).

(** A child that holds the loaded record [d]. *)
Definition loaded_child (d : record) : stats_obj :=
  stats_of 1 {| kind := ComponentListStats []; cache_key := "stats-child" |}
    noon (World (Some d) false ∅ [] 0).

(** Two children: three strings, changed at 50 by author 7, computed at 9;
    and four strings, changed at 80 by author 8, computed at 2. *)
Definition child_a : stats_obj :=
  loaded_child (child_record 3 3 2 (VTime 50) (VInt 7) (VFloat (Qc_of_Z 9))).

Definition child_b : stats_obj :=
  loaded_child (child_record 4 4 2 (VTime 80) (VInt 8) (VFloat (Qc_of_Z 2))).

Definition list_node : BaseStats :=
  {| kind := ComponentListStats [ child_a; child_b ]; cache_key := "stats-list" |}.

Definition component_node : BaseStats :=
  {| kind := ComponentStats true [ child_a; child_b ] (Some child_a);
     cache_key := "stats-component" |}.

(** A project with a component and a category, whose translations are in
    the languages 1 and 2. *)
Definition project_node : BaseStats :=
  {| kind := ProjectStats true [ child_a ] [ child_b ] [ 1; 2; 1; 2 ];
     cache_key := "stats-project" |}.

(** A translation of a component that is in no category and no list; the
    objects are named by their cache keys. *)
Definition named (key : string) : stat_object :=
  {| stat := {| kind := ComponentListStats []; cache_key := key |};
     stat_data := None |}.

Definition sample_translation : TranslationObject :=
  {| language_stats := named "stats-language";
     translation_component :=
       {| component_stats := named "stats-component";
          component_project_stats := named "stats-project";
          component_category := None;
          componentlist_set := [] |};
     project_language_stats := named "stats-project-language" |}.

(** A cache that holds one record, computed at clock reading 5, and the
    object that has loaded it. *)
Definition sample_cache : gmap string (option record) :=
  {[ "stats-list" :=
       Some (child_record 7 7 2 (VTime 80) (VInt 8) (VFloat (Qc_of_Z 5))) ]}.

Definition sample_ancestor : stat_object :=
  {| stat := stat (named "stats-list");
     stat_data :=
       Some (child_record 7 7 2 (VTime 80) (VInt 8) (VFloat (Qc_of_Z 5))) |}.
(** * Further methods of the module *)

(** ** get_data *)

(** The percents [get_data] adds to the record. *)
Definition percents : list string :=
  [ "translated_percent"; "approved_percent"; "fuzzy_percent";
    "readonly_percent"; "allchecks_percent"; "translated_checks_percent";
    "translated_words_percent"; "approved_words_percent";
    "fuzzy_words_percent"; "readonly_words_percent";
    "allchecks_words_percent"; "translated_checks_words_percent" ].

(** [{percent: self.calculate_percent(percent) for percent in percents}] *)
Fixpoint percent_data (getattr : string → M value) (self : BaseStats)
  (percents : list string) (data : record) : M record :=
  match percents with
  | [] => mret data
  | percent :: rest =>
      v ← calculate_percent getattr self percent;
      percent_data getattr self rest (<[percent := v]> data)
  end.

(** [get_data]: the percents, updated with the record, whose keys win;
    updating with a record that is [None] raises. *)
Definition get_data (getattr : string → M value) (self : BaseStats)
  : M record :=
  data ← percent_data getattr self percents ∅;
  d ← gets _data;
  match d with
  | Some d => mret (d ∪ data)
  | None => raise TypeError
  end.

(** ** ProjectLanguage.workflow_settings *)

(** A workflow setting: [project_id] is [None] for the setting of a language
    that holds for all projects. *)
Record WorkflowSetting := {
  workflow_project_id : option Z;
  workflow_language : Z;
}.

(** What [workflow_settings] does: it returns [None], returns a setting or
    raises [WorkflowSetting.DoesNotExist]. *)
Inductive workflow_result :=
| NoSetting
| Setting (workflow_setting : WorkflowSetting)
| RaiseDoesNotExist.

(** [workflow_setting.project_id == self.project.id] *)
Definition of_project (project : Z) (s : WorkflowSetting) : bool :=
  match workflow_project_id s with
  | Some p => p =? project
  | None => false
  end.

(** [WorkflowSetting.objects.filter(Q(project=None) | Q(project=self.project),
    language=self.language)] *)
Definition workflow_filter (objects : list WorkflowSetting)
  (project language : Z) : list WorkflowSetting :=
  List.filter
    (fun s => (match workflow_project_id s with
               | None => true
               | Some p => p =? project
               end) && (workflow_language s =? language))
    objects.

Definition workflow_settings (objects : list WorkflowSetting)
  (project language : Z) : workflow_result :=
  let workflow_settings := workflow_filter objects project language in
  match workflow_settings with
  | [] => NoSetting
  | [ workflow_setting ] => Setting workflow_setting
  | _ =>
      match find (of_project project) workflow_settings with
      | Some workflow_setting => Setting workflow_setting
      | None => RaiseDoesNotExist
      end
  end.

(** * Further vocabulary of the statements *)

(** The class whose [save] registers the update of the parents. *)
Definition schedules_parents (self : BaseStats) : bool :=
  match kind self with
  | TranslationStats _ => true
  | _ => false
  end.

(** A name whose read is answered from the record when the record holds
    it: no leading underscore, no percent marker, not a [waiting_review]
    property.  These are the names that reach the record, and the
    timestamp. *)
Definition held (name : string) : bool :=
  negb (startswith "_" name)
  && negb (endswith "_percent" name)
  && negb (existsb (fun suffix => String.eqb name ("waiting_review" ++ suffix))
             waiting_review_suffixes).


(** Two lists hold the same elements. *)
Definition same_elements (xs ys : list string) : bool :=
  forallb (contains ys) xs && forallb (contains xs) ys.

(** What the loops of [calculate_checks] and [calculate_labels] store for
    one row and for one name without a row. *)
Definition row_items (name : string) (stat : stat_row)
  : list (string * value) :=
  [ (name, strings stat); ((name ++ "_words")%string, words stat);
    ((name ++ "_chars")%string, chars stat) ].

Definition zero_items (name : string) : list (string * value) :=
  [ (name, VInt 0); ((name ++ "_words")%string, VInt 0);
    ((name ++ "_chars")%string, VInt 0) ].

(** The names of the rows of a grouped query, in order. *)
Definition row_names (stats : list stat_row) : list string :=
  omap row_name stats.

(** Everything the first loop stores, the names given the prefix. *)
Fixpoint rows_items (prefix : string) (stats : list stat_row)
  : list (string * value) :=
  match stats with
  | [] => []
  | stat :: rest =>
      match row_name stat with
      | None => rows_items prefix rest
      | Some name => row_items (prefix ++ name) stat ++ rows_items prefix rest
      end
  end.

(** The names of a set that no row has discarded. *)
Definition unseen (seen all : list string) : list string :=
  List.filter (fun x => negb (contains seen x)) all.

(** The classes under [SingleLanguageStats]. *)
Definition single_language (self : BaseStats) : bool :=
  match kind self with
  | ProjectLanguageStats _ _ _ | CategoryLanguageStats _ _ _ => true
  | _ => false
  end.

(** The aggregating classes that store no [languages] of their own. *)
Definition sums_languages (self : BaseStats) : bool :=
  match kind self with
  | LanguageStats _ | ComponentStats _ _ _ | CategoryStats _ _
  | ComponentListStats _ => true
  | _ => false
  end.

(** A category and the categories above it, nearest first. *)
Fixpoint category_chain (c : Category) : list Category :=
  c :: match c with
       | RootCategory _ _ => []
       | NestedCategory _ _ parent => category_chain parent
       end.

Definition category_project_of (c : Category) : stat_object :=
  match c with
  | RootCategory _ project | NestedCategory _ project _ => project
  end.

(** The last object of a sequence that has the cache key [k]. *)
Fixpoint last_with_key (k : string) (l : list stat_object)
  : option stat_object :=
  match l with
  | [] => None
  | s :: rest =>
      match last_with_key k rest with
      | Some s' => Some s'
      | None => if String.eqb (key_of s) k then Some s else None
      end
  end.

(** The record [prefetch_many] gives an object that is not loaded. *)
Definition fetched (cache : gmap string (option record)) (s : stat_object)
  : stat_object :=
  {| stat := stat s;
     stat_data := match cache !! key_of s with
                  | Some v => v
                  | None => Some ∅
                  end |}.

(** What a ghost over a base with [all], [all_words] and [all_chars] strings,
    words and characters reports: everything is still to do. *)
Definition ghost_value (all all_words all_chars : Z) (name : string) : value :=
  if contains [ "all"; "todo" ] name then VInt all
  else if contains [ "all_words"; "todo_words" ] name then VInt all_words
  else if contains [ "all_chars"; "todo_chars" ] name then VInt all_chars
  else if numeric name then VInt 0
  else VNone.

(** The keys the percents of [get_data] are taken from. *)
Definition percent_operands : list string :=
  [ "all"; "all_words"; "translated"; "approved"; "fuzzy"; "readonly";
    "allchecks"; "translated_checks"; "translated_words"; "approved_words";
    "fuzzy_words"; "readonly_words"; "allchecks_words";
    "translated_checks_words" ].


(** ** Further sample objects *)

(** A world in which the object has loaded nothing and the cache holds one
    complete record under [stats-list]. *)
Definition cached_world : world := World None false sample_cache [] 0.

(** The record of [sample_cache]. *)
Definition cached_record : record :=
  child_record 7 7 2 (VTime 80) (VInt 8) (VFloat (Qc_of_Z 5)).

(** A child whose attributes cannot be read. *)
Definition broken_child : stats_obj := {| attr _ := Raise TypeError |}.

Definition broken_node : BaseStats :=
  {| kind := LanguageStats [ child_a; broken_child ];
     cache_key := "stats-language" |}.

(** The statistics of a language with two translations, and of a project
    in one language with the same two. *)
Definition language_node : BaseStats :=
  {| kind := LanguageStats [ child_a; child_b ];
     cache_key := "stats-language" |}.

Definition project_language_node : BaseStats :=
  {| kind := ProjectLanguageStats true [ child_a; child_b ] [];
     cache_key := "stats-project-language" |}.

(** A translation with two known checks and one label of the project; the
    grouped queries name one of the checks and no label. *)
Definition checked_translation : Translation :=
  {| enable_review := true; unit_set := []; change_set_content := [];
     last_change_cache := None; cached_change_pk := None;
     Change_objects := [];
     CHECKS := [ "check:same"; "check:end_stop" ];
     check_stats :=
       [ {| row_name := Some "same"; strings := VInt 2; words := VInt 5;
            chars := VInt 20 |};
         {| row_name := None; strings := VInt 9; words := VInt 9;
            chars := VInt 9 |} ];
     label_set := [ "urgent" ];
     label_stats :=
       [ {| row_name := None; strings := VInt 9; words := VInt 9;
            chars := VInt 9 |} ];
     translation_label_stats := [] |}.

(** A translation in a component of a nested category and one component
    list. *)
Definition nested_translation : TranslationObject :=
  {| language_stats := named "stats-language";
     translation_component :=
       {| component_stats := named "stats-component";
          component_project_stats := named "stats-project";
          component_category :=
            Some (NestedCategory (named "stats-category-inner")
                    (named "stats-project")
                    (RootCategory (named "stats-category-outer")
                       (named "stats-project")));
          componentlist_set := [ named "stats-list" ] |};
     project_language_stats := named "stats-project-language" |}.

(** An object named by its cache key that holds the record [d]. *)
Definition holding (key : string) (d : record) : stat_object :=
  {| stat := stat (named key); stat_data := Some d |}.

Definition dummy_stats : BaseStats :=
  {| kind := DummyTranslationStats; cache_key := "" |}.

Definition ghost_of (base : option stats_obj) : BaseStats :=
  {| kind := GhostStats base; cache_key := "stats-zero" |}.

(** A record that also holds a key named like the property. *)
Definition review_record : record :=
  {[ "translated" := VInt 9; "approved" := VInt 4; "readonly" := VInt 2;
     "waiting_review" := VInt 0 ]}.

(** Settings of language 1: one for all projects, one for project 5 and
    one for project 6. *)
Definition sample_workflows : list WorkflowSetting :=
  [ {| workflow_project_id := None; workflow_language := 1 |};
    {| workflow_project_id := Some 5; workflow_language := 1 |};
    {| workflow_project_id := Some 6; workflow_language := 1 |} ].

(** * Properties *)

(** ** The monad *)

Lemma bind_eq {A B} (m : M A) (f : A → M B) (w : world) :
  (m ≫= f) w = match m w with
               | (Ok a, w') => f a w'
               | (Raise e, w') => (Raise e, w')
               end.
Proof. reflexivity. Qed.

Lemma bind_mret {A B} (a : A) (f : A → M B) w : (mret a ≫= f) w = f a w.
Proof. reflexivity. Qed.

Lemma bind_gets {A B} (g : world → A) (f : A → M B) w :
  (gets g ≫= f) w = f (g w) w.
Proof. reflexivity. Qed.

Lemma bind_modify {B} (g : world → world) (f : unit → M B) w :
  (modify g ≫= f) w = f tt (g w).
Proof. reflexivity. Qed.

Lemma bind_lift_ok {A B} (a : A) (f : A → M B) w : (lift (Ok a) ≫= f) w = f a w.
Proof. reflexivity. Qed.

Lemma bind_lift_raise {A B} e (f : A → M B) w :
  (lift (Raise e) ≫= f) w = (Raise e, w).
Proof. reflexivity. Qed.

Lemma bind_raise {A B} e (f : A → M B) w : (raise e ≫= f) w = (Raise e, w).
Proof. reflexivity. Qed.

Lemma bind_assoc {A B C} (m : M A) (f : A → M B) (g : B → M C) w :
  ((m ≫= f) ≫= g) w = (m ≫= fun a => f a ≫= g) w.
Proof. rewrite !bind_eq. destruct (m w) as [[a|e] w']; [|done]. by rewrite bind_eq. Qed.

Lemma bind_loaded {B} (f : record → M B) w d :
  _data w = Some d → (loaded ≫= f) w = f d w.
Proof. intros Hd. unfold loaded. rewrite bind_assoc, bind_gets, Hd. reflexivity. Qed.

Lemma mret_eq {A} (a : A) w : (mret a : M A) w = (Ok a, w).
Proof. reflexivity. Qed.

Lemma lift_eq {A} (r : res A) w : lift r w = (r, w).
Proof. reflexivity. Qed.

Lemma modify_eq g w : modify g w = (Ok tt, g w).
Proof. reflexivity. Qed.

Lemma raise_eq {A} e w : @raise A e w = (Raise e, w).
Proof. reflexivity. Qed.

Create Rewrite HintDb stats.
#[global] Hint Rewrite @bind_mret @bind_gets @bind_modify @bind_lift_ok
  @bind_lift_raise @bind_raise @mret_eq @lift_eq @modify_eq @raise_eq : stats.

Ltac mstep := autorewrite with stats.

Lemma Ok_inj {A} (a b : A) : Ok a = Ok b → a = b.
Proof. intros Heq. by injection Heq. Qed.

Lemma pair_inj {A B} (a a' : A) (b b' : B) : (a, b) = (a', b') → a = a' ∧ b = b'.
Proof. intros Heq. by injection Heq. Qed.

Lemma with_data_with_data a b w : with_data a (with_data b w) = with_data a w.
Proof. reflexivity. Qed.

Lemma with_data_id w : with_data (_data w) w = w.
Proof. by destruct w. Qed.

Lemma data_with_data a w : _data (with_data a w) = a.
Proof. reflexivity. Qed.

Lemma lookup_apply_items k items d :
  apply_items items d !! k =
    match last_stored k items with
    | Some v => Some v
    | None => d !! k
    end.
Proof.
  revert d. induction items as [|[k' v] items IH]; intros d; [done|].
  cbn [apply_items last_stored].
  rewrite IH. destruct (last_stored k items); [done|].
  destruct (String.eqb_spec k' k) as [->|Hne].
  - by rewrite lookup_insert_eq.
  - by rewrite lookup_insert_ne.
Qed.

Lemma apply_items_app xs ys d :
  apply_items (xs ++ ys) d = apply_items ys (apply_items xs d).
Proof.
  revert d. induction xs as [|[k v] xs IH]; intros d; [done|]. cbn. apply IH.
Qed.

Lemma store_loaded self key v w d :
  _data w = Some d →
  store self key v w = (Ok tt, with_data (Some (<[key := stored key v]> d)) w).
Proof.
  intros Hd. destruct w. cbn in Hd. by subst.
Qed.

Lemma store_all_loaded self items w d :
  _data w = Some d →
  store_all self items w = (Ok tt, with_data (Some (apply_items items d)) w).
Proof.
  revert w d. induction items as [|[k v] items IH]; intros w d Hd.
  - cbn. rewrite <- Hd. by rewrite with_data_id.
  - cbn [store_all]. rewrite bind_eq, (store_loaded _ _ _ _ d Hd).
    erewrite IH by reflexivity. by rewrite with_data_with_data.
Qed.

(** ** Reading a key that is present *)

Section Reads.
Context `{States}.

Lemma attribute_plain (f : string → M value) name :
  plain name = true → attribute f name = f name.
Proof.
  unfold plain, attribute. intros Hp.
  destruct (find _ waiting_review_suffixes) eqn:Hf; [|done].
  apply find_some in Hf as [Hin Heq].
  apply andb_prop in Hp as [_ Hp]. apply negb_true_iff in Hp.
  assert (existsb (λ suffix, (name =? "waiting_review" ++ suffix)%string)
            waiting_review_suffixes = true) as Hex; [|congruence].
  apply existsb_exists. eauto.
Qed.

Lemma __getattr___hit fuel self clk name w d v :
  plain name = true → _data w = Some d → d !! name = Some v →
  __getattr__ (S fuel) self clk name w = (Ok v, w).
Proof.
  unfold plain. intros Hp Hd Hv.
  repeat (apply andb_prop in Hp as [Hp ?]).
  repeat match goal with H : negb _ = true |- _ => apply negb_true_iff in H end.
  cbn [__getattr__]. rewrite Hp. mstep. rewrite Hd. mstep.
  rewrite H1, H2. rewrite (bind_loaded _ _ d Hd).
  unfold has, index. rewrite Hv. cbn [negb]. by mstep.
Qed.

Lemma getattr_hit fuel self clk name w d v :
  plain name = true → _data w = Some d → d !! name = Some v →
  getattr (S fuel) self clk name w = (Ok v, w).
Proof.
  intros Hp Hd Hv. unfold getattr. rewrite attribute_plain by done.
  by eapply __getattr___hit.
Qed.

(** ** The leaf computation, store by store *)

Lemma fetch_last_change_eq self t clk w d :
  _data w = Some d →
  fetch_last_change self t w =
    (Ok tt, with_data (Some (apply_items (take 2 (change_items t clk)) d)) w).
Proof.
  intros Hd. unfold fetch_last_change, change_items.
  destruct (get_last_change_obj t); rewrite bind_eq;
    erewrite store_loaded by done; erewrite store_loaded by done;
    by rewrite with_data_with_data.
Qed.

Lemma count_changes_eq fuel self t clk w d :
  _data w = Some (apply_items (take 2 (change_items t clk)) d) →
  count_changes (getattr (S fuel) self clk) self t clk w =
    (Ok tt, with_data (Some (apply_items (change_items t clk) d)) w).
Proof.
  unfold count_changes, change_items.
  destruct (get_last_change_obj t) as [c|]; cbn [take apply_items]; intros Hd;
    rewrite bind_eq; (erewrite getattr_hit; [|done|exact Hd|]);
    try (rewrite lookup_insert_ne by done; by rewrite lookup_insert_eq).
  - cbn [truthy stored is_None andb minus_timedelta]. mstep.
    rewrite bind_eq. erewrite store_loaded by done.
    rewrite bind_eq. erewrite store_loaded by done.
    erewrite store_loaded by done. by rewrite !with_data_with_data.
  - cbn [truthy stored is_None andb startswith prefix]. cbn.
    rewrite bind_eq. erewrite store_loaded by done.
    rewrite bind_eq. erewrite store_loaded by done.
    erewrite store_loaded by done. by rewrite !with_data_with_data.
Qed.

Lemma translation_calculate_basic_eq fuel self t clk w d :
  _data w = Some d →
  translation_calculate_basic (getattr (S fuel) self clk) self t clk w =
    (Ok tt, with_data (Some (apply_items (leaf_items t clk) d)) w).
Proof.
  intros Hd. unfold translation_calculate_basic, leaf_items.
  rewrite bind_eq. erewrite store_all_loaded by done.
  rewrite bind_eq. erewrite store_loaded by done.
  rewrite bind_eq. erewrite (fetch_last_change_eq _ _ clk) by done.
  erewrite count_changes_eq by done.
  rewrite !with_data_with_data. by rewrite apply_items_app.
Qed.

End Reads.

(** ** Counters *)

Lemma total_indicator {A} (cond : A → bool) (rows : list A) :
  total (fun r => if cond r then 1 else 0) rows = count_if cond rows.
Proof.
  unfold count_if. induction rows as [|r rows IH]; [done|].
  cbn [total foldr List.filter]. fold (total (fun r => if cond r then 1 else 0) rows).
  rewrite IH. destruct (cond r); cbn [List.length]; lia.
Qed.

Lemma stored_conditional_sum_one {A} key (cond : A → bool) rows :
  startswith "last_" key = false →
  stored key (conditional_sum (fun _ => 1) cond rows) = VInt (count_if cond rows).
Proof.
  intros Hk. unfold stored, conditional_sum, Sum. destruct rows as [|r rows].
  - cbn. by rewrite Hk.
  - cbn [is_None andb]. by rewrite total_indicator.
Qed.

Lemma countable_conditional_sum {A} (m : A → Z) cond rows :
  countable (conditional_sum m cond rows).
Proof. unfold conditional_sum, Sum. destruct rows; [by left|right; eauto]. Qed.

Lemma countable_Sum {A} (m : A → Z) rows : countable (Sum m rows).
Proof. unfold Sum. destruct rows; [by left|right; eauto]. Qed.

Lemma countable_Count {A} (rows : list A) : countable (Count rows).
Proof. right. unfold Count. eauto. Qed.

Lemma stored_countable key v :
  startswith "last_" key = false → countable v → ∃ n, stored key v = VInt n.
Proof.
  intros Hk [->|[n ->]]; unfold stored; cbn; [rewrite Hk|]; eauto.
Qed.

Lemma last_stored_app k xs ys :
  last_stored k (xs ++ ys) =
    match last_stored k ys with
    | Some v => Some v
    | None => last_stored k xs
    end.
Proof.
  induction xs as [|[k' v] xs IH]; cbn [app last_stored].
  - by destruct (last_stored k ys).
  - rewrite IH. by destruct (last_stored k ys).
Qed.

Section Leaf.
Context `{States}.

Lemma change_items_shape t clk :
  ∃ a b r m n,
    change_items t clk =
      [ ("last_changed", a); ("last_author", b); ("recent_changes", r);
        ("monthly_changes", m); ("total_changes", n) ]
    ∧ countable r ∧ countable m ∧ countable n
    ∧ (get_last_change_obj t = None →
       a = VNone ∧ b = VNone ∧ r = VInt 0 ∧ m = VInt 0 ∧ n = VInt 0).
Proof.
  unfold change_items. destruct (get_last_change_obj t) as [c|].
  - do 5 eexists. split; [reflexivity|].
    repeat split; auto using countable_conditional_sum, countable_Count; done.
  - do 5 eexists. split; [reflexivity|].
    repeat split; try (right; by eexists); done.
Qed.

Lemma calculate_basic_translation_kind fuel key t clk w d :
  translation_calculate_basic
    (getattr (S fuel) {| kind := TranslationStats t; cache_key := key |} clk)
    {| kind := TranslationStats t; cache_key := key |} t clk
    (with_data (Some d) w)
  = (Ok tt, with_data (Some (apply_items (leaf_items t clk) d)) w).
Proof.
  erewrite translation_calculate_basic_eq by reflexivity.
  by rewrite with_data_with_data.
Qed.

Lemma calculate_basic_translation fuel key t clk w d :
  _calculate_basic (getattr (S fuel) (translation_stats t key) clk)
    (translation_stats t key) clk (with_data (Some d) w) =
    (Ok tt, with_data (Some (apply_items (leaf_items t clk) d)) w).
Proof.
  unfold _calculate_basic. cbn [kind translation_stats].
  erewrite translation_calculate_basic_eq by reflexivity.
  by rewrite with_data_with_data.
Qed.

End Leaf.

Section LeafClaims.
Context `{States}.

(** C10 (amended).  [store] writes 0 in place of [None] unless the key starts
    with [last_], and writes every other value as it is, leaving the other
    keys alone.  After the leaf computation over a translation without
    units every basic key that does not start with [last_] holds an
    integer: the partition measures hold 0, [languages] holds 1, and the
    change counters hold 0 when there is no last change, in which case
    [last_changed] and [last_author] hold [None]. *)
Theorem store_and_empty_leaf self skey v fuel key t clk w d :
  unit_set t = [] →
  (∃ d', store self skey v (with_data (Some d) w)
           = (Ok tt, with_data (Some d') w)
         ∧ d' !! skey = Some (if is_None v && negb (startswith "last_" skey)
                              then VInt 0 else v)
         ∧ ∀ k, k ≠ skey → d' !! k = d !! k)
  ∧ (∃ d', _calculate_basic (getattr (S fuel) (translation_stats t key) clk)
             (translation_stats t key) clk (with_data (Some d) w)
             = (Ok tt, with_data (Some d') w)
           ∧ (∀ k, k ∈ BASIC_KEYS → startswith "last_" k = false →
                   ∃ n, d' !! k = Some (VInt n))
           ∧ (∀ k, k ∈ MEASURE_KEYS → d' !! k = Some (VInt 0))
           ∧ d' !! "languages" = Some (VInt 1)
           ∧ (get_last_change_obj t = None →
              (∀ k, k ∈ CHANGE_KEYS → d' !! k = Some (VInt 0))
              ∧ d' !! "last_changed" = Some VNone
              ∧ d' !! "last_author" = Some VNone)).
Proof.
  intros Hunits. split.
  - eexists. split; [|split].
    + erewrite store_loaded by reflexivity. by rewrite with_data_with_data.
    + by rewrite lookup_insert_eq.
    + intros k Hk. by rewrite lookup_insert_ne.
  - eexists. split; [apply calculate_basic_translation|].
    unfold leaf_items. rewrite Hunits.
    destruct (change_items_shape t clk)
      as (a & b & r & m & n & -> & Hr & Hm & Hn & Hnone).
    assert (∀ k, k ∈ MEASURE_KEYS →
      apply_items (unit_aggregate [] ++ ("languages", VInt 1)
        :: [ ("last_changed", a); ("last_author", b); ("recent_changes", r);
             ("monthly_changes", m); ("total_changes", n) ]) d !! k
      = Some (VInt 0)) as Hmeasure.
    { intros k Hk. rewrite lookup_apply_items.
      unfold MEASURE_KEYS, BASICS in Hk. cbn [map app] in Hk.
      repeat (apply elem_of_cons in Hk as [->|Hk]; [vm_compute; reflexivity|]).
      by apply elem_of_nil in Hk. }
    split; [|split; [exact Hmeasure|split]].
    + intros k Hk Hlast.
      change BASIC_KEYS with
        (MEASURE_KEYS ++ [ "languages"; "last_changed"; "last_author" ]
           ++ CHANGE_KEYS) in Hk.
      apply elem_of_app in Hk as [Hk|Hk]; [eauto|].
      rewrite lookup_apply_items. cbn [app] in Hk. unfold CHANGE_KEYS in Hk.
      destruct Hr as [->|[? ->]], Hm as [->|[? ->]], Hn as [->|[? ->]];
      repeat (apply elem_of_cons in Hk as [->|Hk];
              [first [discriminate Hlast | vm_compute; eauto]|]);
      by apply elem_of_nil in Hk.
    + rewrite lookup_apply_items. reflexivity.
    + intros Hno. destruct (Hnone Hno) as (-> & -> & -> & -> & ->).
      split; [|split]; try (rewrite lookup_apply_items; reflexivity).
      intros k Hk. rewrite lookup_apply_items. unfold CHANGE_KEYS in Hk.
      repeat (apply elem_of_cons in Hk as [->|Hk]; [vm_compute; reflexivity|]).
      by apply elem_of_nil in Hk.
Qed.

Lemma measure_key k : contains MEASURE_KEYS k = true → k ∈ MEASURE_KEYS.
Proof.
  unfold contains. intros Hk. apply existsb_exists in Hk as (x & Hin & Heq).
  apply String.eqb_eq in Heq as ->. by apply list_elem_of_In.
Qed.

Lemma exact_states_disjoint (units : list Unit) :
  states_ok →
  count_if (fun u => state u =? STATE_READONLY) units
  + count_if (fun u => state u =? STATE_EMPTY) units
  + count_if (fun u => state u =? STATE_FUZZY) units
  + count_if (fun u => state u =? STATE_TRANSLATED) units
  + count_if (fun u => state u =? STATE_APPROVED) units
  ≤ Z.of_nat (List.length units).
Proof.
  intros (? & ? & ? & ? & ? & ? & ?). unfold count_if.
  induction units as [|u units IH]; [done|]. cbn [List.filter List.length].
  destruct (Z.eqb_spec (state u) STATE_READONLY),
    (Z.eqb_spec (state u) STATE_EMPTY), (Z.eqb_spec (state u) STATE_FUZZY),
    (Z.eqb_spec (state u) STATE_TRANSLATED),
    (Z.eqb_spec (state u) STATE_APPROVED); cbn [List.length]; lia.
Qed.

Lemma last_stored_unit_measure t clk k :
  k ∈ MEASURE_KEYS →
  last_stored k (leaf_items t clk) = last_stored k (unit_aggregate (unit_set t)).
Proof.
  intros Hk. unfold leaf_items. rewrite last_stored_app.
  destruct (change_items_shape t clk) as (a & b & r & m & n & -> & _).
  unfold MEASURE_KEYS, BASICS in Hk. cbn [map app] in Hk.
  repeat (apply elem_of_cons in Hk as [->|Hk]; [vm_compute; reflexivity|]).
  by apply elem_of_nil in Hk.
Qed.

Lemma leaf_state_counts t clk d :
  let d' := apply_items (leaf_items t clk) d in
  d' !! "todo"
    = Some (VInt (count_if (fun u => state u <? STATE_TRANSLATED) (unit_set t)))
  ∧ d' !! "nottranslated"
    = Some (VInt (count_if (fun u => state u =? STATE_EMPTY) (unit_set t)))
  ∧ d' !! "unapproved"
    = Some (VInt (count_if (fun u => state u =? STATE_TRANSLATED) (unit_set t)))
  ∧ d' !! "readonly"
    = Some (VInt (count_if (fun u => state u =? STATE_READONLY) (unit_set t)))
  ∧ d' !! "all" = Some (VInt (Z.of_nat (List.length (unit_set t))))
  ∧ d' !! "fuzzy"
    = Some (VInt (count_if (fun u => state u =? STATE_FUZZY) (unit_set t)))
  ∧ d' !! "approved"
    = Some (VInt (count_if (fun u => state u =? STATE_APPROVED) (unit_set t))).
Proof.
  cbn zeta.
  rewrite !lookup_apply_items, !last_stored_unit_measure
    by (apply measure_key; reflexivity).
  lazy [last_stored unit_aggregate String.eqb Ascii.eqb Bool.eqb].
  unfold one. by rewrite !stored_conditional_sum_one.
Qed.

(** The record of a translation with one unit counts that unit once under
    the read-only key only if it counts it under none of the keys of the
    other states. *)
Lemma one_unit_exclusive t u clk d :
  states_ok →
  let d1 := apply_items (leaf_items (only_unit t u) clk) d in
  d1 !! "readonly" = Some (VInt 1) →
  d1 !! "nottranslated" = Some (VInt 0) ∧ d1 !! "fuzzy" = Some (VInt 0)
  ∧ d1 !! "unapproved" = Some (VInt 0) ∧ d1 !! "approved" = Some (VInt 0).
Proof.
  intros (? & ? & ? & ? & ? & ? & ?). cbn zeta.
  destruct (leaf_state_counts (only_unit t u) clk d)
    as (_ & -> & -> & -> & _ & -> & ->).
  unfold count_if. cbn [only_unit unit_set List.filter].
  destruct (Z.eqb_spec (state u) STATE_READONLY) as [Hro|];
    [|cbn [List.length]; discriminate].
  intros _.
  destruct (Z.eqb_spec (state u) STATE_EMPTY),
    (Z.eqb_spec (state u) STATE_FUZZY),
    (Z.eqb_spec (state u) STATE_TRANSLATED),
    (Z.eqb_spec (state u) STATE_APPROVED); try congruence.
  by cbn [List.length].
Qed.

(** C7 (amended).  The leaf computation counts in [todo] the units with
    state < translated, in [nottranslated] the units with state = empty, in
    [unapproved] the units with state = translated, and in [readonly] the
    units whose state is the read-only state: read-only is a value of the
    one state field.  [fuzzy] and [approved] count the units whose state is
    the fuzzy and the approved state.  Hence a unit counted as read-only is
    not counted as not translated, fuzzy, unapproved or approved: the
    record computed for that unit alone holds 0 under these four keys when
    it holds 1 under [readonly].  And the five counts of the record
    together are at most its count of all units. *)
Theorem leaf_partitions fuel key t clk w d :
  states_ok →
  ∃ d', _calculate_basic (getattr (S fuel) (translation_stats t key) clk)
          (translation_stats t key) clk (with_data (Some d) w)
          = (Ok tt, with_data (Some d') w)
    ∧ d' !! "todo"
      = Some (VInt (count_if (fun u => state u <? STATE_TRANSLATED) (unit_set t)))
    ∧ d' !! "nottranslated"
      = Some (VInt (count_if (fun u => state u =? STATE_EMPTY) (unit_set t)))
    ∧ d' !! "unapproved"
      = Some (VInt (count_if (fun u => state u =? STATE_TRANSLATED) (unit_set t)))
    ∧ d' !! "readonly"
      = Some (VInt (count_if (fun u => state u =? STATE_READONLY) (unit_set t)))
    ∧ d' !! "all" = Some (VInt (Z.of_nat (List.length (unit_set t))))
    ∧ d' !! "fuzzy"
      = Some (VInt (count_if (fun u => state u =? STATE_FUZZY) (unit_set t)))
    ∧ d' !! "approved"
      = Some (VInt (count_if (fun u => state u =? STATE_APPROVED) (unit_set t)))
    ∧ (∀ u, u ∈ unit_set t →
         ∃ d1, _calculate_basic
                 (getattr (S fuel) (translation_stats (only_unit t u) key) clk)
                 (translation_stats (only_unit t u) key) clk
                 (with_data (Some d) w)
               = (Ok tt, with_data (Some d1) w)
           ∧ (d1 !! "readonly" = Some (VInt 1) →
              d1 !! "nottranslated" = Some (VInt 0)
              ∧ d1 !! "fuzzy" = Some (VInt 0)
              ∧ d1 !! "unapproved" = Some (VInt 0)
              ∧ d1 !! "approved" = Some (VInt 0)))
    ∧ int_of (d' !! "readonly") + int_of (d' !! "nottranslated")
      + int_of (d' !! "fuzzy") + int_of (d' !! "unapproved")
      + int_of (d' !! "approved")
      ≤ int_of (d' !! "all").
Proof.
  intros Hok. eexists. split; [apply calculate_basic_translation|].
  destruct (leaf_state_counts t clk d)
    as (Htodo & Hnt & Hun & Hro & Hall & Hfz & Hap).
  do 7 (split; [done|]). split.
  - intros u _. eexists. split; [apply calculate_basic_translation|].
    by apply one_unit_exclusive.
  - rewrite Hnt, Hun, Hro, Hall, Hfz, Hap. cbn [int_of].
    pose proof (exact_states_disjoint (unit_set t) Hok). lia.
Qed.

End LeafClaims.

(** ** One child aggregated into a record *)

Lemma numeric_true k :
  numeric k = true →
  String.eqb k "stats_timestamp" = false
  ∧ String.eqb k "last_changed" = false
  ∧ String.eqb k "last_author" = false.
Proof.
  unfold numeric. intros Hk.
  repeat (apply andb_prop in Hk as [Hk ?]).
  repeat match goal with H : negb _ = true |- _ => apply negb_true_iff in H end.
  done.
Qed.

Lemma numeric_ne k :
  numeric k = true →
  k ≠ "stats_timestamp" ∧ k ≠ "last_changed" ∧ k ≠ "last_author".
Proof.
  intros (H1 & H2 & H3)%numeric_true.
  by apply String.eqb_neq in H1, H2, H3.
Qed.

Lemma aggregate_numeric stats item c n m :
  numeric item = true → stats !! item = Some (VInt n) →
  attr c item = Ok (VInt m) →
  aggregate stats item c = Ok (<[item := VInt (n + m)]> stats).
Proof.
  intros (H1 & H2 & H3)%numeric_true Hs Hc. unfold aggregate.
  rewrite H1, H2, H3. cbn [negb]. unfold index. rewrite Hs, Hc. reflexivity.
Qed.

Lemma aggregate_last_changed stats c :
  (stats !! "last_changed" = Some VNone
   ∨ ∃ t, stats !! "last_changed" = Some (VTime t)) →
  (attr c "last_changed" = Ok VNone
   ∨ ∃ t, attr c "last_changed" = Ok (VTime t)) →
  (∃ a, attr c "last_author" = Ok a) →
  ∃ stats', aggregate stats "last_changed" c = Ok stats'
    ∧ last_pair stats' = merge_pair c (last_pair stats)
    ∧ (∀ k, k ≠ "last_changed" → k ≠ "last_author" → stats' !! k = stats !! k).
Proof.
  intros Hs Hc [a Ha]. unfold aggregate, merge_pair, last_pair, index.
  cbn [String.eqb Ascii.eqb Bool.eqb fst].
  destruct Hc as [Hc|[t' Hc]]; rewrite Hc.
  - destruct Hs as [Hs|[t Hs]]; rewrite Hs; cbn;
      (eexists; split; [reflexivity|]; by rewrite Hs).
  - rewrite Ha. destruct Hs as [Hs|[t Hs]]; rewrite Hs; cbn.
    + eexists. split; [reflexivity|]. split.
      * rewrite lookup_insert_ne by done. by rewrite !lookup_insert_eq.
      * intros k ? ?. by rewrite !lookup_insert_ne.
    + destruct (t <? t'); cbn.
      * eexists. split; [reflexivity|]. split.
        -- rewrite lookup_insert_ne by done. by rewrite !lookup_insert_eq.
        -- intros k ? ?. by rewrite !lookup_insert_ne.
      * eexists. split; [reflexivity|]. by rewrite Hs.
Qed.

Lemma merge_pair_shape c p :
  (fst p = Some VNone ∨ ∃ t, fst p = Some (VTime t)) →
  fst (merge_pair c p) = Some VNone ∨ ∃ t, fst (merge_pair c p) = Some (VTime t).
Proof.
  intros Hp. unfold merge_pair.
  destruct (attr c "last_changed") as [[| | |t']|]; try exact Hp.
  destruct (attr c "last_author"); [|exact Hp].
  destruct Hp as [Hp|[t Hp]]; rewrite Hp; cbn; [eauto|].
  destruct (t <? t'); cbn; eauto.
Qed.

Lemma contains_cons keys item k :
  contains (item :: keys) k = String.eqb k item || contains keys k.
Proof. reflexivity. Qed.

Lemma contains_elem keys k : contains keys k = true ↔ k ∈ keys.
Proof.
  unfold contains. rewrite existsb_exists, list_elem_of_In. split.
  - by intros (x & Hin & ->%String.eqb_eq).
  - intros Hin. exists k. by rewrite String.eqb_refl.
Qed.

Lemma contains_not_elem keys k : contains keys k = false ↔ k ∉ keys.
Proof.
  rewrite <- contains_elem. by destruct (contains keys k).
Qed.

Lemma aggregate_keys_spec K c keys :
  NoDup keys → "stats_timestamp" ∉ keys → (∀ k, k ∈ keys → k ∈ K) →
  readable keys c →
  ∀ stats, summable K stats →
  ∃ stats', aggregate_keys keys c stats = Ok stats'
    ∧ summable K stats' ∧ updated_by keys c stats stats'.
Proof.
  induction keys as [|item keys IH]; intros Hnd Hts Hsub Hc stats Hs.
  { exists stats. split; [done|]. split; [done|]. by repeat split. }
  apply list.NoDup_cons in Hnd as [Hitem Hnd].
  apply not_elem_of_cons in Hts as [Hts1 Hts].
  assert (readable keys c) as Hc'.
  { destruct Hc as (Hn & Hl & Ha). split; [|done].
    intros k Hk. apply Hn. by right. }
  assert (∀ k, k ∈ keys → k ∈ K) as Hsub' by (intros k Hk; apply Hsub; by right).
  cbn [aggregate_keys].
  destruct (numeric item) eqn:Hnum.
  - (* a counter *)
    destruct Hs as [Hsn Hsl].
    destruct (Hsn item) as [n Hn]; [apply Hsub; by left|done|].
    destruct Hc as (Hcn & Hcl & Hca).
    destruct (Hcn item) as [m Hm]; [by left|done|].
    rewrite (aggregate_numeric _ _ _ n m) by done. cbn.
    destruct (numeric_ne _ Hnum) as (? & ? & ?).
    destruct (IH Hnd Hts Hsub' Hc' (<[item := VInt (n + m)]> stats))
      as (stats' & Hrun & Hs' & Hnum' & Hts' & Hlast').
    { split.
      - intros k Hk Hknum. destruct (decide (k = item)) as [->|Hne].
        + rewrite lookup_insert_eq. eauto.
        + rewrite lookup_insert_ne by done. by apply Hsn.
      - by rewrite lookup_insert_ne. }
    exists stats'. split; [done|]. split; [done|]. split; [|split].
    + intros k Hk. rewrite Hnum' by done. rewrite contains_cons.
      destruct (String.eqb_spec k item) as [->|Hne]; cbn [orb].
      * apply contains_not_elem in Hitem. rewrite Hitem.
        rewrite lookup_insert_eq. unfold int_of, int_attr. by rewrite Hn, Hm.
      * by rewrite lookup_insert_ne.
    + rewrite Hts'. by rewrite lookup_insert_ne.
    + rewrite Hlast'. rewrite contains_cons.
      destruct (String.eqb_spec "last_changed" item) as [<-|_]; [done|].
      cbn [orb]. unfold last_pair. by rewrite !lookup_insert_ne.
  - (* the last change, or the author, which is skipped *)
    unfold numeric in Hnum. apply andb_false_iff in Hnum as [Hnum|Hnum].
    apply andb_false_iff in Hnum as [Hnum|Hnum].
    + apply negb_false_iff, String.eqb_eq in Hnum. by subst.
    + apply negb_false_iff, String.eqb_eq in Hnum. subst item.
      destruct Hs as [Hsn Hsl]. destruct Hc as (Hcn & Hcl & Hca).
      destruct (aggregate_last_changed stats c Hsl Hcl Hca)
        as (s1 & Hrun1 & Hpair1 & Hframe1).
      rewrite Hrun1. cbn.
      destruct (IH Hnd Hts Hsub' Hc' s1)
        as (stats' & Hrun & Hs' & Hnum' & Hts' & Hlast').
      { split.
        - intros k Hk Hknum. destruct (numeric_ne _ Hknum) as (? & ? & ?).
          rewrite Hframe1 by done. by apply Hsn.
        - pose proof (merge_pair_shape c (last_pair stats) Hsl) as Hshape.
          rewrite <- Hpair1 in Hshape. exact Hshape. }
      exists stats'. split; [done|]. split; [done|]. split; [|split].
      * intros k Hk. destruct (numeric_true _ Hk) as (? & Hk2 & ?).
        destruct (numeric_ne _ Hk) as (? & ? & ?).
        rewrite Hnum' by done. rewrite contains_cons, Hk2. cbn [orb].
        by rewrite Hframe1.
      * rewrite Hts'. by apply Hframe1.
      * rewrite Hlast'. apply contains_not_elem in Hitem. rewrite Hitem.
        by rewrite Hpair1.
    + apply negb_false_iff, String.eqb_eq in Hnum. subst item.
      assert (aggregate stats "last_author" c = Ok stats) as -> by reflexivity.
      cbn.
      destruct (IH Hnd Hts Hsub' Hc' stats Hs)
        as (stats' & Hrun & Hs' & Hnum' & Hts' & Hlast').
      exists stats'. split; [done|]. split; [done|]. split; [|split].
      * intros k Hk. destruct (numeric_true _ Hk) as (? & ? & Hk3).
        rewrite Hnum' by done. by rewrite contains_cons, Hk3.
      * done.
      * rewrite Hlast'. by rewrite contains_cons.
Qed.

(** ** The key sets *)

Lemma elem_of_contains keys k : k ∈ keys → contains keys k = true.
Proof. apply contains_elem. Qed.

Lemma NoDup_by_compute (keys : list string) :
  bool_decide (NoDup keys) = true → NoDup keys.
Proof. apply bool_decide_eq_true_1. Qed.

Lemma SOURCE_KEYS_NoDup : NoDup SOURCE_KEYS.
Proof. apply NoDup_by_compute. by vm_compute. Qed.

Lemma BASIC_KEYS_NoDup : NoDup BASIC_KEYS.
Proof.
  pose proof SOURCE_KEYS_NoDup as Hnd. unfold SOURCE_KEYS in Hnd.
  by apply list.NoDup_app in Hnd as [? _].
Qed.

Lemma SOURCE_ONLY_NoDup : NoDup SOURCE_ONLY.
Proof. apply NoDup_by_compute. by vm_compute. Qed.

Lemma timestamp_not_key : "stats_timestamp" ∉ SOURCE_KEYS.
Proof. apply contains_not_elem. by vm_compute. Qed.

Lemma timestamp_not_basic : "stats_timestamp" ∉ BASIC_KEYS.
Proof. apply contains_not_elem. by vm_compute. Qed.

Lemma BASIC_in_SOURCE k : k ∈ BASIC_KEYS → k ∈ SOURCE_KEYS.
Proof. intros Hk. unfold SOURCE_KEYS. apply elem_of_app. by left. Qed.

Lemma SOURCE_ONLY_in_SOURCE k : k ∈ SOURCE_ONLY → k ∈ SOURCE_KEYS.
Proof.
  intros Hk. unfold SOURCE_KEYS. apply elem_of_app. right.
  unfold SOURCE_ONLY in Hk.
  repeat (apply elem_of_cons in Hk as [->|Hk]; [by repeat constructor|]).
  by apply elem_of_nil in Hk.
Qed.

Lemma SOURCE_KEYS_split k :
  k ∈ SOURCE_KEYS →
  (k ∈ BASIC_KEYS ∧ contains SOURCE_ONLY k = false)
  ∨ (k ∈ SOURCE_ONLY ∧ contains BASIC_KEYS k = false).
Proof.
  intros Hk. pose proof SOURCE_KEYS_NoDup as Hnd. unfold SOURCE_KEYS in *.
  apply list.NoDup_app in Hnd as (_ & Hdis & _).
  apply elem_of_app in Hk as [Hk|Hk].
  - left. split; [done|]. apply contains_not_elem.
    intros Hin. eapply Hdis; [done|]. unfold SOURCE_ONLY in Hin.
    repeat (apply elem_of_cons in Hin as [->|Hin]; [by repeat constructor|]).
    by apply elem_of_nil in Hin.
  - right. split.
    + unfold SOURCE_ONLY.
      repeat (apply elem_of_cons in Hk as [->|Hk]; [by repeat constructor|]).
      by apply elem_of_nil in Hk.
    + apply contains_not_elem. intros Hin. by eapply Hdis.
Qed.

Lemma lookup_zero_list keys k :
  (list_to_map (map (fun item => (item, VInt 0)) keys) : record) !! k
  = if contains keys k then Some (VInt 0) else None.
Proof.
  induction keys as [|item keys IH]; [done|].
  cbn [map list_to_map foldr]. rewrite contains_cons.
  destruct (String.eqb_spec k item) as [->|Hne]; cbn [orb].
  - apply lookup_insert_eq.
  - rewrite lookup_insert_ne by done. apply IH.
Qed.

Lemma lookup_zero_stats keys k :
  numeric k = true →
  zero_stats keys !! k = if contains keys k then Some (VInt 0) else None.
Proof.
  intros (? & ? & ?)%numeric_ne. unfold zero_stats.
  rewrite !lookup_insert_ne by done. apply lookup_zero_list.
Qed.

Lemma zero_stats_summable keys : summable keys (zero_stats keys).
Proof.
  split.
  - intros k Hk Hnum. rewrite lookup_zero_stats by done.
    rewrite elem_of_contains by done. eauto.
  - left. unfold zero_stats. rewrite lookup_insert_ne by done.
    rewrite lookup_insert_ne by done. apply lookup_insert_eq.
Qed.

Lemma zero_stats_last_pair keys :
  last_pair (zero_stats keys) = (Some VNone, Some VNone).
Proof.
  unfold last_pair, zero_stats. f_equal.
  - rewrite lookup_insert_ne by done. rewrite lookup_insert_ne by done.
    apply lookup_insert_eq.
  - rewrite lookup_insert_ne by done. apply lookup_insert_eq.
Qed.

Lemma zero_stats_timestamp keys :
  zero_stats keys !! "stats_timestamp" = Some (VInt 0).
Proof. apply lookup_insert_eq. Qed.

(** ** The loops over the children *)

Lemma readable_sub keys keys' c :
  (∀ k, k ∈ keys' → k ∈ keys) → readable keys c → readable keys' c.
Proof. intros Hsub (Hn & ? & ?). split; [|done]. intros k Hk. by apply Hn, Hsub. Qed.

Lemma add_attr_int stats key c name n m :
  stats !! key = Some (VInt n) → attr c name = Ok (VInt m) →
  add_attr stats key c name = Ok (<[key := VInt (n + m)]> stats).
Proof. intros Hs Hc. unfold add_attr, index. by rewrite Hs, Hc. Qed.

Lemma contains_source_only k :
  contains [ "source_chars"; "source_words"; "source_strings" ] k
  = contains SOURCE_ONLY k.
Proof.
  unfold contains, SOURCE_ONLY. cbn [existsb].
  destruct (String.eqb k "source_chars"), (String.eqb k "source_words"),
    (String.eqb k "source_strings"); reflexivity.
Qed.

Lemma summable_source stats k :
  summable SOURCE_KEYS stats → k ∈ SOURCE_ONLY →
  ∃ n, stats !! k = Some (VInt n).
Proof.
  intros [Hs _] Hk. apply Hs; [by apply SOURCE_ONLY_in_SOURCE|].
  unfold SOURCE_ONLY in Hk.
  repeat (apply elem_of_cons in Hk as [->|Hk]; [reflexivity|]).
  by apply elem_of_nil in Hk.
Qed.

Lemma summable_insert K stats k n :
  summable K stats → numeric k = true → summable K (<[k := VInt n]> stats).
Proof.
  intros [Hs Hl] (? & ? & ?)%numeric_ne. split.
  - intros k' Hk' Hnum. destruct (decide (k' = k)) as [->|Hne].
    + rewrite lookup_insert_eq. eauto.
    + rewrite lookup_insert_ne by done. by apply Hs.
  - by rewrite lookup_insert_ne.
Qed.

Lemma calculate_source_spec self c stats :
  composite self = true → readable (object_keys self) c →
  summable SOURCE_KEYS stats →
  ∃ stats', calculate_source self c stats = Ok stats'
    ∧ summable SOURCE_KEYS stats' ∧ source_updated self c stats stats'.
Proof.
  intros Hcomp Hc Hs.
  destruct (summable_source stats "source_chars" Hs) as [n1 Hn1];
    [by repeat constructor|].
  destruct (summable_source stats "source_words" Hs) as [n2 Hn2];
    [by repeat constructor|].
  destruct (summable_source stats "source_strings" Hs) as [n3 Hn3];
    [by repeat constructor|].
  destruct (parent_aggregating self) eqn:Hparent.
  - (* ParentAggregatingStats: three calls of aggregate *)
    assert (calculate_source self c stats
            = aggregate_keys [ "source_chars"; "source_words"; "source_strings" ]
                c stats) as ->.
    { unfold calculate_source. destruct self as [[] ?]; try discriminate;
        cbn [kind aggregate_keys];
        (destruct (aggregate stats "source_chars" c) as [s1|];
           cbn [mbind res_bind]; [|reflexivity];
         destruct (aggregate s1 "source_words" c) as [s2|];
           cbn [mbind res_bind]; [|reflexivity];
         by destruct (aggregate s2 "source_strings" c)). }
    destruct (aggregate_keys_spec SOURCE_KEYS c
                [ "source_chars"; "source_words"; "source_strings" ])
      with (stats := stats) as (stats' & Hrun & Hs' & Hnum & Hts & Hlast);
      try done.
    + apply NoDup_by_compute. by vm_compute.
    + apply contains_not_elem. by vm_compute.
    + intros k Hk. apply SOURCE_ONLY_in_SOURCE, contains_elem.
      rewrite <- contains_source_only. by apply contains_elem.
    + unfold object_keys in Hc. rewrite Hparent in Hc.
      eapply readable_sub; [|exact Hc].
      intros k Hk. apply SOURCE_ONLY_in_SOURCE, contains_elem.
      rewrite <- contains_source_only. by apply contains_elem.
    + exists stats'. split; [done|]. split; [done|]. split; [|split; [done|]].
      * intros k Hk. rewrite Hnum by done. rewrite contains_source_only.
        destruct (contains SOURCE_ONLY k); [|done].
        unfold source_attr. destruct self as [[] ?]; try discriminate; done.
      * rewrite Hlast. reflexivity.
  - destruct (kind self) eqn:Hkind; try (unfold composite in Hcomp;
      rewrite Hkind in Hcomp; discriminate);
      try (unfold parent_aggregating in Hparent; rewrite Hkind in Hparent;
           discriminate).
    all: unfold calculate_source, source_updated, source_attr; rewrite Hkind.
    all: unfold object_keys in Hc; rewrite Hparent in Hc;
      destruct Hc as (Hcn & Hcl & Hca).
    all: try (destruct (Hcn "all_chars") as [m1 Hm1];
                [apply contains_elem; by vm_compute|done|];
              destruct (Hcn "all_words") as [m2 Hm2];
                [apply contains_elem; by vm_compute|done|];
              destruct (Hcn "all") as [m3 Hm3];
                [apply contains_elem; by vm_compute|done|];
              rewrite (add_attr_int _ _ _ _ n1 m1) by done; cbn;
              rewrite (add_attr_int _ _ _ _ n2 m2)
                by (by rewrite ?lookup_insert_ne); cbn;
              rewrite (add_attr_int _ _ _ _ n3 m3)
                by (by rewrite ?lookup_insert_ne)).
    all: eexists; split; [reflexivity|].
    all: split; [by repeat apply summable_insert|].
    all: split; [|split; [by rewrite ?lookup_insert_ne
                         |unfold last_pair; by rewrite ?lookup_insert_ne]].
    all: intros k Hk; unfold contains, SOURCE_ONLY; cbn [existsb].
    all: destruct (String.eqb_spec k "source_strings") as [->|?];
      [cbn [orb]; rewrite ?lookup_insert_eq, ?Hn3; unfold int_of, int_attr;
       cbn; rewrite ?Hm3; first [reflexivity | do 2 f_equal; lia]|].
    all: destruct (String.eqb_spec k "source_words") as [->|?];
      [cbn [orb]; rewrite ?(lookup_insert_ne _ "source_strings") by done;
       rewrite ?lookup_insert_eq, ?Hn2; unfold int_of, int_attr;
       cbn; rewrite ?Hm2; first [reflexivity | do 2 f_equal; lia]|].
    all: destruct (String.eqb_spec k "source_chars") as [->|?];
      [cbn [orb]; rewrite ?(lookup_insert_ne _ "source_strings") by done;
       rewrite ?(lookup_insert_ne _ "source_words") by done;
       rewrite ?lookup_insert_eq, ?Hn1; unfold int_of, int_attr;
       cbn; rewrite ?Hm1; first [reflexivity | do 2 f_equal; lia]|].
    all: cbn [orb]; by rewrite ?lookup_insert_ne.
Qed.

Lemma composite_basic_keys self :
  composite self = true → basic_keys self = SOURCE_KEYS.
Proof. unfold composite, basic_keys. by destruct (kind self). Qed.

Lemma readable_object_basic self c :
  readable (object_keys self) c → readable BASIC_KEYS c.
Proof.
  apply readable_sub. intros k Hk. unfold object_keys.
  destruct (parent_aggregating self); [by apply BASIC_in_SOURCE|done].
Qed.

Lemma total_cons {A} (f : A → Z) r rows : total f (r :: rows) = f r + total f rows.
Proof. reflexivity. Qed.

Lemma total_app {A} (f : A → Z) xs ys :
  total f (xs ++ ys) = total f xs + total f ys.
Proof.
  induction xs as [|x xs IH]; [done|].
  cbn [app]. rewrite !total_cons, IH. lia.
Qed.

Lemma aggregate_objects_spec self objects :
  composite self = true →
  Forall (readable (object_keys self)) objects →
  ∀ stats, summable SOURCE_KEYS stats →
  ∃ stats', aggregate_objects self objects stats = Ok stats'
    ∧ summable SOURCE_KEYS stats'
    ∧ (∀ k, k ∈ SOURCE_KEYS → numeric k = true →
         stats' !! k = Some (VInt (int_of (stats !! k)
                                   + total (fun c => object_part self c k) objects)))
    ∧ stats' !! "stats_timestamp" = stats !! "stats_timestamp"
    ∧ last_pair stats' = foldl (fun p c => merge_pair c p) (last_pair stats) objects.
Proof.
  intros Hcomp. induction objects as [|c objects IH]; intros Hall stats Hs.
  { exists stats. split; [done|]. split; [done|]. split; [|done].
    intros k Hk Hnum. destruct Hs as [Hs _].
    destruct (Hs k Hk Hnum) as [n ->]. cbn. do 2 f_equal. lia. }
  apply list.Forall_cons in Hall as [Hc Hall]. cbn [aggregate_objects].
  destruct (aggregate_keys_spec SOURCE_KEYS c BASIC_KEYS BASIC_KEYS_NoDup
              timestamp_not_basic BASIC_in_SOURCE
              (readable_object_basic _ _ Hc) stats Hs)
    as (s1 & Hrun1 & Hs1 & Hnum1 & Hts1 & Hlast1).
  rewrite Hrun1. cbn [mbind res_bind].
  destruct (calculate_source_spec self c s1 Hcomp Hc Hs1)
    as (s2 & Hrun2 & Hs2 & Hnum2 & Hts2 & Hlast2).
  rewrite Hrun2. cbn [mbind res_bind].
  destruct (IH Hall s2 Hs2) as (stats' & Hrun & Hs' & Hnum' & Hts' & Hlast').
  exists stats'. split; [done|]. split; [done|]. split; [|split].
  - intros k Hk Hnum. rewrite Hnum' by done. rewrite Hnum2, Hnum1 by done.
    rewrite total_cons. unfold object_part.
    destruct Hs as [Hs _]. destruct (Hs k Hk Hnum) as [n Hn].
    destruct (SOURCE_KEYS_split k Hk) as [[Hb Hso]|[Hso Hb]].
    + rewrite Hso, (elem_of_contains _ _ Hb). cbn. do 2 f_equal. lia.
    + rewrite Hb, (elem_of_contains _ _ Hso), Hn. cbn. do 2 f_equal. lia.
  - by rewrite Hts', Hts2, Hts1.
  - rewrite Hlast', Hlast2, Hlast1. reflexivity.
Qed.

Lemma aggregate_categories_spec self categories :
  composite self = true →
  Forall (readable SOURCE_KEYS) categories →
  ∀ stats, summable SOURCE_KEYS stats →
  ∃ stats', aggregate_categories self categories stats = Ok stats'
    ∧ summable SOURCE_KEYS stats'
    ∧ (∀ k, k ∈ SOURCE_KEYS → numeric k = true →
         stats' !! k = Some (VInt (int_of (stats !! k)
                                   + total (fun c => int_attr c k) categories)))
    ∧ stats' !! "stats_timestamp" = stats !! "stats_timestamp"
    ∧ last_pair stats'
      = foldl (fun p c => merge_pair c p) (last_pair stats) categories.
Proof.
  intros Hcomp. induction categories as [|c categories IH]; intros Hall stats Hs.
  { exists stats. split; [done|]. split; [done|]. split; [|done].
    intros k Hk Hnum. destruct Hs as [Hs _].
    destruct (Hs k Hk Hnum) as [n ->]. cbn. do 2 f_equal. lia. }
  apply list.Forall_cons in Hall as [Hc Hall]. cbn [aggregate_categories].
  rewrite (composite_basic_keys _ Hcomp).
  destruct (aggregate_keys_spec SOURCE_KEYS c SOURCE_KEYS SOURCE_KEYS_NoDup
              timestamp_not_key (fun k Hk => Hk) Hc stats Hs)
    as (s1 & Hrun1 & Hs1 & Hnum1 & Hts1 & Hlast1).
  rewrite Hrun1. cbn [mbind res_bind].
  destruct (IH Hall s1 Hs1) as (stats' & Hrun & Hs' & Hnum' & Hts' & Hlast').
  exists stats'. split; [done|]. split; [done|]. split; [|split].
  - intros k Hk Hnum. rewrite Hnum' by done. rewrite Hnum1 by done.
    rewrite total_cons, (elem_of_contains _ _ Hk). cbn. do 2 f_equal. lia.
  - by rewrite Hts', Hts1.
  - rewrite Hlast', Hlast1. reflexivity.
Qed.

Lemma aggregated_spec self :
  composite self = true →
  Forall (readable (object_keys self)) (object_set_of self) →
  Forall (readable SOURCE_KEYS) (category_set_of self) →
  ∃ stats, aggregated self = Ok stats
    ∧ (∀ k, k ∈ SOURCE_KEYS → numeric k = true →
         stats !! k
         = Some (VInt (total (fun c => object_part self c k) (object_set_of self)
                       + total (fun c => int_attr c k) (category_set_of self))))
    ∧ stats !! "stats_timestamp" = Some (VInt 0)
    ∧ last_pair stats
      = foldl (fun p c => merge_pair c p) (Some VNone, Some VNone)
          (object_set_of self ++ category_set_of self).
Proof.
  intros Hcomp Hobjs Hcats. unfold aggregated.
  rewrite (composite_basic_keys _ Hcomp).
  destruct (aggregate_objects_spec self (object_set_of self) Hcomp Hobjs
              (zero_stats SOURCE_KEYS) (zero_stats_summable _))
    as (s1 & Hrun1 & Hs1 & Hnum1 & Hts1 & Hlast1).
  rewrite Hrun1. cbn [mbind res_bind].
  destruct (aggregate_categories_spec self (category_set_of self) Hcomp Hcats
              s1 Hs1) as (s2 & Hrun2 & Hs2 & Hnum2 & Hts2 & Hlast2).
  exists s2. split; [done|]. split; [|split].
  - intros k Hk Hnum. rewrite Hnum2, Hnum1 by done.
    rewrite lookup_zero_stats, (elem_of_contains _ _ Hk) by done.
    cbn [int_of]. do 2 f_equal.
  - by rewrite Hts2, Hts1, zero_stats_timestamp.
  - by rewrite Hlast2, Hlast1, zero_stats_last_pair, foldl_app.
Qed.

(** ** Storing a whole record *)

Lemma last_stored_absent k items : k ∉ items.*1 → last_stored k items = None.
Proof.
  induction items as [|[k' v] items IH]; [done|].
  cbn [fmap list_fmap fst last_stored]. intros [Hne Hk]%not_elem_of_cons.
  rewrite (IH Hk). destruct (String.eqb_spec k' k); [congruence|done].
Qed.

Lemma last_stored_present k v items :
  NoDup items.*1 → (k, v) ∈ items → last_stored k items = Some (stored k v).
Proof.
  induction items as [|[k' v'] items IH]; intros Hnd Hin.
  { by apply elem_of_nil in Hin. }
  cbn [fmap list_fmap fst] in Hnd. apply list.NoDup_cons in Hnd as [Hk' Hnd].
  cbn [last_stored]. apply elem_of_cons in Hin as [Heq|Hin].
  - injection Heq as <- <-. rewrite (last_stored_absent _ _ Hk').
    by rewrite String.eqb_refl.
  - by rewrite (IH Hnd Hin).
Qed.

Lemma last_stored_map_to_list k (stats : record) :
  last_stored k (map_to_list stats) = stored k <$> stats !! k.
Proof.
  destruct (stats !! k) as [v|] eqn:Hk; cbn.
  - apply last_stored_present; [apply NoDup_fst_map_to_list|].
    by apply elem_of_map_to_list.
  - apply last_stored_absent. intros Hin.
    apply list_elem_of_fmap in Hin as ([k' v] & -> & Hin).
    apply elem_of_map_to_list in Hin. cbn in Hk. congruence.
Qed.

Section Composite.
Context `{States}.

Lemma prefetch_source_eq self src w d :
  source_items self = Ok src → _data w = Some d →
  prefetch_source self w = (Ok tt, with_data (Some (apply_items src d)) w).
Proof.
  unfold source_items, prefetch_source. intros Hsrc Hd.
  destruct (kind self) as [| | |? ? [c|]| | | | | | |];
    try (injection Hsrc as <-; cbn [apply_items]; rewrite mret_eq, <- Hd;
         by rewrite with_data_id).
  - destruct (attr c "all_chars") as [v1|]; [|done].
    destruct (attr c "all_words") as [v2|]; [|done].
    destruct (attr c "all") as [v3|]; [|done].
    injection Hsrc as <-. mstep.
    rewrite bind_eq. erewrite store_loaded by done. mstep.
    rewrite bind_eq. erewrite store_loaded by done. mstep.
    erewrite store_loaded by done. by rewrite !with_data_with_data.
  - injection Hsrc as <-.
    rewrite bind_eq. erewrite store_loaded by done.
    rewrite bind_eq. erewrite store_loaded by done.
    erewrite store_loaded by done. by rewrite !with_data_with_data.
Qed.

Lemma aggregating_calculate_basic_eq self stats src w d :
  aggregated self = Ok stats → source_items self = Ok src →
  aggregating_calculate_basic self (with_data (Some d) w)
  = (Ok tt, with_data (Some (apply_items (map_to_list stats ++ src) d)) w).
Proof.
  intros Hagg Hsrc. unfold aggregating_calculate_basic. rewrite Hagg. mstep.
  rewrite bind_eq. erewrite store_all_loaded by reflexivity.
  erewrite prefetch_source_eq by done.
  by rewrite !with_data_with_data, apply_items_app.
Qed.

Lemma composite_calculate_basic (g : string → M value) self clk stats src w d :
  composite self = true →
  aggregated self = Ok stats → source_items self = Ok src →
  calculate_basic g self clk (with_data (Some d) w)
  = (Ok tt,
     with_data
       (Some (apply_items
                (map_to_list stats ++ src ++ languages_items self
                 ++ [ ("stats_timestamp", VFloat (monotonic clk)) ]) d)) w).
Proof.
  intros Hcomp Hagg Hsrc. unfold calculate_basic, _calculate_basic.
  unfold languages_items.
  destruct (kind self) eqn:Hkind;
    try (unfold composite in Hcomp; rewrite Hkind in Hcomp; discriminate).
  all: rewrite bind_eq; try rewrite bind_eq.
  all: erewrite aggregating_calculate_basic_eq by done.
  all: repeat (erewrite store_loaded by reflexivity;
               rewrite ?with_data_with_data).
  all: rewrite !app_assoc, !apply_items_app; reflexivity.
Qed.

End Composite.

(** ** The most recent change *)

Lemma merge_pair_latest children c p :
  latest_of children p →
  (attr c "last_changed" = Ok VNone
   ∨ ∃ t, attr c "last_changed" = Ok (VTime t)) →
  (∃ a, attr c "last_author" = Ok a) →
  latest_of (children ++ [c]) (merge_pair c p).
Proof.
  intros Hp Hc [a Ha]. unfold merge_pair. rewrite Ha.
  destruct Hc as [Hc|[t' Hc]]; rewrite Hc.
  - (* the child has no last change *)
    destruct Hp as [[-> Hnone]|(c0 & t & a0 & Hin & Hl & Hau & -> & Hmax)].
    + left. split; [done|]. intros c' [Hc'|Hc']%elem_of_app; [by apply Hnone|].
      apply list_elem_of_singleton in Hc' as ->. unfold changed_at. by rewrite Hc.
    + right. exists c0, t, a0. repeat split; try done.
      * apply elem_of_app. by left.
      * intros c' t1 [Hc'|Hc']%elem_of_app Ht1; [by eapply Hmax|].
        apply list_elem_of_singleton in Hc' as ->.
        unfold changed_at in Ht1. by rewrite Hc in Ht1.
  - destruct Hp as [[-> Hnone]|(c0 & t & a0 & Hin & Hl & Hau & -> & Hmax)];
      cbn [fst].
    + right. exists c, t', a. repeat split; try done.
      * apply elem_of_app. right. by apply list_elem_of_singleton.
      * intros c' t1 [Hc'|Hc']%elem_of_app Ht1.
        -- rewrite (Hnone c' Hc') in Ht1. discriminate.
        -- apply list_elem_of_singleton in Hc' as ->.
           unfold changed_at in Ht1. rewrite Hc in Ht1. injection Ht1 as ->. lia.
    + destruct (Z.ltb_spec t t') as [Hlt|Hge].
      * right. exists c, t', a. repeat split; try done.
        -- apply elem_of_app. right. by apply list_elem_of_singleton.
        -- intros c' t1 [Hc'|Hc']%elem_of_app Ht1.
           ++ specialize (Hmax c' t1 Hc' Ht1). lia.
           ++ apply list_elem_of_singleton in Hc' as ->.
              unfold changed_at in Ht1. rewrite Hc in Ht1.
              injection Ht1 as ->. lia.
      * right. exists c0, t, a0. repeat split; try done.
        -- apply elem_of_app. by left.
        -- intros c' t1 [Hc'|Hc']%elem_of_app Ht1; [by eapply Hmax|].
           apply list_elem_of_singleton in Hc' as ->.
           unfold changed_at in Ht1. rewrite Hc in Ht1.
           injection Ht1 as ->. lia.
Qed.

Lemma foldl_merge_latest keys children :
  Forall (readable keys) children →
  ∀ before p, latest_of before p →
  latest_of (before ++ children) (foldl (fun p c => merge_pair c p) p children).
Proof.
  induction children as [|c children IH]; intros Hall before p Hp.
  { by rewrite app_nil_r. }
  apply list.Forall_cons in Hall as [(_ & Hl & Ha) Hall]. cbn [foldl].
  replace (before ++ c :: children) with ((before ++ [c]) ++ children)
    by (by rewrite <- app_assoc).
  apply IH; [done|]. by apply merge_pair_latest.
Qed.

Lemma latest_of_nil : latest_of [] (Some VNone, Some VNone).
Proof. left. split; [done|]. intros c Hc. by apply elem_of_nil in Hc. Qed.

(** ** The record of a composite node *)

Lemma stored_int k n : stored k (VInt n) = VInt n.
Proof. reflexivity. Qed.

Lemma stored_last k v : startswith "last_" k = true → stored k v = v.
Proof. intros Hk. unfold stored. rewrite Hk. cbn. by rewrite andb_false_r. Qed.

Lemma last_stored_languages_items self k :
  k ≠ "languages" → last_stored k (languages_items self) = None.
Proof.
  intros Hk%String.eqb_neq. rewrite String.eqb_sym in Hk.
  unfold languages_items. destruct (kind self); cbn [last_stored]; by rewrite ?Hk.
Qed.

Lemma last_stored_source_items self src k :
  source_items self = Ok src → contains SOURCE_ONLY k = false →
  last_stored k src = None.
Proof.
  unfold source_items, contains, SOURCE_ONLY. cbn [existsb].
  intros Hsrc Hk.
  apply orb_false_iff in Hk as [H1 Hk]. apply orb_false_iff in Hk as [H2 Hk].
  apply orb_false_iff in Hk as [H3 _].
  rewrite String.eqb_sym in H1, H2, H3.
  destruct (kind self) as [| | |? ? [c|]| | | | | | |];
    try (by injection Hsrc as <-).
  - destruct (attr c "all_chars"); [|done]. destruct (attr c "all_words"); [|done].
    destruct (attr c "all"); [|done]. injection Hsrc as <-.
    cbn [last_stored]. by rewrite H1, H2, H3.
  - injection Hsrc as <-. cbn [last_stored]. by rewrite H1, H2, H3.
Qed.

(** Lookup in the record of a composite node, for a key that neither
    [prefetch_source] nor the overriding methods store again. *)
Lemma composite_lookup self clk (stats : record) src d k v :
  source_items self = Ok src →
  k ≠ "stats_timestamp" → k ≠ "languages" → contains SOURCE_ONLY k = false →
  stats !! k = Some v →
  apply_items (map_to_list stats ++ src ++ languages_items self
               ++ [ ("stats_timestamp", VFloat (monotonic clk)) ]) d !! k
  = Some (stored k v).
Proof.
  intros Hsrc Hts%String.eqb_neq Hlang Hso Hk.
  rewrite String.eqb_sym in Hts.
  rewrite lookup_apply_items, !last_stored_app. cbn [last_stored].
  rewrite Hts, last_stored_languages_items by done.
  rewrite (last_stored_source_items _ _ _ Hsrc Hso).
  by rewrite last_stored_map_to_list, Hk.
Qed.

Lemma composite_timestamp self clk (stats : record) src d :
  apply_items (map_to_list stats ++ src ++ languages_items self
               ++ [ ("stats_timestamp", VFloat (monotonic clk)) ]) d
    !! "stats_timestamp"
  = Some (VFloat (monotonic clk)).
Proof. by rewrite lookup_apply_items, !last_stored_app. Qed.

Lemma total_ext {A} (f g : A → Z) rows :
  (∀ r, f r = g r) → total f rows = total g rows.
Proof.
  intros Hfg. induction rows as [|r rows IH]; [done|].
  by rewrite !total_cons, Hfg, IH.
Qed.

Lemma basic_key_not_source k : k ∈ BASIC_KEYS → contains SOURCE_ONLY k = false.
Proof.
  intros Hk. by destruct (SOURCE_KEYS_split k (BASIC_in_SOURCE _ Hk))
    as [[_ ?]|[_ Hb%contains_not_elem]].
Qed.

Section CompositeClaims.
Context `{States}.

(** C1 (amended).  After a composite node has been recomputed, every basic
    key other than [languages], [last_changed] and [last_author] holds the
    sum of that key over the children in [object_set] and [category_set];
    [last_changed] and [last_author] are those of the child changed most
    recently; and [stats_timestamp] holds the reading of the clock taken by
    this computation, whatever the timestamps of the children are. *)
Theorem composite_basic fuel self clk w d :
  composite self = true →
  Forall (readable (object_keys self)) (object_set_of self) →
  Forall (readable SOURCE_KEYS) (category_set_of self) →
  (∃ src, source_items self = Ok src) →
  ∃ d', calculate_basic (getattr fuel self clk) self clk (with_data (Some d) w)
        = (Ok tt, with_data (Some d') w)
    ∧ (∀ k, k ∈ BASIC_KEYS →
         k ≠ "languages" → k ≠ "last_changed" → k ≠ "last_author" →
         d' !! k = Some (VInt (total (fun c => int_attr c k)
                                 (object_set_of self ++ category_set_of self))))
    ∧ latest_of (object_set_of self ++ category_set_of self) (last_pair d')
    ∧ d' !! "stats_timestamp" = Some (VFloat (monotonic clk)).
Proof.
  intros Hcomp Hobjs Hcats [src Hsrc].
  destruct (aggregated_spec self Hcomp Hobjs Hcats)
    as (stats & Hagg & Hnum & Hts & Hlast).
  eexists. split; [by apply composite_calculate_basic|].
  split; [|split].
  - intros k Hk Hlang Hlc Hla.
    assert (k ≠ "stats_timestamp") as Hkts.
    { intros ->. by apply timestamp_not_basic. }
    assert (numeric k = true) as Hknum.
    { unfold numeric. apply String.eqb_neq in Hkts, Hlc, Hla.
      by rewrite Hkts, Hlc, Hla. }
    pose proof (basic_key_not_source k Hk) as Hso.
    erewrite composite_lookup; try done;
      [|apply Hnum; [by apply BASIC_in_SOURCE|done]].
    rewrite stored_int, total_app. do 3 f_equal.
    apply total_ext. intros c. unfold object_part. by rewrite Hso.
  - assert (Forall (readable []) (object_set_of self ++ category_set_of self))
      as Hall.
    { apply Forall_app. split.
      - eapply list.Forall_impl; [exact Hobjs|]. intros c. apply readable_sub.
        intros k Hk. by apply elem_of_nil in Hk.
      - eapply list.Forall_impl; [exact Hcats|]. intros c. apply readable_sub.
        intros k Hk. by apply elem_of_nil in Hk. }
    pose proof (foldl_merge_latest _ _ Hall [] _ latest_of_nil) as Hlatest.
    cbn [app] in Hlatest. rewrite <- Hlast in Hlatest.
    assert (∃ vc va, stats !! "last_changed" = Some vc
                     ∧ stats !! "last_author" = Some va) as (vc & va & Hvc & Hva).
    { unfold last_pair in Hlatest.
      destruct Hlatest as [[Heq _]|(? & ? & ? & _ & _ & _ & Heq & _)];
        injection Heq as -> ->; eauto. }
    replace (last_pair (apply_items _ d)) with (last_pair stats); [done|].
    unfold last_pair. erewrite !composite_lookup; try done.
    rewrite !stored_last by done. by rewrite Hvc, Hva.
  - apply composite_timestamp.
Qed.

Lemma composite_lookup_source self clk (stats : record) src d k :
  k ∈ SOURCE_ONLY →
  apply_items (map_to_list stats ++ src ++ languages_items self
               ++ [ ("stats_timestamp", VFloat (monotonic clk)) ]) d !! k
  = match last_stored k src with
    | Some v => Some v
    | None => match stats !! k with
              | Some v => Some (stored k v)
              | None => d !! k
              end
    end.
Proof.
  intros Hk. rewrite lookup_apply_items, !last_stored_app.
  assert (k ≠ "languages" ∧ String.eqb "stats_timestamp" k = false) as [Hl Hts].
  { unfold SOURCE_ONLY in Hk.
    repeat (apply elem_of_cons in Hk as [->|Hk]; [done|]).
    by apply elem_of_nil in Hk. }
  cbn [last_stored]. rewrite Hts, last_stored_languages_items by done.
  destruct (last_stored k src); [done|].
  rewrite last_stored_map_to_list. by destruct (stats !! k).
Qed.

(** C5.  After recomputation the source keys of a component hold the
    [all], [all_words] and [all_chars] of its source translation, copied
    and not summed over the translations; the source keys of a category,
    project, component list or the global node hold the sum of the same key
    over the children. *)
Theorem source_keys fuel self clk w d :
  composite self = true →
  Forall (readable (object_keys self)) (object_set_of self) →
  Forall (readable SOURCE_KEYS) (category_set_of self) →
  (∃ src, source_items self = Ok src) →
  ∃ d', calculate_basic (getattr fuel self clk) self clk (with_data (Some d) w)
        = (Ok tt, with_data (Some d') w)
    ∧ (∀ review objects source_translation all all_words all_chars,
         kind self = ComponentStats review objects (Some source_translation) →
         attr source_translation "all" = Ok (VInt all) →
         attr source_translation "all_words" = Ok (VInt all_words) →
         attr source_translation "all_chars" = Ok (VInt all_chars) →
         d' !! "source_strings" = Some (VInt all)
         ∧ d' !! "source_words" = Some (VInt all_words)
         ∧ d' !! "source_chars" = Some (VInt all_chars))
    ∧ (parent_aggregating self = true →
       ∀ k, k ∈ SOURCE_ONLY →
         d' !! k = Some (VInt (total (fun c => int_attr c k)
                                 (object_set_of self ++ category_set_of self)))).
Proof.
  intros Hcomp Hobjs Hcats [src Hsrc].
  destruct (aggregated_spec self Hcomp Hobjs Hcats)
    as (stats & Hagg & Hnum & Hts & Hlast).
  eexists. split; [by apply composite_calculate_basic|]. split.
  - intros review objects c a aw ac Hkind Ha Haw Hac.
    unfold source_items in Hsrc. rewrite Hkind, Ha, Haw, Hac in Hsrc.
    injection Hsrc as <-.
    rewrite !composite_lookup_source by (by repeat constructor). done.
  - intros Hparent k Hk.
    rewrite composite_lookup_source by done.
    assert (src = []) as ->.
    { unfold source_items in Hsrc. unfold parent_aggregating in Hparent.
      destruct (kind self); try discriminate; by injection Hsrc. }
    cbn [last_stored].
    assert (numeric k = true) as Hknum.
    { unfold SOURCE_ONLY in Hk.
      repeat (apply elem_of_cons in Hk as [->|Hk]; [done|]).
      by apply elem_of_nil in Hk. }
    rewrite (Hnum k (SOURCE_ONLY_in_SOURCE _ Hk) Hknum).
    rewrite stored_int, total_app. do 3 f_equal.
    apply total_ext. intros c. unfold object_part, source_attr.
    rewrite (elem_of_contains _ _ Hk).
    unfold parent_aggregating in Hparent. by destruct (kind self).
Qed.

(** C6.  After a project or the global node has been recomputed,
    [languages] holds the number of distinct languages among the
    translations below the node, whatever the children report as their
    [languages]. *)
Theorem distinct_languages fuel self clk w d review objects categories languages :
  kind self = ProjectStats review objects categories languages
  ∨ kind self = GlobalStats objects languages →
  Forall (readable (object_keys self)) (object_set_of self) →
  Forall (readable SOURCE_KEYS) (category_set_of self) →
  ∃ d', calculate_basic (getattr fuel self clk) self clk (with_data (Some d) w)
        = (Ok tt, with_data (Some d') w)
    ∧ d' !! "languages"
      = Some (VInt (Z.of_nat (size (list_to_set languages : gset Z)))).
Proof.
  intros Hkind Hobjs Hcats.
  assert (composite self = true) as Hcomp.
  { unfold composite. by destruct Hkind as [->| ->]. }
  assert (source_items self = Ok []) as Hsrc.
  { unfold source_items. by destruct Hkind as [->| ->]. }
  destruct (aggregated_spec self Hcomp Hobjs Hcats)
    as (stats & Hagg & Hnum & Hts & Hlast).
  eexists. split; [by apply composite_calculate_basic|].
  rewrite lookup_apply_items, !last_stored_app. cbn [last_stored].
  unfold languages_items. by destruct Hkind as [->| ->].
Qed.

End CompositeClaims.

(** ** The leaf computation on sample content *)

Lemma store_and_empty_leaf_witness :
  unit_set no_content = []
  ∧ ∃ d', _calculate_basic (getattr 1 (translation_stats no_content "stats-t") noon)
            (translation_stats no_content "stats-t") noon
            (with_data (Some ∅) empty_world)
            = (Ok tt, with_data (Some d') empty_world)
          ∧ d' !! "languages" = Some (VInt 1).
Proof.
  split; [reflexivity|].
  destruct (store_and_empty_leaf (translation_stats no_content "stats-t")
              "all" VNone 0 "stats-t" no_content noon empty_world ∅ eq_refl)
    as [_ (d' & Hrun & _ & _ & Hlang & _)].
  exists d'. by split.
Defined.

(** C10, as stated, fails at [languages]: over a translation without units
    the leaf computation stores 1 there, not 0. *)
Lemma empty_leaf_languages_is_one :
  ¬ (∀ k, k ∈ BASIC_KEYS → startswith "last_" k = false →
      _data (snd (_calculate_basic
                    (getattr 1 (translation_stats no_content "stats-t") noon)
                    (translation_stats no_content "stats-t") noon
                    (with_data (Some ∅) empty_world)))
        ≫= (fun d => d !! k) = Some (VInt 0)).
Proof.
  intros Hall.
  assert ("languages" ∈ BASIC_KEYS) as Hin.
  { apply list_elem_of_In. vm_compute. tauto. }
  specialize (Hall "languages" Hin eq_refl).
  rewrite calculate_basic_translation in Hall. cbn [snd] in Hall. rewrite data_with_data in Hall.
  vm_compute in Hall. discriminate.
Qed.

Lemma weblate_states_ok : states_ok.
Proof. unfold states_ok. cbn. lia. Qed.

Lemma leaf_partitions_witness :
  states_ok
  ∧ ∃ d', _calculate_basic (getattr 1 (translation_stats five_units "stats-t") noon)
            (translation_stats five_units "stats-t") noon
            (with_data (Some ∅) empty_world)
            = (Ok tt, with_data (Some d') empty_world)
          ∧ d' !! "todo" = Some (VInt 2)
          ∧ d' !! "readonly" = Some (VInt 1).
Proof.
  split; [exact weblate_states_ok|].
  destruct (leaf_partitions 0 "stats-t" five_units noon empty_world ∅
              weblate_states_ok)
    as (d' & Hrun & Htodo & _ & _ & Hro & _).
  exists d'. split; [exact Hrun|]. split; [exact Htodo|exact Hro].
Defined.

(** C7, as stated, fails: read-only does not occur together with the empty
    state.  No unit is counted both as read-only and as not translated. *)
Lemma readonly_excludes_empty :
  ¬ ∃ (u : Unit) (d' : record),
      _data (snd (_calculate_basic
                    (getattr 1 (translation_stats (one_unit u) "stats-t") noon)
                    (translation_stats (one_unit u) "stats-t") noon
                    (with_data (Some ∅) empty_world))) = Some d'
      ∧ d' !! "readonly" = Some (VInt 1)
      ∧ d' !! "nottranslated" = Some (VInt 1).
Proof.
  intros (u & d' & Hrun & Hro & Hnt).
  rewrite calculate_basic_translation in Hrun.
  cbn [snd] in Hrun. rewrite data_with_data in Hrun.
  apply (inj Some) in Hrun. subst d'.
  destruct (leaf_state_counts (one_unit u) noon ∅) as (_ & Hnt' & _ & Hro' & _).
  rewrite Hro' in Hro. rewrite Hnt' in Hnt. clear Hro' Hnt'.
  unfold count_if in Hro, Hnt.
  cbn [one_unit with_units unit_set List.filter] in Hro, Hnt.
  destruct (Z.eqb_spec (state u) STATE_READONLY) as [Heq|];
    destruct (Z.eqb_spec (state u) STATE_EMPTY) as [Heq'|];
    cbn [List.length] in Hro, Hnt; try discriminate.
  rewrite Heq in Heq'. discriminate.
Qed.

(** ** Aggregation on sample children *)

Lemma loaded_child_readable d :
  (∀ k, contains SOURCE_KEYS k = true → numeric k = true →
        ∃ n, attr (loaded_child d) k = Ok (VInt n)) →
  (∃ t, attr (loaded_child d) "last_changed" = Ok (VTime t)) →
  (∃ a, attr (loaded_child d) "last_author" = Ok a) →
  readable SOURCE_KEYS (loaded_child d).
Proof.
  intros Hn Hl Ha. split; [|split; [by right|done]].
  intros k Hk. by apply Hn, contains_elem.
Qed.

Lemma child_a_readable : readable SOURCE_KEYS child_a.
Proof.
  apply loaded_child_readable; [|by eexists|by eexists].
  intros k Hk Hnum. apply contains_elem in Hk.
  unfold SOURCE_KEYS, BASIC_KEYS in Hk. cbn [map app BASICS CHANGE_KEYS] in Hk.
  repeat (apply elem_of_cons in Hk as [->|Hk];
          [first [discriminate Hnum | eexists; vm_compute; reflexivity]|]).
  by apply elem_of_nil in Hk.
Qed.

Lemma child_b_readable : readable SOURCE_KEYS child_b.
Proof.
  apply loaded_child_readable; [|by eexists|by eexists].
  intros k Hk Hnum. apply contains_elem in Hk.
  unfold SOURCE_KEYS, BASIC_KEYS in Hk. cbn [map app BASICS CHANGE_KEYS] in Hk.
  repeat (apply elem_of_cons in Hk as [->|Hk];
          [first [discriminate Hnum | eexists; vm_compute; reflexivity]|]).
  by apply elem_of_nil in Hk.
Qed.

Lemma readable_basic c : readable SOURCE_KEYS c → readable BASIC_KEYS c.
Proof. apply readable_sub, BASIC_in_SOURCE. Qed.

Lemma composite_basic_witness :
  ∃ d', calculate_basic (getattr 1 list_node noon) list_node noon
          (with_data (Some ∅) empty_world)
        = (Ok tt, with_data (Some d') empty_world)
    ∧ d' !! "all" = Some (VInt 7)
    ∧ d' !! "stats_timestamp" = Some (VFloat (Qc_of_Z 5)).
Proof.
  destruct (composite_basic 1 list_node noon empty_world ∅ eq_refl)
    as (d' & Hrun & Hsum & _ & Hts).
  - constructor; [exact child_a_readable|].
    constructor; [exact child_b_readable|]. constructor.
  - constructor.
  - by eexists.
  - exists d'. split; [exact Hrun|]. split; [|exact Hts].
    apply (Hsum "all"); [|done..]. apply contains_elem. reflexivity.
Defined.

(** C1, as stated, fails at [stats_timestamp]: the node computed at clock
    reading 5 over a child computed at 9 holds 5, not the maximum 9. *)
Lemma timestamp_ignores_children :
  attr child_a "stats_timestamp" = Ok (VFloat (Qc_of_Z 9))
  ∧ py_max (VFloat (monotonic noon)) (VFloat (Qc_of_Z 9))
    = Ok (VFloat (Qc_of_Z 9))
  ∧ _data (snd (calculate_basic (getattr 1 list_node noon) list_node noon
                  (with_data (Some ∅) empty_world)))
      ≫= (fun d => d !! "stats_timestamp")
    = Some (VFloat (Qc_of_Z 5)).
Proof. by vm_compute. Qed.

Lemma source_keys_witness :
  ∃ d', calculate_basic (getattr 1 component_node noon) component_node noon
          (with_data (Some ∅) empty_world)
        = (Ok tt, with_data (Some d') empty_world)
    ∧ d' !! "source_strings" = Some (VInt 3).
Proof.
  destruct (source_keys 1 component_node noon empty_world ∅ eq_refl)
    as (d' & Hrun & Hcopy & _).
  - constructor; [exact (readable_basic _ child_a_readable)|].
    constructor; [exact (readable_basic _ child_b_readable)|]. constructor.
  - constructor.
  - by eexists.
  - exists d'. split; [exact Hrun|].
    by destruct (Hcopy true [ child_a; child_b ] child_a 3 0 0 eq_refl eq_refl
                   eq_refl eq_refl) as [? _].
Defined.

Lemma distinct_languages_witness :
  ∃ d', calculate_basic (getattr 1 project_node noon) project_node noon
          (with_data (Some ∅) empty_world)
        = (Ok tt, with_data (Some d') empty_world)
    ∧ d' !! "languages" = Some (VInt 2).
Proof.
  destruct (distinct_languages 1 project_node noon empty_world ∅ true
              [ child_a ] [ child_b ] [ 1; 2; 1; 2 ] (or_introl eq_refl))
    as (d' & Hrun & Hlang).
  - constructor; [exact child_a_readable|constructor].
  - constructor; [exact child_b_readable|constructor].
  - exists d'. split; [exact Hrun|]. exact Hlang.
Defined.

(** The component of the spec's scenario: the source strings are copied
    from the source translation while [all] is summed over both
    translations; and the languages of a project are counted once each
    although both children report two. *)
Example component_sums_all_copies_source :
  fst (getattr 2 component_node noon "all" empty_world) = Ok (VInt 7)
  ∧ fst (getattr 2 component_node noon "source_strings" empty_world)
    = Ok (VInt 3).
Proof. by vm_compute. Qed.

Example project_counts_languages_once :
  attr child_a "languages" = Ok (VInt 2)
  ∧ attr child_b "languages" = Ok (VInt 2)
  ∧ fst (getattr 2 project_node noon "languages" empty_world) = Ok (VInt 2).
Proof. by vm_compute. Qed.

(** ** Percents *)

Lemma length_append a b :
  String.length (a ++ b) = (String.length a + String.length b)%nat.
Proof.
  induction a as [|ch a IH]; [done|].
  change (S (String.length (a ++ b))
          = S (String.length a + String.length b)%nat).
  by rewrite IH.
Qed.

Lemma substring_append a b : substring 0 (String.length a) (a ++ b) = a.
Proof.
  induction a as [|ch a IH].
  - by destruct b.
  - change (String ch (substring 0 (String.length a) (a ++ b)) = String ch a).
    by rewrite IH.
Qed.

Lemma drop_last_append a b : drop_last (String.length b) (a ++ b) = a.
Proof.
  unfold drop_last. rewrite length_append.
  replace (String.length a + String.length b - String.length b)%nat
    with (String.length a) by lia.
  apply substring_append.
Qed.

Lemma contains_decide keys k : contains keys k = bool_decide (k ∈ keys).
Proof.
  destruct (contains keys k) eqn:Hk; symmetry.
  - by apply bool_decide_eq_true_2, contains_elem.
  - by apply bool_decide_eq_false_2, contains_not_elem.
Qed.

Section Percent.
Context `{States}.

(** C2.  For every metric name ending in the percent marker,
    [calculate_percent] strips the marker, reads the denominator
    ([all_words], [all_chars] or [all] by the ending of the antecedent) and
    the antecedent, and takes the percent with [zero_complete] set as the
    review workflow of the node says; the percent is 100 or 0 over a zero
    denominator, as [zero_complete] holds or not, and
    numerator / denominator * 100 otherwise. *)
Theorem calculate_percent_rule fuel self clk antecedent w :
  calculate_percent (getattr fuel self clk) self (antecedent ++ "_percent") w
  = percent_rule (getattr fuel self clk) (has_review self) antecedent w
  ∧ (∀ numerator,
       translation_percent numerator (VInt 0) true = Ok (VFloat (Qc_of_Z 100))
       ∧ translation_percent numerator (VInt 0) false = Ok (VFloat (Qc_of_Z 0)))
  ∧ (∀ numerator denominator complete,
       denominator ≠ 0 →
       translation_percent (VInt numerator) (VInt denominator) complete
       = Ok (VFloat (Qc_of_Z numerator / Qc_of_Z denominator * Qc_of_Z 100)%Qc)).
Proof.
  split; [|split].
  - unfold calculate_percent, percent_rule, denominator_key, zero_complete.
    change 8%nat with (String.length "_percent").
    rewrite drop_last_append, !contains_decide.
    destruct (endswith "_words" antecedent), (endswith "_chars" antecedent),
      (has_review self); reflexivity.
  - intros numerator. by split.
  - intros numerator denominator complete Hd%Z.eqb_neq.
    unfold translation_percent. cbn [is_zero number]. by rewrite Hd.
Qed.

End Percent.

Lemma calculate_percent_rule_witness :
  translation_percent (VInt 5) (VInt 10) false = Ok (VFloat (Qc_of_Z 50)).
Proof.
  destruct (calculate_percent_rule 1 list_node noon "translated" empty_world)
    as (_ & _ & Hdiv).
  rewrite (Hdiv 5 10 false) by done. do 2 f_equal. by apply Qc_is_canon.
Defined.

(** The percents of the sample translation with one unit in each state,
    where review is enabled: one of five units is approved, three are
    translated or beyond, and nothing is complete over no units. *)
Example five_units_percents :
  fst (getattr 3 (translation_stats five_units "stats-t") noon
         "approved_percent" empty_world) = Ok (VFloat (Qc_of_Z 20))
  ∧ fst (getattr 3 (translation_stats five_units "stats-t") noon
           "translated_words_percent" empty_world) = Ok (VFloat (Qc_of_Z 80))
  ∧ fst (getattr 3 (translation_stats no_content "stats-t") noon
           "approved_percent" empty_world) = Ok (VFloat (Qc_of_Z 100))
  ∧ fst (getattr 3 (translation_stats no_content "stats-t") noon
           "translated_percent" empty_world) = Ok (VFloat (Qc_of_Z 0)).
Proof.
  repeat split; vm_compute; do 2 f_equal; by apply Qc_is_canon.
Qed.

(** ** What calculate_basic leaves behind *)

Section Outcome.
Context `{States}.

Lemma prefetch_source_raise self e d :
  source_items self = Raise e →
  ∃ dp, ∀ w, _data w = Some d →
    prefetch_source self w = (Raise e, with_data (Some dp) w).
Proof.
  unfold source_items, prefetch_source. intros Hsrc.
  destruct (kind self) as [| | |? ? [c|]| | | | | | |]; try discriminate.
  destruct (attr c "all_chars") as [v1|e1] eqn:H1.
  - destruct (attr c "all_words") as [v2|e2] eqn:H2.
    + destruct (attr c "all") as [v3|e3] eqn:H3; [discriminate|].
      injection Hsrc as ->. eexists. intros w Hd. mstep.
      rewrite bind_eq. erewrite store_loaded by done. mstep.
      rewrite bind_eq. erewrite store_loaded by done. mstep.
      by rewrite ?with_data_with_data.
    + injection Hsrc as ->. eexists. intros w Hd. mstep.
      rewrite bind_eq. erewrite store_loaded by done. mstep.
      by rewrite ?with_data_with_data.
  - injection Hsrc as ->. exists d. intros w Hd. mstep.
    by rewrite <- Hd, with_data_id.
Qed.

Lemma aggregating_calculate_basic_outcome self d :
  ∃ dp, ∀ w,
    aggregating_calculate_basic self (with_data (Some d) w)
    = match (stats ← aggregated self; src ← source_items self;
             Ok (apply_items (map_to_list stats ++ src) d)) with
      | Ok d' => (Ok tt, with_data (Some d') w)
      | Raise e => (Raise e, with_data (Some dp) w)
      end.
Proof.
  destruct (aggregated self) as [stats|e] eqn:Hagg; cbn [mbind res_bind].
  - destruct (source_items self) as [src|e] eqn:Hsrc; cbn [mbind res_bind].
    + exists d. intros w. by apply aggregating_calculate_basic_eq.
    + destruct (prefetch_source_raise self e
                  (apply_items (map_to_list stats) d) Hsrc) as [dp Hdp].
      exists dp. intros w. unfold aggregating_calculate_basic.
      rewrite Hagg. mstep.
      rewrite bind_eq. erewrite store_all_loaded by reflexivity.
      rewrite Hdp by reflexivity. by rewrite with_data_with_data.
  - exists d. intros w. unfold aggregating_calculate_basic.
    rewrite Hagg. by mstep.
Qed.

Lemma calculate_basic_outcome fuel self clk d :
  ∃ dp, ∀ w,
    calculate_basic (getattr (S fuel) self clk) self clk (with_data (Some d) w)
    = match computed self clk d with
      | Ok d' => (Ok tt, with_data (Some d') w)
      | Raise e => (Raise e, with_data (Some dp) w)
      end.
Proof.
  unfold calculate_basic, _calculate_basic, computed.
  destruct self as [knd key]. cbn [kind].
  destruct knd as [|t| | | | | | | | |base].
  1: { (* DummyTranslationStats *)
    exists d. intros w. mstep.
    erewrite store_loaded by reflexivity. by rewrite !with_data_with_data. }
  1: { (* TranslationStats *)
    exists d. intros w. rewrite bind_eq.
    rewrite (calculate_basic_translation_kind fuel key t clk w d).
    erewrite store_loaded by reflexivity.
    by rewrite with_data_with_data, apply_items_app. }
  9: { (* GhostStats *)
    exists d. intros w. unfold ghost_calculate_basic.
    destruct (ghost_stats _ base) as [stats|e]; cbn [mbind res_bind];
      rewrite bind_eq; mstep.
    + erewrite store_all_loaded by reflexivity.
      erewrite store_loaded by reflexivity.
      by rewrite !with_data_with_data, apply_items_app.
    + reflexivity. }
  all: match goal with
       | |- context [aggregating_calculate_basic ?self] =>
           destruct (aggregating_calculate_basic_outcome self d) as [dp Hdp];
           exists dp; intros w; rewrite bind_eq; try rewrite bind_eq;
           rewrite Hdp;
           destruct (aggregated self) as [stats|e]; cbn [mbind res_bind];
             [|reflexivity];
           destruct (source_items self) as [src|e]; cbn [mbind res_bind];
             [|reflexivity]
       end.
  all: unfold languages_items; cbn [kind].
  all: repeat (erewrite store_loaded by reflexivity;
               rewrite ?with_data_with_data).
  all: rewrite !app_assoc, !apply_items_app; reflexivity.
Qed.

End Outcome.

(** ** save and update_stats *)

Lemma save_eq self update_parents w :
  save self update_parents w = (Ok tt, saved self update_parents w).
Proof.
  unfold saved, save. destruct (kind self); try reflexivity.
  by destruct update_parents.
Qed.

Lemma saved_data self update_parents w :
  _data (saved self update_parents w) = _data w.
Proof.
  unfold saved, save. destruct (kind self); try reflexivity.
  by destruct update_parents.
Qed.

Lemma saved_pending self update_parents w :
  _pending_save (saved self update_parents w) = _pending_save w.
Proof.
  unfold saved, save. destruct (kind self); try reflexivity.
  by destruct update_parents.
Qed.

Lemma saved_cache self update_parents w :
  persists self = true →
  cache (saved self update_parents w) = <[cache_key self := _data w]> (cache w)
  ∧ cache_sets (saved self update_parents w)
    = (cache_key self, _data w) :: cache_sets w.
Proof.
  unfold persists, saved, save. destruct (kind self); try discriminate;
    try done. by destruct update_parents.
Qed.

Lemma saved_ghost self update_parents w :
  persists self = false → saved self update_parents w = w.
Proof.
  unfold persists, saved, save. by destruct (kind self).
Qed.

Lemma lookup_before_timestamp items clk d k :
  k ≠ "stats_timestamp" →
  apply_items (items ++ [ ("stats_timestamp", VFloat (monotonic clk)) ]) d !! k
  = apply_items items d !! k.
Proof.
  intros Hk%String.eqb_neq. rewrite String.eqb_sym in Hk.
  rewrite !lookup_apply_items, last_stored_app. cbn [last_stored].
  by rewrite Hk.
Qed.

Lemma lookup_timestamp items clk d :
  apply_items (items ++ [ ("stats_timestamp", VFloat (monotonic clk)) ]) d
    !! "stats_timestamp"
  = Some (VFloat (monotonic clk)).
Proof. by rewrite lookup_apply_items, last_stored_app. Qed.

Section Idempotence.
Context `{States}.

Lemma last_stored_change_items t clk1 clk2 k :
  k ≠ "monthly_changes" ∨ now clk1 = now clk2 →
  last_stored k (change_items t clk1) = last_stored k (change_items t clk2).
Proof.
  intros Hk. unfold change_items.
  destruct (get_last_change_obj t) as [c|]; [|done].
  destruct Hk as [Hk%String.eqb_neq| ->]; [|done].
  rewrite String.eqb_sym in Hk. cbn [last_stored]. by rewrite Hk.
Qed.

Lemma computed_timestamp self clk d d' :
  computed self clk d = Ok d' →
  d' !! "stats_timestamp" = Some (VFloat (monotonic clk)).
Proof.
  unfold computed. cbv zeta. intros Hc.
  destruct (kind self).
  1: { apply Ok_inj in Hc as <-. exact (lookup_timestamp [] clk _). }
  1: { apply Ok_inj in Hc as <-. exact (lookup_timestamp _ clk d). }
  9: { destruct (ghost_stats _ _); [|discriminate Hc]. apply Ok_inj in Hc as <-.
       exact (lookup_timestamp _ clk d). }
  all: destruct (aggregated self); [|discriminate Hc].
  all: destruct (source_items self); [|discriminate Hc].
  all: apply Ok_inj in Hc as <-.
  all: rewrite !app_assoc; exact (lookup_timestamp _ clk d).
Qed.

(** Two computations from the same record under two readings of the clocks
    end alike and leave records that differ at most in the timestamp and,
    when the wall clocks differ, in the monthly changes. *)
Lemma computed_clock self clk1 clk2 d :
  match computed self clk1 d, computed self clk2 d with
  | Ok d1, Ok d2 =>
      ∀ k, k ≠ "stats_timestamp" →
           k ≠ "monthly_changes" ∨ now clk1 = now clk2 →
           d1 !! k = d2 !! k
  | Raise e1, Raise e2 => e1 = e2
  | _, _ => False
  end.
Proof.
  unfold computed. cbv zeta. destruct (kind self) as [|t| | | | | | | | |base].
  1: { intros k Hk _. rewrite !lookup_apply_items. cbn [last_stored].
       apply String.eqb_neq in Hk. rewrite String.eqb_sym in Hk.
       by rewrite Hk. }
  1: { intros k Hk Hm. rewrite !lookup_before_timestamp by done.
       unfold leaf_items. rewrite !lookup_apply_items, !last_stored_app.
       cbn [last_stored].
       by rewrite (last_stored_change_items t clk1 clk2 k Hm). }
  9: { destruct (ghost_stats _ base); [|done]. cbn [mbind res_bind].
       intros k Hk _. by rewrite !lookup_before_timestamp. }
  all: destruct (aggregated _); [|done]; cbn [mbind res_bind].
  all: destruct (source_items _); [|done]; cbn [mbind res_bind].
  all: intros k Hk _; rewrite !app_assoc; by rewrite !lookup_before_timestamp.
Qed.

Lemma clock_eq clk1 clk2 :
  monotonic clk1 = monotonic clk2 → now clk1 = now clk2 → clk1 = clk2.
Proof. destruct clk1, clk2. cbn. by intros -> ->. Qed.

Lemma update_stats_eager fuel self clk update_parents w :
  update_stats (S fuel) self clk false update_parents w
  = match computed self clk ∅ with
    | Ok d' => (Ok tt, saved self update_parents (with_data (Some d') w))
    | Raise e =>
        (Raise e,
         snd (calculate_basic (getattr (S fuel) self clk) self clk
                (with_data (Some ∅) w)))
    end.
Proof.
  unfold update_stats, clear. rewrite bind_modify. rewrite bind_eq.
  destruct (calculate_basic_outcome fuel self clk ∅) as [dp Hdp].
  rewrite Hdp. destruct (computed self clk ∅); [|done].
  apply save_eq.
Qed.

Lemma update_stats_lazy fuel self clk update_parents w :
  update_stats fuel self clk true update_parents w
  = (Ok tt, saved self update_parents (with_data (Some ∅) w)).
Proof. unfold update_stats, clear. rewrite bind_modify. apply save_eq. Qed.

(** C3 (amended).  Two consecutive calls of [update_stats] on unchanged
    content both succeed if the first does, and each persists the record it
    leaves in [_data].  The two records agree on every key other than
    [stats_timestamp], which holds the clock reading of each call, and
    other than [monthly_changes] when the wall clock has moved on between
    the calls; they are the same record in lazy mode (the empty record) and
    whenever both calls read the same clocks. *)
Theorem update_stats_twice fuel self clk1 clk2 lazy up1 up2 w w1 :
  update_stats (S fuel) self clk1 lazy up1 w = (Ok tt, w1) →
  ∃ w2, update_stats (S fuel) self clk2 lazy up2 w1 = (Ok tt, w2)
    ∧ (persists self = true →
       cache w1 !! cache_key self = Some (_data w1)
       ∧ cache w2 !! cache_key self = Some (_data w2))
    ∧ (∀ k, k ≠ "stats_timestamp" →
            k ≠ "monthly_changes" ∨ now clk1 = now clk2 →
            _data w1 ≫= (fun d => d !! k) = _data w2 ≫= (fun d => d !! k))
    ∧ (lazy = true → _data w1 = Some ∅ ∧ _data w2 = Some ∅)
    ∧ (lazy = false →
       _data w1 ≫= (fun d => d !! "stats_timestamp")
         = Some (VFloat (monotonic clk1))
       ∧ _data w2 ≫= (fun d => d !! "stats_timestamp")
         = Some (VFloat (monotonic clk2)))
    ∧ (monotonic clk1 = monotonic clk2 → now clk1 = now clk2 →
       _data w1 = _data w2).
Proof.
  destruct lazy.
  - rewrite !update_stats_lazy. intros [_ <-]%pair_inj.
    eexists. split; [reflexivity|]. rewrite !saved_data. cbn [_data with_data].
    split; [|split; [done|split; [done|split; [done|done]]]].
    intros Hp. split.
    + destruct (saved_cache self up1 (with_data (Some ∅) w) Hp) as [-> _].
      by rewrite lookup_insert_eq.
    + destruct (saved_cache self up2
                  (with_data (Some ∅) (saved self up1 (with_data (Some ∅) w)))
                  Hp) as [-> _].
      by rewrite lookup_insert_eq.
  - rewrite !update_stats_eager.
    pose proof (computed_clock self clk1 clk2 ∅) as Hclock.
    destruct (computed self clk1 ∅) as [d1|e1] eqn:Hd1; [|discriminate].
    destruct (computed self clk2 ∅) as [d2|e2] eqn:Hd2; [|done].
    intros [_ <-]%pair_inj.
    eexists. split; [reflexivity|]. rewrite !saved_data. cbn [_data with_data].
    split; [|split; [|split; [done|split]]].
    + intros Hp. split.
      * destruct (saved_cache self up1 (with_data (Some d1) w) Hp) as [-> _].
        by rewrite lookup_insert_eq.
      * destruct (saved_cache self up2
                    (with_data (Some d2)
                       (saved self up1 (with_data (Some d1) w))) Hp)
          as [-> _].
        by rewrite lookup_insert_eq.
    + intros k Hk Hm. cbn [mbind option_bind]. by apply Hclock.
    + intros _. cbn [mbind option_bind].
      split; by eapply computed_timestamp.
    + intros Hm Hn. rewrite (clock_eq _ _ Hm Hn) in Hd1. congruence.
Qed.

End Idempotence.

Lemma update_stats_twice_witness :
  ∃ w1 w2,
    update_stats 1 list_node noon false true empty_world = (Ok tt, w1)
    ∧ update_stats 1 list_node later false true w1 = (Ok tt, w2)
    ∧ _data w1 ≫= (fun d => d !! "all") = _data w2 ≫= (fun d => d !! "all").
Proof.
  assert (fst (update_stats 1 list_node noon false true empty_world) = Ok tt)
    as Hok by (vm_compute; reflexivity).
  destruct (update_stats 1 list_node noon false true empty_world)
    as [r w1] eqn:Hw1.
  cbn [fst] in Hok. subst r.
  destruct (update_stats_twice 0 list_node noon later false true true
              empty_world w1 Hw1) as (w2 & Hw2 & _ & Hsame & _).
  exists w1, w2. split; [reflexivity|]. split; [exact Hw2|].
  apply Hsame; [done|by left].
Defined.

(** C3, as stated, fails: two calls at clock readings 5 and 6 persist
    records with different timestamps. *)
Lemma second_update_changes_timestamp :
  let w1 := snd (update_stats 1 list_node noon false true empty_world) in
  let w2 := snd (update_stats 1 list_node later false true w1) in
  cache w1 !! "stats-list" ≠ cache w2 !! "stats-list".
Proof.
  intros w1 w2 Heq.
  apply (f_equal (fun slot => slot_value slot "stats_timestamp")) in Heq.
  vm_compute in Heq. discriminate.
Qed.

(** ** Reading a key that is missing *)

Lemma load_eq self w : ∃ l, load self w = (Ok l, w).
Proof. unfold load. destruct (kind self); by eexists. Qed.

Section Misses.
Context `{States}.

(** [__getattr__] up to the test for a missing key. *)
Lemma __getattr___loaded fuel self clk name w d :
  startswith "_" name = false → endswith "_percent" name = false →
  name ≠ "stats_timestamp" →
  _data (after_load self w) = Some d →
  __getattr__ (S fuel) self clk name w
  = (if negb (has name d) then
       was_pending ← gets _pending_save;
       modify (with_pending_save true);;
       calculate_by_name (getattr fuel self clk) self clk name;;
       d ← loaded;
       if negb (has name d)
       then raise (AttributeError "Unsupported stats" name)
       else
         (if negb was_pending
          then save self true;; modify (with_pending_save false)
          else mret tt);;
         d ← loaded;
         lift (index d name)
     else lift (index d name)) (after_load self w).
Proof.
  intros Hu Hp Hts%String.eqb_neq Hd. cbn [__getattr__]. rewrite Hu.
  rewrite bind_gets.
  assert ((match _data w with
           | Some _ => mret ()
           | None => load self ≫= λ l : option record, modify (with_data l)
           end : M unit) w = (Ok tt, after_load self w)) as Hload.
  { unfold after_load. destruct (_data w); [done|].
    destruct (load_eq self w) as [l Hl]. rewrite bind_eq, Hl. reflexivity. }
  rewrite bind_eq, Hload. rewrite Hp, Hts.
  rewrite (bind_loaded _ _ d Hd). reflexivity.
Qed.

(** A miss that the calculator does not fill, as [__getattr__] sees it. *)
Lemma __getattr___unsupported fuel self clk name w d w2 d2 :
  startswith "_" name = false → endswith "_percent" name = false →
  name ≠ "stats_timestamp" →
  _data (after_load self w) = Some d → d !! name = None →
  calculate_by_name (getattr fuel self clk) self clk name
    (with_pending_save true (after_load self w)) = (Ok tt, w2) →
  _data w2 = Some d2 → d2 !! name = None →
  __getattr__ (S fuel) self clk name w
  = (Raise (AttributeError "Unsupported stats" name), w2).
Proof.
  intros Hu Hp Hts Hd Hmiss Hcalc Hd2 Hmiss2.
  rewrite (__getattr___loaded _ _ _ _ _ d) by done.
  unfold has. rewrite Hmiss. cbn [negb].
  rewrite bind_gets, bind_modify, bind_eq, Hcalc.
  rewrite (bind_loaded _ _ d2 Hd2). by rewrite Hmiss2.
Qed.

(** The parts of [plain]. *)
Lemma plain_parts name :
  plain name = true →
  startswith "_" name = false ∧ endswith "_percent" name = false
  ∧ name ≠ "stats_timestamp".
Proof.
  unfold plain. intros Hp.
  repeat (apply andb_prop in Hp as [Hp ?]).
  repeat match goal with H : negb _ = true |- _ => apply negb_true_iff in H end.
  repeat split; try done. by apply String.eqb_neq.
Qed.

(** C9 (amended).  Reading an attribute whose name does not start with an
    underscore, is not a percent key, is not [stats_timestamp] and is not
    one of the [waiting_review] properties, that is missing from the loaded
    record and that the calculator of the node does not populate, is not
    answered: the read raises the unsupported-stats error.  (A name with a
    leading underscore raises the invalid-stats error, [stats_timestamp] is
    answered with the stored value or 0, and the [waiting_review]
    properties are computed from other keys.) *)
Theorem unsupported_stat fuel self clk name w d w2 d2 :
  plain name = true →
  _data (after_load self w) = Some d → d !! name = None →
  calculate_by_name (getattr fuel self clk) self clk name
    (with_pending_save true (after_load self w)) = (Ok tt, w2) →
  _data w2 = Some d2 → d2 !! name = None →
  getattr (S fuel) self clk name w
  = (Raise (AttributeError "Unsupported stats" name), w2).
Proof.
  intros Hplain Hd Hmiss Hcalc Hd2 Hmiss2.
  destruct (plain_parts name Hplain) as (Hu & Hp & Hts).
  unfold getattr at 1. rewrite attribute_plain by done.
  by apply (__getattr___unsupported fuel self clk name w d w2 d2).
Qed.

(** A name with a leading underscore is refused at once. *)
Lemma invalid_stat fuel self clk name w :
  startswith "_" name = true →
  __getattr__ (S fuel) self clk name w
  = (Raise (AttributeError "Invalid stats" name), w).
Proof. intros Hu. cbn [__getattr__]. by rewrite Hu. Qed.

(** A name outside the basic keys and without a check or label prefix is
    populated by no calculator. *)
Lemma calculate_by_name_unknown fuel self clk name w :
  contains (basic_keys self) name = false →
  startswith "check:" name = false → startswith "label:" name = false →
  calculate_by_name (getattr fuel self clk) self clk name w = (Ok tt, w).
Proof.
  intros Hb Hc Hl. unfold calculate_by_name. rewrite Hb, Hc, Hl.
  rewrite bind_mret. by destruct (kind self).
Qed.

Lemma unknown_name_unsupported fuel self clk name w d :
  startswith "_" name = false → endswith "_percent" name = false →
  name ≠ "stats_timestamp" →
  contains (basic_keys self) name = false →
  startswith "check:" name = false → startswith "label:" name = false →
  _data (after_load self w) = Some d → d !! name = None →
  __getattr__ (S fuel) self clk name w
  = (Raise (AttributeError "Unsupported stats" name),
     with_pending_save true (after_load self w)).
Proof.
  intros Hu Hp Hts Hb Hc Hl Hd Hmiss.
  rewrite (__getattr___loaded _ _ _ _ _ d) by done.
  unfold has. rewrite Hmiss. cbn [negb].
  rewrite bind_gets, bind_modify, bind_eq.
  rewrite calculate_by_name_unknown by done.
  rewrite (bind_loaded _ (with_pending_save true (after_load self w)) d Hd).
  by rewrite Hmiss.
Qed.

End Misses.

Lemma unsupported_stat_witness :
  getattr 2 (translation_stats five_units "stats-t") noon "check:bogus"
    empty_world
  = (Raise (AttributeError "Unsupported stats" "check:bogus"),
     snd (calculate_by_name
            (getattr 1 (translation_stats five_units "stats-t") noon)
            (translation_stats five_units "stats-t") noon "check:bogus"
            (with_pending_save true
               (after_load (translation_stats five_units "stats-t")
                  empty_world)))).
Proof.
  assert (fst (calculate_by_name
            (getattr 1 (translation_stats five_units "stats-t") noon)
            (translation_stats five_units "stats-t") noon "check:bogus"
            (with_pending_save true
               (after_load (translation_stats five_units "stats-t")
                  empty_world))) = Ok tt) as Hok by (vm_compute; reflexivity).
  destruct (calculate_by_name _ _ _ _ _) as [r w2] eqn:Hcalc.
  cbn [fst] in Hok. subst r. cbn [snd].
  assert (∃ d2, _data w2 = Some d2 ∧ d2 !! "check:bogus" = None)
    as (d2 & Hd2 & Hmiss2).
  { apply (f_equal snd) in Hcalc. cbn [snd] in Hcalc. subst w2.
    eexists. split; [vm_compute; reflexivity|]. vm_compute. reflexivity. }
  exact (unsupported_stat 1 (translation_stats five_units "stats-t") noon
           "check:bogus" empty_world ∅ w2 d2 eq_refl eq_refl eq_refl Hcalc
           Hd2 Hmiss2).
Defined.

(** C9, as stated, fails at [stats_timestamp]: it is no percent key, no
    calculator populates it, and reading it from an empty record gives 0
    without an error. *)
Lemma timestamp_defaults_to_zero :
  endswith "_percent" "stats_timestamp" = false
  ∧ calculate_by_name (getattr 1 list_node noon) list_node noon
      "stats_timestamp" (with_data (Some ∅) empty_world)
    = (Ok tt, with_data (Some ∅) empty_world)
  ∧ __getattr__ 1 list_node noon "stats_timestamp" empty_world
    = (Ok (VInt 0), with_data (Some ∅) empty_world)
  ∧ getattr 1 list_node noon "stats_timestamp" empty_world
    = (Ok (VInt 0), with_data (Some ∅) empty_world).
Proof. by vm_compute. Qed.

(** ** The saves of one read *)

Lemma world_loaded w d : _data w = Some d → w = with_data (Some d) w.
Proof. intros <-. by rewrite with_data_id. Qed.

Lemma basic_key_no_prefix name :
  contains BASIC_KEYS name = true →
  startswith "check:" name = false ∧ startswith "label:" name = false.
Proof.
  intros Hk%contains_elem. unfold BASIC_KEYS in Hk.
  cbn [map app BASICS CHANGE_KEYS] in Hk.
  repeat (apply elem_of_cons in Hk as [->|Hk]; [by vm_compute|]).
  by apply elem_of_nil in Hk.
Qed.

Lemma after_load_frame self w :
  _pending_save (after_load self w) = _pending_save w
  ∧ cache_sets (after_load self w) = cache_sets w
  ∧ cache (after_load self w) = cache w.
Proof. unfold after_load. by destruct (_data w). Qed.

Section Saves.
Context `{States}.

Lemma store_row_loaded self name stat w d :
  _data w = Some d →
  ∃ d', store_row self name stat w = (Ok tt, with_data (Some d') w).
Proof.
  intros Hd. unfold store_row. eexists.
  rewrite bind_eq. erewrite store_loaded by done.
  rewrite bind_eq. erewrite store_loaded by done.
  erewrite store_loaded by done. by rewrite !with_data_with_data.
Qed.

Lemma store_zero_loaded self name w d :
  _data w = Some d →
  ∃ d', store_zero self name w = (Ok tt, with_data (Some d') w).
Proof.
  intros Hd. unfold store_zero. eexists.
  rewrite bind_eq. erewrite store_loaded by done.
  rewrite bind_eq. erewrite store_loaded by done.
  erewrite store_loaded by done. by rewrite !with_data_with_data.
Qed.

Lemma store_zeros_loaded self names w d :
  _data w = Some d →
  ∃ d', store_zeros self names w = (Ok tt, with_data (Some d') w).
Proof.
  revert w d. induction names as [|name names IH]; intros w d Hd.
  - exists d. cbn. by rewrite <- Hd, with_data_id.
  - cbn [store_zeros]. destruct (store_zero_loaded self name w d Hd) as [d1 H1].
    rewrite bind_eq, H1.
    destruct (IH (with_data (Some d1) w) d1 eq_refl) as [d2 H2].
    exists d2. by rewrite H2, with_data_with_data.
Qed.

Lemma store_check_rows_loaded self rows allchecks w d :
  _data w = Some d →
  ∃ d' rest, store_check_rows self rows allchecks w
             = (Ok rest, with_data (Some d') w).
Proof.
  revert allchecks w d. induction rows as [|stat rows IH]; intros allchecks w d Hd.
  - exists d, allchecks. cbn. by rewrite <- Hd, with_data_id.
  - cbn [store_check_rows]. destruct (row_name stat) as [name|]; [|by eapply IH].
    destruct (store_row_loaded self ("check:" ++ name) stat w d Hd) as [d1 H1].
    rewrite bind_eq, H1.
    destruct (IH (discard ("check:" ++ name) allchecks)
                (with_data (Some d1) w) d1 eq_refl) as (d2 & rest & H2).
    exists d2, rest. by rewrite H2, with_data_with_data.
Qed.

Lemma store_label_rows_loaded self rows alllabels w d :
  _data w = Some d →
  ∃ d' rest, store_label_rows self rows alllabels w
             = (Ok rest, with_data (Some d') w).
Proof.
  revert alllabels w d. induction rows as [|stat rows IH]; intros alllabels w d Hd.
  - exists d, alllabels. cbn. by rewrite <- Hd, with_data_id.
  - cbn [store_label_rows]. destruct (row_name stat) as [name|]; [|by eapply IH].
    destruct (store_row_loaded self ("label:" ++ name) stat w d Hd) as [d1 H1].
    rewrite bind_eq, H1.
    destruct (IH (discard name alllabels)
                (with_data (Some d1) w) d1 eq_refl) as (d2 & rest & H2).
    exists d2, rest. by rewrite H2, with_data_with_data.
Qed.

Lemma calculate_checks_loaded self t w d :
  _data w = Some d →
  ∃ d', calculate_checks self t w
        = (Ok tt, saved self true (with_data (Some d') w)).
Proof.
  intros Hd. unfold calculate_checks.
  destruct (store_check_rows_loaded self (check_stats t) (CHECKS t) w d Hd)
    as (d1 & rest & H1).
  rewrite bind_eq, H1.
  destruct (store_zeros_loaded self rest (with_data (Some d1) w) d1 eq_refl)
    as [d2 H2].
  rewrite bind_eq, H2, with_data_with_data. exists d2. apply save_eq.
Qed.

Lemma calculate_labels_loaded self t w d :
  _data w = Some d →
  ∃ d', calculate_labels self t w
        = (Ok tt, saved self true (with_data (Some d') w)).
Proof.
  intros Hd. unfold calculate_labels.
  destruct (store_label_rows_loaded self
              (label_stats t ++ translation_label_stats t) (label_set t) w d Hd)
    as (d1 & rest & H1).
  rewrite bind_eq, H1.
  destruct (store_zeros_loaded self
              (map (fun name => ("label:" ++ name)%string) rest)
              (with_data (Some d1) w) d1 eq_refl) as [d2 H2].
  rewrite bind_eq, H2, with_data_with_data. exists d2. apply save_eq.
Qed.

(** What [calculate_by_name] does from a loaded record: it raises, or it
    leaves a record and saves it once, or it does nothing. *)
Lemma calculate_by_name_shape fuel self clk name w d :
  _data w = Some d →
  ∃ r w2,
    calculate_by_name (getattr (S fuel) self clk) self clk name w = (r, w2)
    ∧ ((∃ e, r = Raise e ∧ computed self clk d = Raise e)
       ∨ (r = Ok tt ∧ ∃ d', w2 = saved self true (with_data (Some d') w)
          ∧ (contains (basic_keys self) name = true → computed self clk d = Ok d'))
       ∨ (r = Ok tt ∧ w2 = w ∧ contains (basic_keys self) name = false)).
Proof.
  intros Hd. unfold calculate_by_name.
  destruct (contains (basic_keys self) name) eqn:Hbasic.
  - destruct (calculate_basic_outcome fuel self clk d) as [dp Hdp].
    specialize (Hdp w). rewrite <- (world_loaded w d Hd) in Hdp.
    destruct (computed self clk d) as [d'|e] eqn:Hcomp.
    + rewrite bind_eq, bind_eq, Hdp, save_eq.
      assert (match kind self with
              | TranslationStats t =>
                  if startswith "check:" name then calculate_checks self t
                  else if startswith "label:" name
                       then calculate_labels self t else mret ()
              | _ => mret ()
              end = (mret () : M unit)) as ->.
      { unfold basic_keys in Hbasic. destruct (kind self); try reflexivity.
        by destruct (basic_key_no_prefix name Hbasic) as [-> ->]. }
      do 2 eexists. split; [reflexivity|]. right. left. eauto.
    + rewrite bind_eq, bind_eq, Hdp.
      do 2 eexists. split; [reflexivity|]. left. eauto.
  - rewrite bind_mret. destruct (kind self) as [|t| | | | | | | | |];
      try (do 2 eexists; split; [reflexivity|]; right; right; done).
    destruct (startswith "check:" name).
    { destruct self as [knd key].
      destruct (calculate_checks_loaded
                  {| kind := knd; cache_key := key |} t w d Hd) as [d2 Hc2].
      do 2 eexists. split; [exact Hc2|]. right. left. split; [done|].
      exists d2. by split. }
    destruct (startswith "label:" name).
    { destruct self as [knd key].
      destruct (calculate_labels_loaded
                  {| kind := knd; cache_key := key |} t w d Hd) as [d2 Hc2].
      do 2 eexists. split; [exact Hc2|]. right. left. split; [done|].
      exists d2. by split. }
    do 2 eexists. split; [reflexivity|]. right. right. done.
Qed.

Lemma leaf_has_basic t clk d name :
  contains BASIC_KEYS name = true →
  is_Some (apply_items (leaf_items t clk
                        ++ [ ("stats_timestamp", VFloat (monotonic clk)) ]) d
             !! name).
Proof.
  intros Hk%contains_elem.
  assert (name ≠ "stats_timestamp") as Hts.
  { intros ->. by apply timestamp_not_basic. }
  rewrite lookup_before_timestamp by done.
  rewrite lookup_apply_items. unfold leaf_items. rewrite last_stored_app.
  destruct (change_items_shape t clk) as (a & b & r & m & n & -> & _).
  change BASIC_KEYS with
    (MEASURE_KEYS ++ [ "languages"; "last_changed"; "last_author" ]
       ++ CHANGE_KEYS) in Hk.
  apply elem_of_app in Hk as [Hk|Hk].
  - assert (last_stored name
              (("languages", VInt 1)
               :: [ ("last_changed", a); ("last_author", b);
                    ("recent_changes", r); ("monthly_changes", m);
                    ("total_changes", n) ]) = None) as ->.
    { unfold MEASURE_KEYS, BASICS in Hk. cbn [map app] in Hk.
      repeat (apply elem_of_cons in Hk as [->|Hk]; [by vm_compute|]).
      by apply elem_of_nil in Hk. }
    unfold MEASURE_KEYS, BASICS in Hk. cbn [map app] in Hk.
    repeat (apply elem_of_cons in Hk as [->|Hk];
            [lazy [last_stored unit_aggregate String.eqb Ascii.eqb Bool.eqb];
             by eexists|]).
    by apply elem_of_nil in Hk.
  - cbn [app] in Hk. unfold CHANGE_KEYS in Hk.
    repeat (apply elem_of_cons in Hk as [->|Hk];
            [lazy [last_stored String.eqb Ascii.eqb Bool.eqb]; by eexists|]).
    by apply elem_of_nil in Hk.
Qed.

(** The saves of a miss, as [__getattr__] makes them. *)
Lemma __getattr___saves fuel self clk name w d r w' :
  persists self = true →
  startswith "_" name = false → endswith "_percent" name = false →
  name ≠ "stats_timestamp" →
  _data (after_load self w) = Some d → d !! name = None →
  __getattr__ (S (S fuel)) self clk name w = (r, w') →
  (∀ v, r = Ok v →
     ∃ d', _data w' = Some d' ∧ d' !! name = Some v
       ∧ cache_sets w'
         = (if _pending_save w then [] else [ (cache_key self, Some d') ])
           ++ (cache_key self, Some d') :: cache_sets w
       ∧ cache w' !! cache_key self = Some (Some d')
       ∧ _pending_save w' = _pending_save w)
  ∧ (∀ t, kind self = TranslationStats t →
          contains BASIC_KEYS name = true → ∃ v, r = Ok v).
Proof.
  intros Hpers Hu Hp Hts Hd Hmiss.
  rewrite (__getattr___loaded _ _ _ _ _ d) by done.
  unfold has at 1. rewrite Hmiss. cbn [negb].
  destruct (after_load_frame self w) as (Hpend & Hsets & Hcache).
  set (w0 := after_load self w) in *.
  rewrite bind_gets, bind_modify, bind_eq.
  destruct (calculate_by_name_shape fuel self clk name
              (with_pending_save true w0) d Hd)
    as (rc & w2 & Hcalc & Hshape).
  rewrite Hcalc.
  destruct Hshape as [(e & -> & Hraise)|[(-> & d' & -> & Hcomp)|(-> & -> & Hnb)]].
  - (* the calculator raises *)
    intros [<- _]%pair_inj. split; [done|].
    intros t Hkind Hbasic. exfalso. unfold computed in Hraise.
    rewrite Hkind in Hraise. discriminate.
  - (* the calculator leaves d' and saves it *)
    assert (_data (saved self true (with_data (Some d')
                                      (with_pending_save true w0))) = Some d')
      as Hd' by (by rewrite saved_data).
    rewrite (bind_loaded _ _ d' Hd').
    destruct (saved_cache self true
                (with_data (Some d') (with_pending_save true w0)) Hpers)
      as [Hc1 Hs1]. cbn [_data with_data cache cache_sets with_pending_save]
      in Hc1, Hs1.
    unfold has. destruct (d' !! name) as [v|] eqn:Hv; cbn [negb].
    + (* the key is there now *)
      rewrite Hpend. destruct (_pending_save w) eqn:Hwas; cbn [negb].
      * rewrite bind_mret, (bind_loaded _ _ d' Hd').
        unfold index. rewrite Hv. rewrite lift_eq.
        intros [<- <-]%pair_inj. split; [|eauto].
        intros v' [= <-]. exists d'. split; [done|]. split; [done|].
        rewrite Hs1, Hc1, Hsets, lookup_insert_eq, saved_pending.
        by cbn.
      * rewrite bind_eq, bind_eq, save_eq, modify_eq.
        assert (_data (with_pending_save false
                         (saved self true
                            (saved self true
                               (with_data (Some d')
                                  (with_pending_save true w0))))) = Some d')
          as Hd'' by (cbn [_data with_pending_save]; by rewrite !saved_data).
        rewrite (bind_loaded _ _ d' Hd'').
        unfold index. rewrite Hv. rewrite lift_eq.
        intros [<- <-]%pair_inj. split; [|eauto].
        intros v' [= <-]. exists d'. split; [done|]. split; [done|].
        destruct (saved_cache self true
                    (saved self true
                       (with_data (Some d') (with_pending_save true w0))) Hpers)
          as [Hc2 Hs2].
        cbn [_data cache cache_sets _pending_save with_pending_save].
        rewrite Hs2, Hc2, Hs1, saved_data, Hsets, lookup_insert_eq.
        by cbn.
    + (* the calculator did not populate the key *)
      rewrite raise_eq. intros [<- _]%pair_inj. split; [done|].
      intros t Hkind Hbasic. exfalso.
      assert (contains (basic_keys self) name = true) as Hb.
      { unfold basic_keys. by rewrite Hkind. }
      specialize (Hcomp Hb). unfold computed in Hcomp. rewrite Hkind in Hcomp.
      apply Ok_inj in Hcomp. subst d'.
      destruct (leaf_has_basic t clk d name Hbasic) as [v Hv'].
      cbv zeta in Hv. congruence.
  - (* no calculator for the name *)
    rewrite (bind_loaded _ (with_pending_save true w0) d Hd).
    unfold has. rewrite Hmiss. cbn [negb].
    rewrite raise_eq. intros [<- _]%pair_inj. split; [done|].
    intros t Hkind Hbasic. unfold basic_keys in Hnb. rewrite Hkind in Hnb.
    congruence.
Qed.

(** C4 (amended).  When a read of a name that reaches the record misses
    the loaded record and succeeds, the record it returns from is in the
    cache slot of the object, and that slot has been written by the
    calculator, once, and by the guard in [__getattr__], once and last,
    unless a save was already pending when the read began (a nested miss),
    in which case the guard does not write and leaves [_pending_save] set.
    So the outermost miss persists the final record of the object twice,
    not once.  On a translation a missing basic key is always answered. *)
Theorem guarded_save fuel self clk name w d r w' :
  persists self = true → plain name = true →
  _data (after_load self w) = Some d → d !! name = None →
  getattr (S (S fuel)) self clk name w = (r, w') →
  (∀ v, r = Ok v →
     ∃ d', _data w' = Some d' ∧ d' !! name = Some v
       ∧ sets_of (cache_key self) w'
         = (if _pending_save w then [] else [ Some d' ])
           ++ Some d' :: sets_of (cache_key self) w
       ∧ cache w' !! cache_key self = Some (Some d')
       ∧ _pending_save w' = _pending_save w)
  ∧ (∀ t, kind self = TranslationStats t →
          contains BASIC_KEYS name = true → ∃ v, r = Ok v).
Proof.
  intros Hpers Hplain Hd Hmiss.
  destruct (plain_parts name Hplain) as (Hu & Hp & Hts).
  unfold getattr. rewrite attribute_plain by done. intros Hrun.
  destruct (__getattr___saves fuel self clk name w d r w' Hpers Hu Hp Hts Hd
              Hmiss Hrun) as [Hsaves Hleaf].
  split; [|exact Hleaf].
  intros v Hv. destruct (Hsaves v Hv) as (d' & Hd' & Hval & Hsets & Hslot & Hpend).
  exists d'. split; [exact Hd'|]. split; [exact Hval|].
  split; [|by split].
  unfold sets_of. rewrite Hsets.
  destruct (_pending_save w); cbn [app List.filter fst snd map];
    by rewrite String.eqb_refl.
Qed.

End Saves.

Lemma guarded_save_witness :
  fst (getattr 2 list_node noon "all" empty_world) = Ok (VInt 7)
  ∧ ∃ d', sets_of "stats-list" (snd (getattr 2 list_node noon "all" empty_world))
          = [ Some d'; Some d' ].
Proof.
  assert (fst (getattr 2 list_node noon "all" empty_world) = Ok (VInt 7))
    as Hok by (vm_compute; reflexivity).
  split; [exact Hok|].
  destruct (getattr 2 list_node noon "all" empty_world) as [r w'] eqn:Hrun.
  cbn [fst] in Hok. subst r.
  destruct (guarded_save 0 list_node noon "all" empty_world ∅ (Ok (VInt 7)) w'
              eq_refl eq_refl eq_refl eq_refl Hrun)
    as [Hsaves _].
  destruct (Hsaves (VInt 7) eq_refl) as (d' & _ & _ & Hsets & _).
  exists d'. exact Hsets.
Defined.

(** C4, as stated, fails: one read of a missing basic key, with no save
    pending, writes the cache twice. *)
Lemma one_miss_two_saves :
  _pending_save empty_world = false
  ∧ fst (__getattr__ 2 list_node noon "all" empty_world) = Ok (VInt 7)
  ∧ List.length (cache_sets (snd (__getattr__ 2 list_node noon "all"
                                    empty_world))) = 2%nat.
Proof. by vm_compute. Qed.

(** ** update_parents *)

Lemma dict_setitem_keys {V} k (v : V) d :
  map fst (dict_setitem k v d)
  = if contains (map fst d) k then map fst d else map fst d ++ [k].
Proof.
  induction d as [|[k' v'] d IH]; [done|].
  cbn [dict_setitem map fst]. rewrite contains_cons, (String.eqb_sym k k').
  destruct (String.eqb_spec k' k) as [->|Hne]; cbn [orb map fst]; [done|].
  rewrite IH. by destruct (contains (map fst d) k).
Qed.








Lemma filter_true_id {A} (l : list A) : List.filter (fun _ => true) l = l.
Proof. induction l as [|x l IH]; [done|]. cbn. by rewrite IH. Qed.

Section Parents.
Context `{States}.



End Parents.




(** The order in which the ancestors of a translation are visited: the
    global node comes second, before the component and the project. *)
Example translation_update_order :
  first_occurrences
    (map key_of (translation_update_objects (named "stats-global")
                   sample_translation))
  = [ "stats-language"; "stats-global"; "stats-component"; "stats-project";
      "stats-project-language" ].
Proof. reflexivity. Qed.
(** * Further properties of the statistics objects *)

(** ** Reads, saves and loads *)

Lemma after_load_loaded self w d : _data w = Some d → after_load self w = w.
Proof. unfold after_load. by intros ->. Qed.

Lemma after_load_cached self w r :
  _data w = None → persists self = true →
  cache w !! cache_key self = Some r → after_load self w = with_data r w.
Proof.
  unfold after_load, persists, load. intros -> Hp Hc.
  destruct (kind self); try done; cbn; by rewrite Hc.
Qed.

Lemma after_load_missing self w :
  _data w = None → cache w !! cache_key self = None →
  after_load self w = with_data (Some ∅) w.
Proof.
  unfold after_load, load. intros -> Hc.
  destruct (kind self); cbn; by rewrite ?Hc.
Qed.

Section Protocol.
Context `{States}.

Lemma getattr_after_load fuel self clk name w d v :
  plain name = true → _data (after_load self w) = Some d → d !! name = Some v →
  getattr (S fuel) self clk name w = (Ok v, after_load self w).
Proof.
  intros Hp Hd Hv. unfold getattr. rewrite attribute_plain by done.
  destruct (plain_parts name Hp) as (Hu & Hpc & Hts).
  rewrite (__getattr___loaded fuel self clk name w d) by done.
  unfold has, index. rewrite Hv. cbn [negb]. by mstep.
Qed.

Lemma getattr_timestamp fuel self clk w d :
  _data (after_load self w) = Some d →
  getattr (S fuel) self clk "stats_timestamp" w
  = (Ok (dict_get d "stats_timestamp" (VInt 0)), after_load self w).
Proof.
  intros Hd. unfold getattr.
  change (attribute (__getattr__ (S fuel) self clk) "stats_timestamp")
    with (__getattr__ (S fuel) self clk "stats_timestamp").
  cbn [__getattr__].
  change (startswith "_" "stats_timestamp") with false.
  change (endswith "_percent" "stats_timestamp") with false.
  change ("stats_timestamp" =? "stats_timestamp")%string with true.
  cbn match. rewrite bind_gets.
  assert ((match _data w with
           | Some _ => mret ()
           | None => load self ≫= λ l : option record, modify (with_data l)
           end : M unit) w = (Ok tt, after_load self w)) as Hload.
  { unfold after_load. destruct (_data w); [done|].
    destruct (load_eq self w) as [l Hl]. rewrite bind_eq, Hl. reflexivity. }
  by rewrite bind_eq, Hload, bind_gets, Hd.
Qed.

Lemma getattr_held fuel self clk name w d v :
  held name = true → _data (after_load self w) = Some d → d !! name = Some v →
  getattr (S fuel) self clk name w = (Ok v, after_load self w).
Proof.
  intros Hheld Hd Hv.
  destruct (String.eqb_spec name "stats_timestamp") as [->|Hts].
  - rewrite (getattr_timestamp fuel self clk w d Hd).
    unfold dict_get. by rewrite Hv.
  - apply (getattr_after_load fuel self clk name w d v); try done.
    unfold held in Hheld. unfold plain.
    apply andb_prop in Hheld as [[-> ->]%andb_prop ->].
    apply String.eqb_neq in Hts. by rewrite Hts.
Qed.

(** X1.  A read of a name the record holds is answered from the record,
    when the name does not start with an underscore, does not end in
    [_percent] and is not a [waiting_review] property: the value is
    returned and nothing is computed or written.  When the object has not
    loaded its record yet, the record is taken from the cache and kept; the
    cache itself is left as it is. *)
Theorem read_hit fuel self clk name w d v :
  held name = true → d !! name = Some v →
  (_data w = Some d → getattr (S fuel) self clk name w = (Ok v, w))
  ∧ (_data w = None → persists self = true →
     cache w !! cache_key self = Some (Some d) →
     getattr (S fuel) self clk name w = (Ok v, with_data (Some d) w)).
Proof.
  intros Hp Hv. split.
  - intros Hd. rewrite <- (after_load_loaded self w d Hd) at 2.
    apply (getattr_held fuel self clk name w d v); try done.
    by rewrite (after_load_loaded self w d Hd).
  - intros Hd Hper Hc.
    rewrite <- (after_load_cached self w (Some d) Hd Hper Hc).
    apply (getattr_held fuel self clk name w d v); try done.
    by rewrite (after_load_cached self w (Some d) Hd Hper Hc).
Qed.

(** X2.  What one object saves, another object with the same cache key
    reads back: after [save], an object that has loaded nothing and shares
    the cache answers with the saved value every key of the saved record
    whose name does not start with an underscore, does not end in
    [_percent] and is not a [waiting_review] property, without computing
    and without writing. *)
Theorem save_then_read fuel self other clk name update_parents w d v w' :
  persists self = true → persists other = true →
  cache_key other = cache_key self →
  held name = true → _data w = Some d → d !! name = Some v →
  _data w' = None → cache w' = cache (saved self update_parents w) →
  getattr (S fuel) other clk name w' = (Ok v, with_data (Some d) w').
Proof.
  intros Hs Ho Hk Hp Hd Hv Hd' Hc.
  assert (cache w' !! cache_key other = Some (Some d)) as Hslot.
  { rewrite Hc, Hk. destruct (saved_cache self update_parents w Hs) as [-> _].
    by rewrite lookup_insert_eq, Hd. }
  rewrite <- (after_load_cached other w' (Some d) Hd' Ho Hslot).
  apply (getattr_held fuel other clk name w' d v); try done.
  by rewrite (after_load_cached other w' (Some d) Hd' Ho Hslot).
Qed.

(** X3.  [store] on an object that has loaded nothing loads first: the key
    is written into the cached record, whose other keys stay; without a
    cached record it is written into an empty one, and a cache slot that
    holds [None] makes the store fail.  The cache is not written. *)
Theorem store_on_unloaded self key v w :
  _data w = None → persists self = true →
  (∀ r, cache w !! cache_key self = Some (Some r) →
        store self key v w
        = (Ok tt, with_data (Some (<[key := stored key v]> r)) w))
  ∧ (cache w !! cache_key self = None →
     store self key v w
     = (Ok tt, with_data (Some (<[key := stored key v]> ∅)) w))
  ∧ (cache w !! cache_key self = Some None →
     store self key v w = (Raise TypeError, w)).
Proof.
  intros Hd Hp. unfold persists in Hp.
  assert (load self w
          = (Ok (match cache w !! cache_key self with
                 | Some v => v
                 | None => Some ∅
                 end), w)) as Hload.
  { unfold load. by destruct (kind self). }
  unfold store. rewrite bind_gets, Hd, bind_eq, bind_eq, Hload. mstep.
  repeat split.
  - intros r ->. by destruct w.
  - intros ->. by destruct w.
  - intros ->. destruct w; cbn in *; by subst.
Qed.

End Protocol.

Lemma read_hit_witness :
  getattr 1 list_node noon "all" cached_world
  = (Ok (VInt 7), with_data (Some cached_record) cached_world).
Proof.
  by apply (read_hit 0 list_node noon "all" cached_world cached_record
              (VInt 7)).
Defined.

Lemma save_then_read_witness :
  getattr 1 list_node noon "all"
    (with_data None (saved list_node true
                       (with_data (Some cached_record) empty_world)))
  = (Ok (VInt 7),
     with_data (Some cached_record)
       (with_data None (saved list_node true
                          (with_data (Some cached_record) empty_world)))).
Proof.
  by apply (save_then_read 0 list_node list_node noon "all" true
              (with_data (Some cached_record) empty_world) cached_record).
Defined.

Lemma store_on_unloaded_witness :
  store list_node "all" VNone cached_world
  = (Ok tt, with_data (Some (<["all" := VInt 0]> cached_record)) cached_world).
Proof.
  by apply (store_on_unloaded list_node "all" VNone cached_world).
Defined.
(** ** What update_stats leaves behind *)

Lemma saved_on_commit self update_parents w :
  on_commit (saved self update_parents w)
  = if update_parents && schedules_parents self
    then S (on_commit w) else on_commit w.
Proof.
  unfold saved, save, schedules_parents, base_save.
  destruct (kind self), update_parents; reflexivity.
Qed.

Lemma saved_cache_sets self update_parents w :
  cache_sets (saved self update_parents w)
  = if persists self then (cache_key self, _data w) :: cache_sets w
    else cache_sets w.
Proof.
  unfold saved, save, persists, base_save.
  destruct (kind self), update_parents; reflexivity.
Qed.

Lemma last_stored_elem k items :
  k ∈ items.*1 → is_Some (last_stored k items).
Proof.
  induction items as [|[k' v] items IH]; cbn [fmap list_fmap fst last_stored].
  - by intros ?%elem_of_nil.
  - intros [->|Hin]%elem_of_cons.
    + destruct (last_stored k' items); [by eexists|].
      rewrite String.eqb_refl. by eexists.
    + destruct (IH Hin) as [v' ->]. by eexists.
Qed.

Lemma is_Some_apply_items k items d :
  is_Some (apply_items items d !! k) ↔ k ∈ items.*1 ∨ is_Some (d !! k).
Proof.
  rewrite lookup_apply_items. split.
  - destruct (last_stored k items) eqn:Hl; [|by right].
    intros _. left. destruct (decide (k ∈ items.*1)) as [|Hn]; [done|].
    by rewrite (last_stored_absent k items Hn) in Hl.
  - intros [Hin|Hd].
    + destruct (last_stored_elem k items Hin) as [v ->]. by eexists.
    + by destruct (last_stored k items).
Qed.

Lemma same_elements_spec xs ys :
  same_elements xs ys = true → ∀ k, k ∈ xs ↔ k ∈ ys.
Proof.
  unfold same_elements. intros [Hxy Hyx]%andb_prop k.
  rewrite forallb_forall in Hxy, Hyx.
  split; intros Hin%list_elem_of_In.
  - by apply contains_elem, Hxy.
  - by apply contains_elem, Hyx.
Qed.

(** The keys of a record under aggregation. *)
Lemma aggregate_keys_kept stats item c stats' :
  is_Some (stats !! "last_author") →
  aggregate stats item c = Ok stats' →
  ∀ k, is_Some (stats' !! k) ↔ is_Some (stats !! k).
Proof.
  intros Ha. unfold aggregate, index.
  assert (∀ key (v v' : value) (d : record) k,
            d !! key = Some v →
            (is_Some (<[key := v']> d !! k) ↔ is_Some (d !! k))) as Hsame.
  { intros key v v' d k Hkey. destruct (decide (key = k)) as [<-|Hne].
    - rewrite lookup_insert_eq, Hkey. split; by eexists.
    - by rewrite lookup_insert_ne. }
  destruct (String.eqb item "stats_timestamp").
  { destruct (stats !! item) as [cur|] eqn:Hcur; [|done]. cbn.
    destruct (attr c item); [|done]. cbn.
    destruct (py_max cur a); [|done]. cbn.
    intros <-%Ok_inj k. by eapply Hsame. }
  destruct (String.eqb item "last_changed").
  { destruct (stats !! "last_changed") as [last|] eqn:Hlast; [|done]. cbn.
    destruct (attr c "last_changed") as [theirs|]; [|done]. cbn.
    destruct (if truthy theirs
              then if negb (truthy last) then Ok true else py_lt last theirs
              else Ok false) as [[|]|]; cbn; [| |done].
    - destruct (attr c "last_author"); [|done]. cbn.
      intros <-%Ok_inj k. destruct Ha as [a' Ha].
      rewrite (Hsame "last_author" a'); [by eapply Hsame|].
      by rewrite lookup_insert_ne.
    - by intros <-%Ok_inj. }
  destruct (negb (String.eqb item "last_author")).
  - destruct (stats !! item) as [cur|] eqn:Hcur; [|done]. cbn.
    destruct (attr c item); [|done]. cbn.
    destruct (py_add cur a); [|done]. cbn.
    intros <-%Ok_inj k. by eapply Hsame.
  - by intros <-%Ok_inj.
Qed.

Lemma aggregate_keys_keys_kept keys c stats stats' :
  is_Some (stats !! "last_author") →
  aggregate_keys keys c stats = Ok stats' →
  ∀ k, is_Some (stats' !! k) ↔ is_Some (stats !! k).
Proof.
  revert stats. induction keys as [|item keys IH]; intros stats Ha;
    cbn [aggregate_keys].
  - by intros <-%Ok_inj.
  - destruct (aggregate stats item c) as [s1|] eqn:H1; cbn [mbind res_bind];
      [|done].
    intros H2 k. rewrite (IH s1); [by eapply aggregate_keys_kept| |done].
    by eapply aggregate_keys_kept.
Qed.

Lemma add_attr_keys_kept stats key c name stats' :
  add_attr stats key c name = Ok stats' →
  ∀ k, is_Some (stats' !! k) ↔ is_Some (stats !! k).
Proof.
  unfold add_attr, index.
  destruct (stats !! key) as [cur|] eqn:Hcur; [|done]. cbn.
  destruct (attr c name); [|done]. cbn.
  destruct (py_add cur a); [|done]. cbn.
  intros <-%Ok_inj k. destruct (decide (key = k)) as [<-|Hne].
  - rewrite lookup_insert_eq, Hcur. split; by eexists.
  - by rewrite lookup_insert_ne.
Qed.

Lemma calculate_source_keys_kept self c stats stats' :
  is_Some (stats !! "last_author") →
  calculate_source self c stats = Ok stats' →
  ∀ k, is_Some (stats' !! k) ↔ is_Some (stats !! k).
Proof.
  intros Ha. unfold calculate_source.
  assert (∀ a b d, (stats1 ← add_attr stats "source_chars" c a;
                    stats2 ← add_attr stats1 "source_words" c b;
                    add_attr stats2 "source_strings" c d) = Ok stats' →
          ∀ k, is_Some (stats' !! k) ↔ is_Some (stats !! k)) as Hadd.
  { intros a b d.
    destruct (add_attr stats "source_chars" c a) as [s1|] eqn:H1;
      cbn [mbind res_bind]; [|done].
    destruct (add_attr s1 "source_words" c b) as [s2|] eqn:H2;
      cbn [mbind res_bind]; [|done].
    intros H3 k.
    rewrite (add_attr_keys_kept _ _ _ _ _ H3).
    rewrite (add_attr_keys_kept _ _ _ _ _ H2).
    by eapply add_attr_keys_kept. }
  assert ((stats1 ← aggregate stats "source_chars" c;
           stats2 ← aggregate stats1 "source_words" c;
           aggregate stats2 "source_strings" c) = Ok stats' →
          ∀ k, is_Some (stats' !! k) ↔ is_Some (stats !! k)) as Hagg.
  { destruct (aggregate stats "source_chars" c) as [s1|] eqn:H1;
      cbn [mbind res_bind]; [|done].
    destruct (aggregate s1 "source_words" c) as [s2|] eqn:H2;
      cbn [mbind res_bind]; [|done].
    intros H3 k.
    pose proof (aggregate_keys_kept _ _ _ _ Ha H1) as K1.
    assert (is_Some (s1 !! "last_author")) as Ha1 by by apply K1.
    pose proof (aggregate_keys_kept _ _ _ _ Ha1 H2) as K2.
    assert (is_Some (s2 !! "last_author")) as Ha2 by by apply K2.
    rewrite (aggregate_keys_kept _ _ _ _ Ha2 H3), K2. apply K1. }
  destruct (kind self); try apply Hadd; try apply Hagg.
  by intros <-%Ok_inj.
Qed.

Lemma aggregate_objects_keys_kept self objects stats stats' :
  is_Some (stats !! "last_author") →
  aggregate_objects self objects stats = Ok stats' →
  ∀ k, is_Some (stats' !! k) ↔ is_Some (stats !! k).
Proof.
  revert stats. induction objects as [|c objects IH]; intros stats Ha;
    cbn [aggregate_objects].
  - by intros <-%Ok_inj.
  - destruct (aggregate_keys BASIC_KEYS c stats) as [s1|] eqn:H1;
      cbn [mbind res_bind]; [|done].
    destruct (calculate_source self c s1) as [s2|] eqn:H2;
      cbn [mbind res_bind]; [|done].
    intros H3 k.
    pose proof (aggregate_keys_keys_kept _ _ _ _ Ha H1) as K1.
    assert (is_Some (s1 !! "last_author")) as Ha1 by by apply K1.
    pose proof (calculate_source_keys_kept _ _ _ _ Ha1 H2) as K2.
    assert (is_Some (s2 !! "last_author")) as Ha2 by by apply K2.
    rewrite (IH s2 Ha2 H3), K2. apply K1.
Qed.

Lemma aggregate_categories_keys_kept self categories stats stats' :
  is_Some (stats !! "last_author") →
  aggregate_categories self categories stats = Ok stats' →
  ∀ k, is_Some (stats' !! k) ↔ is_Some (stats !! k).
Proof.
  revert stats. induction categories as [|c categories IH]; intros stats Ha;
    cbn [aggregate_categories].
  - by intros <-%Ok_inj.
  - destruct (aggregate_keys (basic_keys self) c stats) as [s1|] eqn:H1;
      cbn [mbind res_bind]; [|done].
    intros H3 k.
    pose proof (aggregate_keys_keys_kept _ _ _ _ Ha H1) as K1.
    assert (is_Some (s1 !! "last_author")) as Ha1 by by apply K1.
    rewrite (IH s1 Ha1 H3). apply K1.
Qed.

Lemma zero_stats_keys keys k :
  is_Some (zero_stats keys !! k)
  ↔ k ∈ keys ∨ k = "last_changed" ∨ k = "last_author" ∨ k = "stats_timestamp".
Proof.
  unfold zero_stats.
  destruct (decide (k = "stats_timestamp")) as [->|H1].
  { rewrite lookup_insert_eq. split; [auto|by eexists]. }
  rewrite lookup_insert_ne by done.
  destruct (decide (k = "last_author")) as [->|H2].
  { rewrite lookup_insert_eq. split; [auto|by eexists]. }
  rewrite lookup_insert_ne by done.
  destruct (decide (k = "last_changed")) as [->|H3].
  { rewrite lookup_insert_eq. split; [auto|by eexists]. }
  rewrite lookup_insert_ne by done.
  rewrite lookup_zero_list. destruct (contains keys k) eqn:Hc.
  - apply contains_elem in Hc. split; [auto|by eexists].
  - apply contains_not_elem in Hc. split; [by intros [? ?]|].
    intros [?|[?|[?|?]]]; done.
Qed.

Lemma last_keys_basic :
  "last_changed" ∈ BASIC_KEYS ∧ "last_author" ∈ BASIC_KEYS
  ∧ "languages" ∈ BASIC_KEYS.
Proof. repeat split; by apply contains_elem. Qed.

Lemma basic_in_basic_keys self k : k ∈ BASIC_KEYS → k ∈ basic_keys self.
Proof.
  unfold basic_keys. destruct (kind self); try done; apply BASIC_in_SOURCE.
Qed.

Lemma zero_stats_basic_keys self k :
  is_Some (zero_stats (basic_keys self) !! k)
  ↔ k ∈ basic_keys self ∨ k = "stats_timestamp".
Proof.
  rewrite zero_stats_keys. destruct last_keys_basic as (Hc & Ha & _).
  split; [|intros [?|?]; auto].
  intros [?|[->|[->|?]]]; auto using basic_in_basic_keys.
Qed.

Section Rebuild.
Context `{States}.

Lemma aggregated_keys self stats k :
  aggregated self = Ok stats →
  is_Some (stats !! k) ↔ k ∈ basic_keys self ∨ k = "stats_timestamp".
Proof.
  unfold aggregated.
  destruct (aggregate_objects self _ _) as [s1|] eqn:H1;
    cbn [mbind res_bind]; [|done].
  intros H2.
  assert (is_Some (zero_stats (basic_keys self) !! "last_author")) as Ha.
  { apply zero_stats_keys. auto. }
  pose proof (aggregate_objects_keys_kept _ _ _ _ Ha H1) as K1.
  assert (is_Some (s1 !! "last_author")) as Ha1 by by apply K1.
  rewrite (aggregate_categories_keys_kept _ _ _ _ Ha1 H2), K1.
  apply zero_stats_basic_keys.
Qed.

Lemma ghost_stats_keys self base stats k :
  basic_keys self = SOURCE_KEYS →
  ghost_stats self base = Ok stats →
  is_Some (stats !! k) ↔ k ∈ basic_keys self ∨ k = "stats_timestamp".
Proof.
  intros Hb. unfold ghost_stats. destruct base as [base|].
  - destruct (attr base "all") as [a|]; cbn [mbind res_bind]; [|done].
    destruct (attr base "all_words") as [aw|]; cbn [mbind res_bind]; [|done].
    destruct (attr base "all_chars") as [ac|]; cbn [mbind res_bind]; [|done].
    unfold index.
    rewrite lookup_insert_ne, lookup_insert_ne, lookup_insert_eq by done.
    cbn [mbind res_bind].
    rewrite lookup_insert_ne, lookup_insert_ne, lookup_insert_eq by done.
    cbn [mbind res_bind].
    rewrite lookup_insert_ne, lookup_insert_ne, lookup_insert_eq by done.
    cbn [mbind res_bind].
    intros <-%Ok_inj. rewrite !lookup_insert_is_Some'.
    rewrite zero_stats_basic_keys, Hb.
    split; [|tauto].
    intros [<-|[<-|[<-|[<-|[<-|[<-|?]]]]]]; try done;
      left; by apply contains_elem.
  - intros <-%Ok_inj. apply zero_stats_basic_keys.
Qed.

Lemma leaf_items_keys t clk :
  same_elements ((leaf_items t clk).*1) BASIC_KEYS = true.
Proof.
  unfold leaf_items. rewrite fmap_app, fmap_cons.
  destruct (change_items_shape t clk) as (a & b & r & m & n & -> & _).
  reflexivity.
Qed.

Lemma source_items_keys self src k :
  source_items self = Ok src → k ∈ src.*1 → k ∈ SOURCE_ONLY.
Proof.
  unfold source_items. destruct (kind self) as [| | |? ? [c|]| | | | | | |];
    try (intros <-%Ok_inj; by intros ?%elem_of_nil).
  - destruct (attr c "all_chars"); [|done]. cbn.
    destruct (attr c "all_words"); [|done]. cbn.
    destruct (attr c "all"); [|done]. cbn.
    intros <-%Ok_inj. cbn. intros Hin. apply contains_elem.
    repeat (apply elem_of_cons in Hin as [->|Hin]; [done|]).
    by apply elem_of_nil in Hin.
  - intros <-%Ok_inj. cbn. intros Hin. apply contains_elem.
    repeat (apply elem_of_cons in Hin as [->|Hin]; [done|]).
    by apply elem_of_nil in Hin.
Qed.

Lemma languages_items_keys self k :
  k ∈ (languages_items self).*1 → k = "languages".
Proof.
  unfold languages_items. destruct (kind self); cbn;
    try (by intros ?%elem_of_nil); by intros ->%list_elem_of_singleton.
Qed.

Lemma elem_of_map_to_list_keys (m : record) k :
  k ∈ (map_to_list m).*1 ↔ is_Some (m !! k).
Proof.
  rewrite list_elem_of_fmap. split.
  - intros [[k' v] [-> Hin%elem_of_map_to_list]]. by eexists.
  - intros [v Hv]. exists (k, v). split; [done|]. by apply elem_of_map_to_list.
Qed.

(** The keys of the record [calculate_basic] builds from the empty one. *)
Lemma computed_keys self clk d' k :
  computed self clk ∅ = Ok d' →
  is_Some (d' !! k) ↔ k ∈ basic_keys self ∨ k = "stats_timestamp".
Proof.
  unfold computed.
  assert (∀ items,
            (∀ k, k ∈ items.*1 → k ∈ basic_keys self ∨ k = "stats_timestamp") →
            (∀ k, k ∈ basic_keys self → k ∈ items.*1) →
            is_Some (apply_items
                       (items
                        ++ [ ("stats_timestamp", VFloat (monotonic clk)) ])
                       ∅ !! k)
            ↔ k ∈ basic_keys self ∨ k = "stats_timestamp") as Hitems.
  { intros items Hsub Hsup. rewrite is_Some_apply_items, fmap_app.
    rewrite elem_of_app, lookup_empty.
    change ([("stats_timestamp", VFloat (monotonic clk))].*1)
      with ["stats_timestamp"].
    rewrite list_elem_of_singleton. split.
    - intros [[Hin|?]|[? ?]]; auto; done.
    - intros [Hin|?]; auto. }
  destruct (kind self) eqn:Hk.
  1: { intros <-%Ok_inj. rewrite is_Some_apply_items.
       change ([("stats_timestamp", VFloat (monotonic clk))].*1)
         with ["stats_timestamp"].
       rewrite list_elem_of_singleton, zero_stats_basic_keys. tauto. }
  1: { intros <-%Ok_inj.
       pose proof (same_elements_spec _ _ (leaf_items_keys translation clk))
         as Hsame.
       assert (basic_keys self = BASIC_KEYS) as Hb
         by (unfold basic_keys; by rewrite Hk).
       apply Hitems; intros k'; rewrite Hb, Hsame; auto. }
  9: { destruct (ghost_stats self base) as [stats|] eqn:Hg;
         cbn [mbind res_bind]; [|done].
       intros <-%Ok_inj.
       assert (basic_keys self = SOURCE_KEYS) as Hb
         by (unfold basic_keys; by rewrite Hk).
       apply Hitems; intros k'; rewrite elem_of_map_to_list_keys,
         (ghost_stats_keys self base stats k' Hb Hg); auto. }
  all: destruct (aggregated self) as [stats|] eqn:Hagg;
         cbn [mbind res_bind]; [|done].
  all: destruct (source_items self) as [src|] eqn:Hsrc;
         cbn [mbind res_bind]; [|done].
  all: intros <-%Ok_inj.
  all: assert (basic_keys self = SOURCE_KEYS) as Hb
         by (unfold basic_keys; by rewrite Hk).
  all: rewrite !app_assoc.
  all: apply Hitems; intros k'; rewrite !fmap_app, !elem_of_app,
         elem_of_map_to_list_keys, (aggregated_keys self stats k' Hagg).
  all: try (intros [[?|Hs]|Hl]; [done| |]).
  all: try (left; rewrite Hb; apply SOURCE_ONLY_in_SOURCE;
            by eapply source_items_keys).
  all: try (apply languages_items_keys in Hl as ->; left;
            apply basic_in_basic_keys, last_keys_basic).
  all: auto.
Qed.

Lemma computed_translation self clk d t :
  kind self = TranslationStats t → ∃ d', computed self clk d = Ok d'.
Proof. unfold computed. intros ->. by eexists. Qed.

Lemma sets_of_saved self update_parents w :
  sets_of (cache_key self) (saved self update_parents w)
  = if persists self then _data w :: sets_of (cache_key self) w
    else sets_of (cache_key self) w.
Proof.
  unfold sets_of. rewrite saved_cache_sets.
  destruct (persists self); [|done].
  cbn [List.filter fst snd map]. by rewrite String.eqb_refl.
Qed.

(** X4.  [update_stats] on a translation registers the update of the
    parents once when [update_parents] is set and not at all when it is
    not.  On every class, a call that succeeds writes the cache slot of the
    object once, with the record the object then holds, if the class
    persists its record; a call that fails does not write that slot. *)
Theorem update_stats_effects fuel self clk lazy update_parents w :
  let outcome := update_stats (S fuel) self clk lazy update_parents w in
  (schedules_parents self = true →
   on_commit (snd outcome)
   = if update_parents then S (on_commit w) else on_commit w)
  ∧ sets_of (cache_key self) (snd outcome)
    = match fst outcome with
      | Ok _ =>
          if persists self
          then _data (snd outcome) :: sets_of (cache_key self) w
          else sets_of (cache_key self) w
      | Raise _ => sets_of (cache_key self) w
      end.
Proof.
  intros outcome. subst outcome. destruct lazy.
  - rewrite update_stats_lazy. cbn [fst snd].
    rewrite saved_on_commit, sets_of_saved, saved_data.
    split; [|done]. intros ->. by rewrite andb_true_r.
  - rewrite update_stats_eager.
    destruct (computed self clk ∅) as [d'|e] eqn:Hc; cbn [fst snd].
    + rewrite saved_on_commit, sets_of_saved, saved_data.
      split; [|done]. intros ->. by rewrite andb_true_r.
    + destruct (calculate_basic_outcome fuel self clk ∅) as [dp Hdp].
      rewrite Hdp, Hc. cbn [snd]. split; [|done].
      unfold schedules_parents. destruct (kind self) eqn:Hk; try done.
      destruct (computed_translation self clk ∅ _ Hk) as [d' Hd'].
      congruence.
Qed.

(** X5.  [update_stats] rebuilds the record from nothing: after a call that
    computes (not lazy) and succeeds, the record holds the basic keys of the
    class and the timestamp and no other key, whatever it or the cache held
    before; keys of checks and labels computed earlier are gone. *)
Theorem update_stats_rebuilds fuel self clk update_parents w w' :
  update_stats (S fuel) self clk false update_parents w = (Ok tt, w') →
  ∃ d', _data w' = Some d'
    ∧ ∀ k, is_Some (d' !! k) ↔ k ∈ basic_keys self ∨ k = "stats_timestamp".
Proof.
  rewrite update_stats_eager.
  destruct (computed self clk ∅) as [d'|e] eqn:Hc; [|done].
  intros [_ <-]%pair_inj. exists d'. rewrite saved_data. split; [done|].
  intros k. by apply (computed_keys self clk).
Qed.

End Rebuild.

Lemma update_stats_effects_witness :
  on_commit (snd (update_stats 1 (translation_stats five_units "stats-t") noon
                    false true empty_world)) = 1%nat.
Proof.
  exact (proj1 (update_stats_effects 0 (translation_stats five_units "stats-t")
                  noon false true empty_world) eq_refl).
Defined.

Lemma update_stats_rebuilds_witness :
  ∃ d', _data (snd (update_stats 1 list_node noon false true
                      (with_data (Some {[ "check:same" := VInt 3 ]})
                         empty_world))) = Some d'
    ∧ d' !! "check:same" = None ∧ is_Some (d' !! "all").
Proof.
  assert (fst (update_stats 1 list_node noon false true
                 (with_data (Some {[ "check:same" := VInt 3 ]}) empty_world))
          = Ok tt) as Hok by (vm_compute; reflexivity).
  destruct (update_stats 1 list_node noon false true
              (with_data (Some {[ "check:same" := VInt 3 ]}) empty_world))
    as [r w1] eqn:Hw1.
  cbn [fst] in Hok. subst r.
  destruct (update_stats_rebuilds 0 list_node noon true _ w1 Hw1)
    as (d' & Hd & Hkeys).
  exists d'. split; [exact Hd|]. split.
  - destruct (d' !! "check:same") eqn:Hs; [|done].
    assert (is_Some (d' !! "check:same")) as Hsome by by eexists.
    apply Hkeys in Hsome as [Hin%contains_elem|?]; done.
  - apply Hkeys. left. by apply contains_elem.
Defined.
(** ** The counts of a translation *)

Lemma stored_conditional_sum {A} key (m : A → Z) (cond : A → bool) rows :
  startswith "last_" key = false →
  stored key (conditional_sum m cond rows)
  = VInt (total (fun r => if cond r then m r else 0) rows).
Proof.
  intros Hk. unfold stored, conditional_sum, Sum. destruct rows as [|r rows].
  - cbn. by rewrite Hk.
  - reflexivity.
Qed.

Lemma stored_Sum {A} key (m : A → Z) rows :
  startswith "last_" key = false →
  stored key (Sum m rows) = VInt (total m rows).
Proof.
  intros Hk. unfold stored, Sum. destruct rows as [|r rows].
  - cbn. by rewrite Hk.
  - reflexivity.
Qed.

Lemma total_split {A} (m : A → Z) (cond : A → bool) rows :
  total (fun r => if cond r then m r else 0) rows
  + total (fun r => if negb (cond r) then m r else 0) rows
  = total m rows.
Proof.
  induction rows as [|r rows IH]; [done|]. rewrite !total_cons.
  destruct (cond r); cbn [negb]; lia.
Qed.

Lemma total_length {A} (rows : list A) :
  total (fun _ => 1) rows = Z.of_nat (List.length rows).
Proof.
  induction rows as [|r rows IH]; [done|]. rewrite total_cons.
  cbn [List.length]. lia.
Qed.

Lemma total_le {A} (f g : A → Z) rows :
  (∀ r, f r ≤ g r) → total f rows ≤ total g rows.
Proof.
  intros Hle. induction rows as [|r rows IH]; [done|]. rewrite !total_cons.
  specialize (Hle r). lia.
Qed.

Lemma total_add {A} (f g : A → Z) rows :
  total f rows + total g rows = total (fun r => f r + g r) rows.
Proof.
  induction rows as [|r rows IH]; [done|]. rewrite !total_cons. lia.
Qed.

Lemma total_nonneg {A} (f : A → Z) rows : (∀ r, 0 ≤ f r) → 0 ≤ total f rows.
Proof.
  intros Hle. induction rows as [|r rows IH]; [done|]. rewrite total_cons.
  specialize (Hle r). lia.
Qed.

Section Counts.
Context `{States}.

Ltac leaf_lookup :=
  rewrite !lookup_apply_items, !last_stored_unit_measure
    by (apply measure_key; reflexivity);
  lazy [last_stored unit_aggregate String.eqb Ascii.eqb Bool.eqb];
  unfold one;
  rewrite ?stored_conditional_sum, ?stored_Sum by reflexivity.

(** X6.  The leaf computation splits the units at the translated state: for
    strings, words and characters alike, the measure of all units is the
    measure of the translated ones (state at or above translated) plus the
    measure of the ones to do (state below translated). *)
Theorem leaf_translated_todo fuel key t clk w d :
  ∃ d', _calculate_basic (getattr (S fuel) (translation_stats t key) clk)
          (translation_stats t key) clk (with_data (Some d) w)
          = (Ok tt, with_data (Some d') w)
    ∧ ∀ suffix, suffix ∈ [ ""; "_words"; "_chars" ] →
        ∃ all translated todo,
          d' !! ("all" ++ suffix)%string = Some (VInt all)
          ∧ d' !! ("translated" ++ suffix)%string = Some (VInt translated)
          ∧ d' !! ("todo" ++ suffix)%string = Some (VInt todo)
          ∧ all = translated + todo.
Proof.
  eexists. split; [apply calculate_basic_translation|].
  assert (∀ m : Unit → Z,
            total m (unit_set t)
            = total (fun u => if STATE_TRANSLATED <=? state u then m u else 0)
                (unit_set t)
              + total (fun u => if state u <? STATE_TRANSLATED then m u else 0)
                  (unit_set t)) as Hsplit.
  { intros m.
    rewrite <- (total_split m (fun u => STATE_TRANSLATED <=? state u)).
    f_equal. apply total_ext. intros u.
    by rewrite Z.leb_antisym, negb_involutive. }
  intros suffix Hin.
  repeat (apply elem_of_cons in Hin as [->|Hin]);
    [| | |by apply elem_of_nil in Hin].
  - change ("all" ++ "")%string with "all".
    change ("translated" ++ "")%string with "translated".
    change ("todo" ++ "")%string with "todo".
    do 3 eexists. leaf_lookup. unfold Count.
    repeat split. rewrite <- total_length. apply Hsplit.
  - change ("all" ++ "_words")%string with "all_words".
    change ("translated" ++ "_words")%string with "translated_words".
    change ("todo" ++ "_words")%string with "todo_words".
    do 3 eexists. leaf_lookup. repeat split. apply Hsplit.
  - change ("all" ++ "_chars")%string with "all_chars".
    change ("translated" ++ "_chars")%string with "translated_chars".
    change ("todo" ++ "_chars")%string with "todo_chars".
    do 3 eexists. leaf_lookup. repeat split. apply Hsplit.
Qed.

Ltac by_cases :=
  intros u;
  repeat match goal with
         | |- context [Z.eqb ?a ?b] => destruct (Z.eqb_spec a b)
         | |- context [Z.ltb ?a ?b] => destruct (Z.ltb_spec a b)
         | |- context [Z.leb ?a ?b] => destruct (Z.leb_spec a b)
         end;
  cbn [andb negb]; lia.

(** X7.  The counts of strings the leaf computation takes over subsets are
    ordered as the subsets are: strings with failing checks in the
    translated state are among the strings with failing checks and among
    the unapproved ones, which are among the translated ones; strings to do
    without suggestions are among the strings to do, and together with the
    strings that have suggestions they are at most all strings; approved
    strings with suggestions are among the strings with suggestions. *)
Theorem leaf_subset_counts fuel key t clk w d :
  ∃ d' all todo translated unapproved allchecks translated_checks
      suggestions nosuggestions approved_suggestions,
    _calculate_basic (getattr (S fuel) (translation_stats t key) clk)
      (translation_stats t key) clk (with_data (Some d) w)
    = (Ok tt, with_data (Some d') w)
    ∧ d' !! "all" = Some (VInt all)
    ∧ d' !! "todo" = Some (VInt todo)
    ∧ d' !! "translated" = Some (VInt translated)
    ∧ d' !! "unapproved" = Some (VInt unapproved)
    ∧ d' !! "allchecks" = Some (VInt allchecks)
    ∧ d' !! "translated_checks" = Some (VInt translated_checks)
    ∧ d' !! "suggestions" = Some (VInt suggestions)
    ∧ d' !! "nosuggestions" = Some (VInt nosuggestions)
    ∧ d' !! "approved_suggestions" = Some (VInt approved_suggestions)
    ∧ 0 ≤ translated_checks ≤ allchecks
    ∧ translated_checks ≤ unapproved ≤ translated
    ∧ 0 ≤ nosuggestions ≤ todo
    ∧ suggestions + nosuggestions ≤ all
    ∧ 0 ≤ approved_suggestions ≤ suggestions.
Proof.
  do 10 eexists. split; [apply calculate_basic_translation|].
  leaf_lookup. unfold Count.
  do 9 (split; [reflexivity|]).
  repeat split; try (apply total_nonneg; by_cases);
    try (apply total_le; by_cases).
  rewrite total_add, <- total_length. apply total_le. by_cases.
Qed.

(** X8.  The change counters of a translation: [total_changes] is the
    number of content changes when there is a last change and 0 when there
    is none (a cached key of 0 says so even if the history holds changes);
    [recent_changes] and [monthly_changes] count some of these changes, so
    they lie between 0 and [total_changes]; and when the last change is
    taken from the history, it is itself among the recent ones. *)
Theorem leaf_change_counters fuel key t clk w d :
  ∃ d' recent monthly total,
    _calculate_basic (getattr (S fuel) (translation_stats t key) clk)
      (translation_stats t key) clk (with_data (Some d) w)
    = (Ok tt, with_data (Some d') w)
    ∧ d' !! "recent_changes" = Some (VInt recent)
    ∧ d' !! "monthly_changes" = Some (VInt monthly)
    ∧ d' !! "total_changes" = Some (VInt total)
    ∧ 0 ≤ recent ≤ total ∧ 0 ≤ monthly ≤ total
    ∧ (is_Some (get_last_change_obj t) →
       total = Z.of_nat (List.length (change_set_content t)))
    ∧ (get_last_change_obj t = None → total = 0)
    ∧ (last_change_cache t = None → cached_change_pk t = None →
       change_set_content t ≠ [] → 1 ≤ recent).
Proof.
  pose proof (calculate_basic_translation fuel key t clk w d) as Hcalc.
  exists (apply_items (leaf_items t clk) d).
  cut (∃ recent monthly total,
         apply_items (leaf_items t clk) d !! "recent_changes"
         = Some (VInt recent)
         ∧ apply_items (leaf_items t clk) d !! "monthly_changes"
           = Some (VInt monthly)
         ∧ apply_items (leaf_items t clk) d !! "total_changes"
           = Some (VInt total)
         ∧ 0 ≤ recent ≤ total ∧ 0 ≤ monthly ≤ total
         ∧ (is_Some (get_last_change_obj t) →
            total = Z.of_nat (List.length (change_set_content t)))
         ∧ (get_last_change_obj t = None → total = 0)
         ∧ (last_change_cache t = None → cached_change_pk t = None →
            change_set_content t ≠ [] → 1 ≤ recent)).
  { intros (recent & monthly & total & Hrest).
    exists recent, monthly, total. by split. }
  clear Hcalc.
  assert (∀ cond : Change → bool,
            0 ≤ total (fun c => if cond c then 1 else 0) (change_set_content t)
              ≤ Z.of_nat (List.length (change_set_content t))) as Hsome.
  { intros cond. split.
    - apply total_nonneg. intros c. destruct (cond c); lia.
    - rewrite <- total_length. apply total_le. intros c.
      destruct (cond c); lia. }
  unfold leaf_items. setoid_rewrite lookup_apply_items.
  setoid_rewrite last_stored_app. unfold change_items.
  destruct (get_last_change_obj t) as [last|] eqn:Hlast.
  - do 3 eexists.
    lazy [last_stored String.eqb Ascii.eqb Bool.eqb].
    rewrite !stored_conditional_sum by reflexivity. unfold Count, stored.
    cbn [is_None andb].
    do 3 (split; [reflexivity|]).
    split; [apply Hsome|]. split; [apply Hsome|].
    split; [done|]. split; [done|].
    intros Hc Hpk Hne. unfold get_last_change_obj in Hlast.
    rewrite Hc, Hpk in Hlast.
    destruct (change_set_content t) as [|c rest]; [done|].
    cbn in Hlast. apply (inj Some) in Hlast as ->.
    rewrite total_cons.
    assert (0 ≤ total (fun c => if timestamp last - timedelta 0 6 <? timestamp c
                                then 1 else 0) rest).
    { apply total_nonneg. intros c. by destruct (_ <? _). }
    destruct (Z.ltb_spec (timestamp last - timedelta 0 6) (timestamp last));
      [lia|]. unfold timedelta in *. lia.
  - do 3 eexists.
    lazy [last_stored String.eqb Ascii.eqb Bool.eqb].
    unfold stored. cbn [is_None andb].
    do 3 (split; [reflexivity|]).
    split; [done|]. split; [done|]. split; [by intros [? ?]|].
    split; [done|].
    intros Hc Hpk Hne. unfold get_last_change_obj in Hlast.
    rewrite Hc, Hpk in Hlast. by destruct (change_set_content t).
Qed.

End Counts.

(** X9.  Where the last change of a translation comes from: the change set
    by [Change.save] if there is one; else nothing if the cached key is 0;
    else the change with the cached key, or the newest content change when
    there is no such key or no change with it.  What is returned is always
    one of these, and nothing is returned only when the cached key is 0 or
    the history is empty. *)
Theorem get_last_change_obj_sources (t : Translation) :
  (∀ c, last_change_cache t = Some c → get_last_change_obj t = Some c)
  ∧ (last_change_cache t = None → cached_change_pk t = Some 0 →
     get_last_change_obj t = None)
  ∧ (∀ c, get_last_change_obj t = Some c →
       last_change_cache t = Some c
       ∨ (c ∈ Change_objects t ∧ cached_change_pk t = Some (change_pk c)
          ∧ change_pk c ≠ 0)
       ∨ head (change_set_content t) = Some c)
  ∧ (get_last_change_obj t = None →
     last_change_cache t = None
     ∧ (cached_change_pk t = Some 0 ∨ change_set_content t = [])).
Proof.
  unfold get_last_change_obj.
  split; [by intros c ->|]. split; [by intros -> ->|]. split.
  - intros c. destruct (last_change_cache t); [intros [= ->]; by left|].
    destruct (cached_change_pk t) as [pk|]; [|by right; right].
    destruct (Z.eqb_spec pk 0); [done|].
    destruct (find _ (Change_objects t)) as [c'|] eqn:Hf; [|by right; right].
    intros [= ->]. destruct (find_some _ _ Hf) as [Hin Hpk].
    apply Z.eqb_eq in Hpk. right. left. rewrite list_elem_of_In.
    repeat split; congruence.
  - destruct (last_change_cache t); [done|]. intros Hnone. split; [done|].
    destruct (cached_change_pk t) as [pk|].
    + destruct (Z.eqb_spec pk 0) as [Hpk|]; [left; by rewrite Hpk|].
      destruct (find _ (Change_objects t)); [done|].
      destruct (change_set_content t); [by right|done].
    + destruct (change_set_content t); [by right|done].
Qed.
(** ** The check and label statistics of a translation *)

Lemma store_row_eq self name stat w d :
  _data w = Some d →
  store_row self name stat w
  = (Ok tt, with_data (Some (apply_items (row_items name stat) d)) w).
Proof.
  intros Hd. unfold store_row, row_items.
  rewrite bind_eq. erewrite store_loaded by done.
  rewrite bind_eq. erewrite store_loaded by done.
  erewrite store_loaded by done. by rewrite !with_data_with_data.
Qed.

Lemma store_zero_eq self name w d :
  _data w = Some d →
  store_zero self name w
  = (Ok tt, with_data (Some (apply_items (zero_items name) d)) w).
Proof.
  intros Hd. unfold store_zero, zero_items.
  rewrite bind_eq. erewrite store_loaded by done.
  rewrite bind_eq. erewrite store_loaded by done.
  erewrite store_loaded by done. by rewrite !with_data_with_data.
Qed.

Lemma store_zeros_eq self names w d :
  _data w = Some d →
  store_zeros self names w
  = (Ok tt,
     with_data (Some (apply_items (concat (map zero_items names)) d)) w).
Proof.
  revert w d. induction names as [|name names IH]; intros w d Hd.
  - cbn. rewrite <- Hd. by rewrite with_data_id.
  - cbn [store_zeros map concat]. rewrite bind_eq.
    rewrite (store_zero_eq _ _ _ d Hd). erewrite IH by reflexivity.
    by rewrite with_data_with_data, apply_items_app.
Qed.

Lemma discard_unseen x seen all :
  discard x (unseen seen all) = unseen (seen ++ [x]) all.
Proof.
  unfold discard, unseen. induction all as [|y all IH]; [done|].
  cbn [List.filter].
  assert (contains (seen ++ [x]) y = contains seen y || String.eqb y x) as Hc.
  { unfold contains. rewrite existsb_app. cbn. by rewrite orb_false_r. }
  rewrite Hc. destruct (contains seen y); cbn [negb orb List.filter].
  - apply IH.
  - destruct (String.eqb y x); cbn [negb]; by rewrite IH.
Qed.

Lemma unseen_nil all : unseen [] all = all.
Proof. unfold unseen. cbn. apply filter_true_id. Qed.

Lemma elem_of_unseen seen all x : x ∈ unseen seen all ↔ x ∈ all ∧ x ∉ seen.
Proof.
  unfold unseen. rewrite !list_elem_of_In, filter_In, negb_true_iff.
  rewrite <- !list_elem_of_In, contains_not_elem. done.
Qed.

Lemma store_check_rows_eq self stats seen all w d :
  _data w = Some d →
  store_check_rows self stats (unseen seen all) w
  = (Ok (unseen (seen ++ map (String.append "check:") (row_names stats)) all),
     with_data (Some (apply_items (rows_items "check:" stats) d)) w).
Proof.
  revert seen w d. induction stats as [|stat stats IH]; intros seen w d Hd.
  - cbn. rewrite app_nil_r. rewrite <- Hd. by rewrite with_data_id.
  - cbn [store_check_rows rows_items row_names omap list_omap].
    fold (row_names stats).
    destruct (row_name stat) as [name|].
    + rewrite bind_eq, (store_row_eq _ _ _ _ d Hd).
      rewrite discard_unseen. erewrite IH by reflexivity.
      rewrite with_data_with_data, apply_items_app.
      cbn [map]. by rewrite <- app_assoc.
    + by apply IH.
Qed.

Lemma store_label_rows_eq self stats seen all w d :
  _data w = Some d →
  store_label_rows self stats (unseen seen all) w
  = (Ok (unseen (seen ++ row_names stats) all),
     with_data (Some (apply_items (rows_items "label:" stats) d)) w).
Proof.
  revert seen w d. induction stats as [|stat stats IH]; intros seen w d Hd.
  - cbn. rewrite app_nil_r. rewrite <- Hd. by rewrite with_data_id.
  - cbn [store_label_rows rows_items row_names omap list_omap].
    fold (row_names stats).
    destruct (row_name stat) as [name|].
    + rewrite bind_eq, (store_row_eq _ _ _ _ d Hd).
      rewrite discard_unseen. erewrite IH by reflexivity.
      rewrite with_data_with_data, apply_items_app.
      by rewrite <- app_assoc.
    + by apply IH.
Qed.

Lemma calculate_checks_eq self t w d :
  _data w = Some d →
  calculate_checks self t w
  = (Ok tt,
     saved self true
       (with_data
          (Some (apply_items
                   (rows_items "check:" (check_stats t)
                    ++ concat (map zero_items
                                 (unseen (map (String.append "check:")
                                            (row_names (check_stats t)))
                                    (CHECKS t)))) d)) w)).
Proof.
  intros Hd. unfold calculate_checks.
  rewrite <- (unseen_nil (CHECKS t)) at 1.
  rewrite bind_eq, (store_check_rows_eq _ _ _ _ _ d Hd).
  rewrite bind_eq. erewrite store_zeros_eq by reflexivity.
  rewrite save_eq, with_data_with_data, apply_items_app. reflexivity.
Qed.

Lemma calculate_labels_eq self t w d :
  _data w = Some d →
  calculate_labels self t w
  = (Ok tt,
     saved self true
       (with_data
          (Some (apply_items
                   (rows_items "label:"
                      (label_stats t ++ translation_label_stats t)
                    ++ concat (map zero_items
                                 (map (String.append "label:")
                                    (unseen (row_names
                                               (label_stats t
                                                ++ translation_label_stats t))
                                       (label_set t))))) d)) w)).
Proof.
  intros Hd. unfold calculate_labels.
  rewrite <- (unseen_nil (label_set t)) at 1.
  rewrite bind_eq, (store_label_rows_eq _ _ _ _ _ d Hd).
  rewrite bind_eq. erewrite store_zeros_eq by reflexivity.
  rewrite save_eq, with_data_with_data, apply_items_app. reflexivity.
Qed.

Lemma prefix_append p s : String.prefix p (p ++ s) = true.
Proof. apply prefix_correct. apply substring_append. Qed.

Lemma prefix_append_l p a b :
  String.prefix p a = true → String.prefix p (a ++ b) = true.
Proof.
  revert a. induction p as [|c p IH]; intros a.
  { intros _. by destruct (a ++ b)%string. }
  destruct a as [|c' a]; [done|].
  change (String c' a ++ b)%string with (String c' (a ++ b)).
  cbn [String.prefix]. destruct (ascii_dec c c'); [apply IH|done].
Qed.

Lemma row_items_keys name stat :
  (row_items name stat).*1
  = [ name; (name ++ "_words")%string; (name ++ "_chars")%string ].
Proof. reflexivity. Qed.

Lemma zero_items_keys name :
  (zero_items name).*1
  = [ name; (name ++ "_words")%string; (name ++ "_chars")%string ].
Proof. reflexivity. Qed.

Lemma rows_items_present prefix stats name k :
  name ∈ row_names stats →
  k ∈ [ (prefix ++ name)%string; ((prefix ++ name) ++ "_words")%string;
        ((prefix ++ name) ++ "_chars")%string ] →
  k ∈ (rows_items prefix stats).*1.
Proof.
  intros Hin Hk. unfold row_names in Hin.
  induction stats as [|stat stats IH]; [by apply elem_of_nil in Hin|].
  cbn [omap list_omap rows_items] in *.
  destruct (row_name stat) as [name'|]; [|by apply IH].
  rewrite fmap_app, elem_of_app, row_items_keys.
  apply elem_of_cons in Hin as [->|Hin]; [by left|right; by apply IH].
Qed.

Lemma rows_items_prefix prefix stats k :
  k ∈ (rows_items prefix stats).*1 → startswith prefix k = true.
Proof.
  unfold startswith.
  induction stats as [|stat stats IH]; [by intros ?%elem_of_nil|].
  cbn [rows_items]. destruct (row_name stat) as [name|]; [|done].
  rewrite fmap_app, elem_of_app, row_items_keys.
  intros [Hk|Hk]; [|by apply IH].
  repeat (apply elem_of_cons in Hk as [->|Hk]);
    [| | |by apply elem_of_nil in Hk];
    first [apply prefix_append|apply prefix_append_l, prefix_append].
Qed.

Lemma zeros_present names name k :
  name ∈ names →
  k ∈ [ name; (name ++ "_words")%string; (name ++ "_chars")%string ] →
  k ∈ (concat (map zero_items names)).*1.
Proof.
  intros Hin Hk.
  induction names as [|name' names IH]; [by apply elem_of_nil in Hin|].
  cbn [map concat]. rewrite fmap_app, elem_of_app, zero_items_keys.
  apply elem_of_cons in Hin as [->|Hin]; [by left|right; by apply IH].
Qed.

Lemma zeros_prefix prefix names k :
  Forall (fun name => startswith prefix name = true) names →
  k ∈ (concat (map zero_items names)).*1 → startswith prefix k = true.
Proof.
  unfold startswith. intros Hall.
  induction Hall as [|name names Hname Hall IH]; [by intros ?%elem_of_nil|].
  cbn [map concat]. rewrite fmap_app, elem_of_app, zero_items_keys.
  intros [Hk|Hk]; [|by apply IH].
  repeat (apply elem_of_cons in Hk as [->|Hk]);
    [done| | |by apply elem_of_nil in Hk]; by apply prefix_append_l.
Qed.

Lemma zeros_values names k v :
  (k, v) ∈ concat (map zero_items names) → v = VInt 0.
Proof.
  induction names as [|name names IH]; [by intros ?%elem_of_nil|].
  cbn [map concat]. rewrite elem_of_app. intros [Hk|Hk]; [|by apply IH].
  unfold zero_items in Hk.
  repeat (apply elem_of_cons in Hk as [[= _ ->]|Hk]; [done|]).
  by apply elem_of_nil in Hk.
Qed.

Lemma last_stored_source k items v :
  last_stored k items = Some v → ∃ v', (k, v') ∈ items ∧ v = stored k v'.
Proof.
  induction items as [|[k' v'] items IH]; [done|]. cbn [last_stored].
  destruct (last_stored k items) as [v0|].
  - intros [= ->]. destruct IH as (v1 & Hin & ->); [done|].
    exists v1. split; [by apply list_elem_of_further|done].
  - destruct (String.eqb_spec k' k) as [->|]; [|done].
    intros [= <-]. exists v'. split; [by apply list_elem_of_here|done].
Qed.

Lemma last_stored_zeros names k :
  k ∈ (concat (map zero_items names)).*1 →
  last_stored k (concat (map zero_items names)) = Some (VInt 0).
Proof.
  intros Hin. destruct (last_stored_elem k _ Hin) as [v Hv]. rewrite Hv.
  apply last_stored_source in Hv as (v' & Hv' & ->).
  by rewrite (zeros_values names k v' Hv').
Qed.

(** X10.  [calculate_checks] leaves no known check without statistics:
    afterwards the record holds the three keys of every check of [CHECKS]
    and of every check a row names; a known check that no row names reads
    0 three times.  The record is then saved.  When the known checks carry
    the [check:] prefix, no key outside that prefix is changed. *)
Theorem calculate_checks_complete self t w d :
  _data w = Some d →
  ∃ d', calculate_checks self t w
        = (Ok tt, saved self true (with_data (Some d') w))
    ∧ (∀ check k,
         check ∈ CHECKS t
         ∨ (∃ name, name ∈ row_names (check_stats t)
                    ∧ check = ("check:" ++ name)%string) →
         k ∈ [ check; (check ++ "_words")%string; (check ++ "_chars")%string ] →
         is_Some (d' !! k))
    ∧ (∀ check k,
         check ∈ CHECKS t →
         (∀ name, name ∈ row_names (check_stats t) →
                  check ≠ ("check:" ++ name)%string) →
         k ∈ [ check; (check ++ "_words")%string; (check ++ "_chars")%string ] →
         d' !! k = Some (VInt 0))
    ∧ (Forall (fun check => startswith "check:" check = true) (CHECKS t) →
       ∀ k, startswith "check:" k = false → d' !! k = d !! k).
Proof.
  intros Hd. eexists. split; [by apply calculate_checks_eq|].
  set (seen := map (String.append "check:") (row_names (check_stats t))).
  assert (∀ check, check ∈ seen
                   ↔ ∃ name, name ∈ row_names (check_stats t)
                             ∧ check = ("check:" ++ name)%string) as Hseen.
  { intros check. unfold seen. rewrite list_elem_of_fmap.
    split; intros (name & ? & ?); exists name; by split. }
  split; [|split].
  - intros check k Hcheck Hk. rewrite is_Some_apply_items. left.
    rewrite fmap_app, elem_of_app.
    destruct (decide (check ∈ seen)) as [Hin|Hout].
    + left. apply Hseen in Hin as (name & Hname & ->).
      by eapply rows_items_present.
    + destruct Hcheck as [Hcheck|Hrow]; [|by apply Hseen in Hrow].
      right. eapply zeros_present; [|done]. by apply elem_of_unseen.
  - intros check k Hcheck Hrows Hk.
    rewrite lookup_apply_items, last_stored_app, last_stored_zeros; [done|].
    eapply zeros_present; [|done]. apply elem_of_unseen. split; [done|].
    intros (name & Hname & ->)%Hseen. by eapply Hrows.
  - intros Hall k Hk. rewrite lookup_apply_items, last_stored_absent; [done|].
    rewrite fmap_app, elem_of_app. intros [Hin|Hin].
    + apply rows_items_prefix in Hin. congruence.
    + apply (zeros_prefix "check:") in Hin; [congruence|].
      apply list.Forall_forall. intros check [Hcheck _]%elem_of_unseen.
      by eapply list.Forall_forall in Hall.
Qed.

(** X11.  [calculate_labels] leaves no label of the project without
    statistics: afterwards the record holds the three keys of every label
    of the project and of every label a row names, under the [label:]
    prefix; a label of the project that no row names reads 0 three times.
    The record is then saved, and no key outside the prefix is changed. *)
Theorem calculate_labels_complete self t w d :
  _data w = Some d →
  ∃ d', calculate_labels self t w
        = (Ok tt, saved self true (with_data (Some d') w))
    ∧ (∀ name k,
         name ∈ label_set t
         ∨ name ∈ row_names (label_stats t ++ translation_label_stats t) →
         k ∈ [ ("label:" ++ name)%string;
               (("label:" ++ name) ++ "_words")%string;
               (("label:" ++ name) ++ "_chars")%string ] →
         is_Some (d' !! k))
    ∧ (∀ name k,
         name ∈ label_set t →
         name ∉ row_names (label_stats t ++ translation_label_stats t) →
         k ∈ [ ("label:" ++ name)%string;
               (("label:" ++ name) ++ "_words")%string;
               (("label:" ++ name) ++ "_chars")%string ] →
         d' !! k = Some (VInt 0))
    ∧ (∀ k, startswith "label:" k = false → d' !! k = d !! k).
Proof.
  intros Hd. eexists. split; [by apply calculate_labels_eq|].
  set (rows := label_stats t ++ translation_label_stats t).
  split; [|split].
  - intros name k Hname Hk. rewrite is_Some_apply_items. left.
    rewrite fmap_app, elem_of_app.
    destruct (decide (name ∈ row_names rows)) as [Hin|Hout].
    + left. by eapply rows_items_present.
    + destruct Hname as [Hname|Hrow]; [|done].
      right. eapply zeros_present; [|done].
      apply list_elem_of_fmap. exists name. split; [done|].
      by apply elem_of_unseen.
  - intros name k Hname Hrows Hk.
    rewrite lookup_apply_items, last_stored_app, last_stored_zeros; [done|].
    eapply zeros_present; [|done].
    apply list_elem_of_fmap. exists name. split; [done|].
    by apply elem_of_unseen.
  - intros k Hk. rewrite lookup_apply_items, last_stored_absent; [done|].
    rewrite fmap_app, elem_of_app. intros [Hin|Hin].
    + apply rows_items_prefix in Hin. congruence.
    + apply (zeros_prefix "label:") in Hin; [congruence|].
      apply list.Forall_forall. intros label (name & -> & _)%list_elem_of_fmap.
      apply prefix_append.
Qed.

Lemma calculate_checks_complete_witness :
  ∃ d', calculate_checks (translation_stats checked_translation "stats-t")
          checked_translation (with_data (Some ∅) empty_world)
        = (Ok tt,
           saved (translation_stats checked_translation "stats-t") true
             (with_data (Some d') (with_data (Some ∅) empty_world)))
    ∧ d' !! "check:end_stop" = Some (VInt 0)
    ∧ is_Some (d' !! "check:same_words").
Proof.
  destruct (calculate_checks_complete
              (translation_stats checked_translation "stats-t")
              checked_translation (with_data (Some ∅) empty_world) ∅ eq_refl)
    as (d' & Hrun & Hsome & Hzero & _).
  exists d'. split; [exact Hrun|]. split.
  - apply (Hzero "check:end_stop").
    + apply contains_elem. reflexivity.
    + intros name Hin%contains_elem. cbn in Hin.
      rewrite orb_false_r in Hin. apply String.eqb_eq in Hin as ->.
      intros Heq. vm_compute in Heq. discriminate Heq.
    + apply list_elem_of_here.
  - apply (Hsome "check:same").
    + left. apply contains_elem. reflexivity.
    + apply contains_elem. reflexivity.
Defined.

Lemma calculate_labels_complete_witness :
  ∃ d', calculate_labels (translation_stats checked_translation "stats-t")
          checked_translation (with_data (Some ∅) empty_world)
        = (Ok tt,
           saved (translation_stats checked_translation "stats-t") true
             (with_data (Some d') (with_data (Some ∅) empty_world)))
    ∧ d' !! "label:urgent" = Some (VInt 0).
Proof.
  destruct (calculate_labels_complete
              (translation_stats checked_translation "stats-t")
              checked_translation (with_data (Some ∅) empty_world) ∅ eq_refl)
    as (d' & Hrun & _ & Hzero & _).
  exists d'. split; [exact Hrun|].
  apply (Hzero "urgent").
  - apply contains_elem. reflexivity.
  - intros Hin%contains_elem. discriminate Hin.
  - apply list_elem_of_here.
Defined.
(** ** Aggregation: failures and the languages key *)

Section Aggregation.
Context `{States}.

(** X12.  The aggregation works on a local record and stores only at the
    end: when reading a child fails, [calculate_basic] of an aggregating
    class raises the same exception and the record of the object is as it
    was.  [update_stats], which clears first, then leaves the object with an
    empty record.  Neither writes the cache slot of the object. *)
Theorem aggregation_failure (getattr : string → M value) fuel self clk
    update_parents w e :
  composite self = true → aggregated self = Raise e →
  (fst (calculate_basic getattr self clk w) = Raise e
   ∧ _data (snd (calculate_basic getattr self clk w)) = _data w
   ∧ cache (snd (calculate_basic getattr self clk w)) !! cache_key self
     = cache w !! cache_key self
   ∧ sets_of (cache_key self) (snd (calculate_basic getattr self clk w))
     = sets_of (cache_key self) w)
  ∧ (fst (update_stats fuel self clk false update_parents w) = Raise e
     ∧ _data (snd (update_stats fuel self clk false update_parents w)) = Some ∅
     ∧ cache (snd (update_stats fuel self clk false update_parents w))
         !! cache_key self
       = cache w !! cache_key self
     ∧ sets_of (cache_key self)
         (snd (update_stats fuel self clk false update_parents w))
       = sets_of (cache_key self) w).
Proof.
  intros Hcomp Hagg.
  assert (∀ g w, calculate_basic g self clk w = (Raise e, w)) as Hcalc.
  { intros g w0. unfold calculate_basic, _calculate_basic, composite in *.
    destruct (kind self); try done;
      unfold aggregating_calculate_basic; rewrite Hagg;
      rewrite ?bind_eq; by mstep. }
  split; [by rewrite Hcalc|].
  unfold update_stats, clear. rewrite bind_modify, bind_eq, Hcalc.
  by cbn [fst snd].
Qed.

(** X13.  The [languages] key by class.  The statistics of a project or a
    category in one language always report 1.  The statistics of a
    language, a component, a category and a component list report the sum
    of what their children report: a component counts its translations,
    and the statistics of a language count the translations in that
    language. *)
Theorem languages_by_class fuel self clk w d :
  composite self = true →
  Forall (readable (object_keys self)) (object_set_of self) →
  Forall (readable SOURCE_KEYS) (category_set_of self) →
  (∃ src, source_items self = Ok src) →
  ∃ d', calculate_basic (getattr fuel self clk) self clk (with_data (Some d) w)
        = (Ok tt, with_data (Some d') w)
    ∧ (single_language self = true → d' !! "languages" = Some (VInt 1))
    ∧ (sums_languages self = true →
       d' !! "languages"
       = Some (VInt (total (fun c => int_attr c "languages")
                       (object_set_of self ++ category_set_of self)))).
Proof.
  intros Hcomp Hobjs Hcats [src Hsrc].
  destruct (aggregated_spec self Hcomp Hobjs Hcats)
    as (stats & Hagg & Hnum & Hts & Hlast).
  eexists. split; [by apply composite_calculate_basic|].
  assert (last_stored "languages" src = None) as Hnosrc.
  { by eapply last_stored_source_items. }
  rewrite lookup_apply_items, !last_stored_app, Hnosrc. cbn [last_stored].
  rewrite last_stored_map_to_list, Hnum;
    [|by apply contains_elem|done].
  unfold single_language, sums_languages, languages_items.
  split; intros Hk; destruct (kind self); try done.
  all: cbn [fmap option_fmap option_map]; rewrite stored_int, total_app.
  all: do 3 f_equal; apply total_ext; intros c; by unfold object_part.
Qed.

End Aggregation.

Lemma broken_node_fails : aggregated broken_node = Raise TypeError.
Proof. vm_compute. reflexivity. Qed.

Lemma aggregation_failure_witness :
  fst (calculate_basic (getattr 1 broken_node noon) broken_node noon
         cached_world) = Raise TypeError
  ∧ _data (snd (calculate_basic (getattr 1 broken_node noon) broken_node noon
                  cached_world)) = None.
Proof.
  destruct (proj1 (aggregation_failure (getattr 1 broken_node noon) 1
                     broken_node noon true cached_world TypeError eq_refl
                     broken_node_fails)) as (Hraise & Hdata & _).
  split; [exact Hraise|exact Hdata].
Defined.

Lemma languages_by_class_witness :
  (∃ d', calculate_basic (getattr 1 language_node noon) language_node noon
           (with_data (Some ∅) empty_world)
         = (Ok tt, with_data (Some d') empty_world)
       ∧ d' !! "languages" = Some (VInt 4))
  ∧ (∃ d', calculate_basic (getattr 1 project_language_node noon)
             project_language_node noon (with_data (Some ∅) empty_world)
           = (Ok tt, with_data (Some d') empty_world)
         ∧ d' !! "languages" = Some (VInt 1)).
Proof.
  assert (Forall (readable BASIC_KEYS) [ child_a; child_b ]) as Hkids.
  { constructor; [exact (readable_basic _ child_a_readable)|].
    constructor; [exact (readable_basic _ child_b_readable)|]. constructor. }
  split.
  - destruct (languages_by_class 1 language_node noon empty_world ∅ eq_refl
                Hkids (Forall_nil _) (ex_intro _ [] eq_refl))
      as (d' & Hcalc & _ & Hsum).
    exists d'. split; [exact Hcalc|]. rewrite (Hsum eq_refl).
    vm_compute. reflexivity.
  - destruct (languages_by_class 1 project_language_node noon empty_world ∅
                eq_refl Hkids (Forall_nil _) (ex_intro _ [] eq_refl))
      as (d' & Hcalc & Hone & _).
    exists d'. split; [exact Hcalc|]. exact (Hone eq_refl).
Defined.
(** ** The objects update_parents visits *)

Lemma category_update_objects_cover global c above :
  above ∈ category_chain c →
  (above = c ∨ category_stats_of above ∈ category_update_objects global c)
  ∧ category_project_of above ∈ category_update_objects global c.
Proof.
  induction c as [stats project|stats project parent IH];
    cbn [category_chain category_update_objects].
  - intros ->%list_elem_of_singleton. split; [by left|].
    apply list_elem_of_here.
  - intros [->|Hin]%elem_of_cons.
    + split; [by left|]. apply list_elem_of_here.
    + unfold base_update_objects.
      repeat (rewrite elem_of_cons || rewrite elem_of_app).
      destruct (IH Hin) as [[->|Hs] Hp]; auto 10.
Qed.

(** X14.  What a change of a translation reaches: the objects yielded for
    it include the statistics of its language, its component, the project,
    the project in that language and the global statistics, of every
    component list the component is in, and of the category of the
    component with every category above it.  The language comes first and
    the global statistics last. *)
Theorem translation_update_objects_cover (global : stat_object)
    (t : TranslationObject) :
  let yielded := translation_update_objects global t in
  let component := translation_component t in
  language_stats t ∈ yielded
  ∧ component_stats component ∈ yielded
  ∧ component_project_stats component ∈ yielded
  ∧ project_language_stats t ∈ yielded
  ∧ global ∈ yielded
  ∧ (∀ clist, clist ∈ componentlist_set component → clist ∈ yielded)
  ∧ (∀ category above,
       component_category component = Some category →
       above ∈ category_chain category →
       category_stats_of above ∈ yielded
       ∧ category_project_of above ∈ yielded)
  ∧ head yielded = Some (language_stats t)
  ∧ list.last yielded = Some global.
Proof.
  intros yielded component. subst yielded component.
  unfold translation_update_objects, component_update_objects,
    base_update_objects.
  assert (∀ clist, clist ∈ componentlist_set (translation_component t) →
            clist ∈ concat (map (λ clist, [clist; global])
                              (componentlist_set (translation_component t))))
    as Hlists.
  { induction (componentlist_set (translation_component t)) as [|c l IH];
      intros clist Hin; [by apply elem_of_nil in Hin|].
    cbn [map concat app].
    apply elem_of_cons in Hin as [->|Hin]; [apply list_elem_of_here|].
    do 2 apply list_elem_of_further. by apply IH. }
  split; [apply list_elem_of_here|].
  do 4 (split; [repeat (rewrite elem_of_cons || rewrite elem_of_app);
                by auto 12|]).
  split; [|split; [|split]].
  - intros clist Hin. specialize (Hlists clist Hin).
    repeat (rewrite elem_of_cons || rewrite elem_of_app). auto 12.
  - intros category above Hcat Hin. rewrite Hcat.
    repeat (rewrite elem_of_cons || rewrite elem_of_app).
    destruct (category_update_objects_cover global category above Hin)
      as [[->|Hs] Hp]; auto 12.
  - reflexivity.
  - rewrite !app_comm_cons, !app_assoc. apply last_snoc.
Qed.

Example nested_translation_update_order :
  first_occurrences
    (map key_of (translation_update_objects (named "stats-global")
                   nested_translation))
  = [ "stats-language"; "stats-global"; "stats-component"; "stats-project";
      "stats-category-inner"; "stats-category-outer"; "stats-list";
      "stats-project-language" ].
Proof. reflexivity. Qed.

(** ** The dict of update_parents *)

Lemma dict_setitem_elem (k : string) (s : stat_object) d k' s' :
  NoDup (map fst d) →
  (k', s') ∈ dict_setitem k s d
  ↔ if String.eqb k' k then s' = s else (k', s') ∈ d.
Proof.
  induction d as [|[k0 s0] d IH]; intros Hnd.
  - cbn. rewrite list_elem_of_singleton.
    destruct (String.eqb_spec k' k) as [->|Hne].
    + split; [by intros [_ ?]%pair_inj|by intros ->].
    + split; [by intros [? _]%pair_inj|by intros ?%elem_of_nil].
  - cbn [dict_setitem map fst] in *. apply list.NoDup_cons in Hnd as [Hk0 Hnd].
    destruct (String.eqb_spec k0 k) as [->|Hne0].
    + rewrite !elem_of_cons. destruct (String.eqb_spec k' k) as [->|Hne].
      * split; [|intros ->; by left]. intros [[_ ?]%pair_inj|Hin]; [done|].
        exfalso. apply Hk0. apply list_elem_of_fmap. by exists (k, s').
      * rewrite elem_of_cons.
        split; (intros [[? _]%pair_inj|Hin]; [done|by right]).
    + rewrite !elem_of_cons, (IH Hnd).
      destruct (String.eqb_spec k' k) as [->|Hne]; [|by rewrite elem_of_cons].
      split; [|by right]. intros [[? _]%pair_inj|?]; [|done].
      by destruct Hne0.
Qed.

Lemma dict_setitem_NoDup {V} (k : string) (v : V) d :
  NoDup (map fst d) → NoDup (map fst (dict_setitem k v d)).
Proof.
  intros Hnd. rewrite dict_setitem_keys.
  destruct (contains (map fst d) k) eqn:Hc; [done|].
  apply list.NoDup_app. split; [done|]. split; [|apply NoDup_singleton].
  intros x Hx ->%list_elem_of_singleton. by apply contains_not_elem in Hc.
Qed.

Lemma fold_setitem_elem (l : list stat_object) d k s :
  NoDup (map fst d) →
  (k, s) ∈ foldl (fun d s => dict_setitem (cache_key (stat s)) s d) d l
  ↔ match last_with_key k l with
    | Some s' => s = s'
    | None => (k, s) ∈ d
    end.
Proof.
  revert d. induction l as [|x l IH]; intros d Hnd; [done|].
  cbn [foldl last_with_key]. rewrite IH by by apply dict_setitem_NoDup.
  destruct (last_with_key k l); [done|].
  rewrite dict_setitem_elem by done. unfold key_of.
  rewrite String.eqb_sym. by destruct (String.eqb _ k).
Qed.

Lemma last_with_key_app k xs ys :
  last_with_key k (xs ++ ys)
  = match last_with_key k ys with
    | Some s => Some s
    | None => last_with_key k xs
    end.
Proof.
  induction xs as [|x xs IH]; cbn [app last_with_key].
  - by destruct (last_with_key k ys).
  - rewrite IH. by destruct (last_with_key k ys).
Qed.

Lemma last_with_key_key k l s : last_with_key k l = Some s → key_of s = k.
Proof.
  induction l as [|x l IH]; [done|]. cbn [last_with_key].
  destruct (last_with_key k l); [intros [= ->]; by apply IH|].
  destruct (String.eqb_spec (key_of x) k); [by intros [= <-]|done].
Qed.

(** X15.  Of several yielded objects with one cache key, [update_parents]
    keeps the last: the dict it builds holds, under every key, the last
    object of the yielded and the extra objects that has this key, so an
    extra object replaces a yielded one with its key.  (The place of the key
    in the order is that of its first occurrence.) *)
Theorem stat_objects_last_wins update_objects extra_objects k s :
  (k, s) ∈ stat_objects update_objects extra_objects
  ↔ last_with_key k (update_objects ++ extra_objects) = Some s.
Proof.
  unfold stat_objects. rewrite fold_setitem_elem.
  - rewrite last_with_key_app.
    destruct (last_with_key k extra_objects) as [s'|];
      [split; [by intros ->|by intros [= ->]]|].
    rewrite fold_setitem_elem by constructor.
    destruct (last_with_key k update_objects) as [s'|].
    + split; [by intros ->|by intros [= ->]].
    + split; [by intros ?%elem_of_nil|done].
  - assert (∀ (l : list stat_object) (d : list (string * stat_object)),
              NoDup (map fst d) →
              NoDup (map fst (foldl (fun d s =>
                                       dict_setitem (cache_key (stat s)) s d)
                                d l))) as Hfold.
    { induction l as [|x l IH]; intros d Hnd; [done|].
      cbn [foldl]. by apply IH, dict_setitem_NoDup. }
    apply Hfold. constructor.
Qed.

(** ** prefetch_stats *)

Lemma prefetch_many_unique cache stats :
  NoDup (map key_of stats) →
  prefetch_many cache stats
  = map (fun s => if is_loaded s then s else fetched cache s) stats.
Proof.
  induction stats as [|s stats IH]; [done|].
  cbn [map prefetch_many]. intros [Hs Hnd]%list.NoDup_cons.
  rewrite (IH Hnd). f_equal.
  destruct (is_loaded s); [done|]. cbn [orb].
  destruct (existsb _ stats) eqn:Hex; [|done].
  apply existsb_exists in Hex as (s' & Hin & [_ Heq%String.eqb_eq]%andb_prop).
  exfalso. apply Hs. apply list_elem_of_fmap. exists s'.
  split; [done|by apply list_elem_of_In].
Qed.

(** X16.  [prefetch_stats] over objects with distinct cache keys: an empty
    sequence is returned as it is; otherwise an object that is loaded keeps
    its record, and an object that is not takes the cached record of its
    key, or the empty record if the cache has none.  So, unless a cache
    slot holds [None], every object is loaded afterwards. *)
Theorem prefetch_stats_loads cache stats :
  NoDup (map key_of stats) →
  prefetch_stats cache stats
  = map (fun s => if is_loaded s then s else fetched cache s) stats
  ∧ ((∀ s, s ∈ stats → cache !! key_of s ≠ Some None) →
     Forall (fun s => is_loaded s = true) (prefetch_stats cache stats)).
Proof.
  intros Hnd.
  assert (prefetch_stats cache stats
          = map (fun s => if is_loaded s then s else fetched cache s) stats)
    as Heq.
  { unfold prefetch_stats. destruct stats; [done|].
    by apply prefetch_many_unique. }
  split; [exact Heq|]. intros Hslots. rewrite Heq.
  apply list.Forall_forall. intros s' (s & -> & Hin)%list_elem_of_fmap.
  destruct (is_loaded s) eqn:Hl; [done|].
  specialize (Hslots s Hin). unfold is_loaded, fetched. cbn.
  destruct (cache !! key_of s) as [[r|]|]; done.
Qed.

Lemma prefetch_stats_loads_witness :
  prefetch_stats sample_cache [ named "stats-list"; named "stats-global" ]
  = [ sample_ancestor; holding "stats-global" ∅ ].
Proof.
  assert (NoDup (map key_of [ named "stats-list"; named "stats-global" ]))
    as Hnd.
  { apply NoDup_by_compute. vm_compute. reflexivity. }
  rewrite (proj1 (prefetch_stats_loads sample_cache _ Hnd)).
  reflexivity.
Defined.
(** ** The first read of a key *)

Lemma source_key_plain name : name ∈ SOURCE_KEYS → plain name = true.
Proof.
  intros Hk%list_elem_of_In.
  assert (forallb plain SOURCE_KEYS = true) as Hall
    by (vm_compute; reflexivity).
  rewrite forallb_forall in Hall. by apply Hall.
Qed.

Lemma with_pending_save_id w : with_pending_save (_pending_save w) w = w.
Proof. by destruct w. Qed.

Section FirstRead.
Context `{States}.

(** A read that misses a key the class computes. *)
Lemma __getattr___computes fuel self clk name w d d' v :
  plain name = true → _data (after_load self w) = Some d → d !! name = None →
  contains (basic_keys self) name = true →
  computed self clk d = Ok d' → d' !! name = Some v →
  __getattr__ (S (S fuel)) self clk name w
  = (Ok v,
     let w1 := saved self true
                 (with_data (Some d')
                    (with_pending_save true (after_load self w))) in
     if _pending_save w then w1
     else with_pending_save false (saved self true w1)).
Proof.
  intros Hp Hd Hmiss Hbasic Hcomp Hv.
  destruct (plain_parts name Hp) as (Hu & Hpc & Hts).
  rewrite (__getattr___loaded _ _ _ _ _ d) by done.
  unfold has at 1. rewrite Hmiss. cbn [negb].
  destruct (after_load_frame self w) as (Hpend & _ & _).
  set (w0 := after_load self w) in *.
  rewrite bind_gets, bind_modify, bind_eq.
  destruct (calculate_by_name_shape fuel self clk name
              (with_pending_save true w0) d Hd)
    as (rc & w2 & Hcalc & Hshape).
  rewrite Hcalc.
  destruct Hshape as [(e & -> & Hraise)|[(-> & d2 & -> & Hc2)|(-> & -> & Hnb)]];
    [congruence| |congruence].
  specialize (Hc2 Hbasic). rewrite Hcomp in Hc2. apply Ok_inj in Hc2 as <-.
  assert (_data (saved self true (with_data (Some d')
                                    (with_pending_save true w0))) = Some d')
    as Hd' by (by rewrite saved_data).
  rewrite (bind_loaded _ _ d' Hd'). unfold has. rewrite Hv. cbn [negb].
  rewrite Hpend. cbv zeta. destruct (_pending_save w); cbn [negb].
  - rewrite bind_mret, (bind_loaded _ _ d' Hd').
    unfold index. by rewrite Hv, lift_eq.
  - rewrite bind_eq, bind_eq, save_eq, modify_eq.
    assert (_data (with_pending_save false
                     (saved self true
                        (saved self true
                           (with_data (Some d')
                              (with_pending_save true w0))))) = Some d')
      as Hd'' by (cbn [_data with_pending_save]; by rewrite !saved_data).
    rewrite (bind_loaded _ _ d' Hd'').
    unfold index. by rewrite Hv, lift_eq.
Qed.

(** The same for a class that does not persist its record. *)
Lemma getattr_computes_locally fuel self clk name w d' v :
  persists self = false → _data w = None → name ∈ SOURCE_KEYS →
  contains (basic_keys self) name = true →
  computed self clk ∅ = Ok d' → d' !! name = Some v →
  getattr (S (S fuel)) self clk name w = (Ok v, with_data (Some d') w).
Proof.
  intros Hpers Hd Hname Hbasic Hcomp Hv.
  pose proof (source_key_plain name Hname) as Hp.
  unfold getattr. rewrite attribute_plain by done.
  assert (after_load self w = with_data (Some ∅) w) as Hload.
  { unfold after_load, load, persists in *. rewrite Hd.
    by destruct (kind self). }
  rewrite (__getattr___computes fuel self clk name w ∅ d' v); try done;
    [|by rewrite Hload].
  f_equal. cbv zeta. rewrite !saved_ghost, Hload by done.
  destruct w as [dw pw cw sw ow]. cbn in *. by destruct pw.
Qed.

(** X17.  The statistics of a language that a component does not have read
    0 for every count and [None] for the last change, on the first read of
    an object that holds nothing; the zero record is kept in the object
    and the cache is neither read nor written. *)
Theorem dummy_reports_zero fuel key clk name w :
  _data w = None → name ∈ BASIC_KEYS →
  ∃ d', getattr (S (S fuel))
          {| kind := DummyTranslationStats; cache_key := key |} clk name w
        = (Ok (if numeric name then VInt 0 else VNone), with_data (Some d') w).
Proof.
  intros Hd Hname. eexists.
  apply getattr_computes_locally; try done.
  - by apply BASIC_in_SOURCE.
  - by apply contains_elem.
  - assert (name ≠ "stats_timestamp") as Hts.
    { intros ->. by apply timestamp_not_basic. }
    cbn [basic_keys kind]. rewrite lookup_apply_items. cbn [last_stored].
    apply String.eqb_neq in Hts. rewrite String.eqb_sym, Hts.
    destruct (numeric name) eqn:Hnum.
    + rewrite lookup_zero_stats by done.
      by rewrite (elem_of_contains _ _ Hname).
    + pose proof (zero_stats_last_pair BASIC_KEYS) as Hlast.
      unfold last_pair in Hlast. apply pair_inj in Hlast as [Hc Ha].
      unfold numeric in Hnum. rewrite Hts in Hnum. cbn [negb andb] in Hnum.
      destruct (String.eqb_spec name "last_changed") as [->|]; [exact Hc|].
      destruct (String.eqb_spec name "last_author") as [->|]; [exact Ha|].
      discriminate Hnum.
Qed.

Lemma ghost_stats_base self b a aw ac :
  attr b "all" = Ok (VInt a) → attr b "all_words" = Ok (VInt aw) →
  attr b "all_chars" = Ok (VInt ac) →
  ghost_stats self (Some b)
  = Ok (<["todo_chars" := VInt ac]>
          (<["todo_words" := VInt aw]>
             (<["todo" := VInt a]>
                (<["all_chars" := VInt ac]>
                   (<["all_words" := VInt aw]>
                      (<["all" := VInt a]> (zero_stats (basic_keys self)))))))).
Proof.
  intros Ha Haw Hac. unfold ghost_stats. rewrite Ha, Haw, Hac.
  cbn [mbind res_bind]. unfold index.
  rewrite lookup_insert_ne, lookup_insert_ne, lookup_insert_eq by done.
  cbn [mbind res_bind].
  rewrite lookup_insert_ne, lookup_insert_ne, lookup_insert_eq by done.
  cbn [mbind res_bind].
  by rewrite lookup_insert_ne, lookup_insert_ne, lookup_insert_eq by done.
Qed.

(** X18.  A ghost reports everything of its base as still to do: on the
    first read of an object that holds nothing, [all] and [todo] read the
    number of strings of the base, likewise for words and characters, every
    other count reads 0 and the last change [None]; without a base every
    count reads 0.  The record is kept in the object; without a base
    nothing else changes. *)
Theorem ghost_reports_base fuel key clk base w all all_words all_chars :
  _data w = None →
  match base with
  | None => all = 0 ∧ all_words = 0 ∧ all_chars = 0
  | Some b =>
      attr b "all" = Ok (VInt all) ∧ attr b "all_words" = Ok (VInt all_words)
      ∧ attr b "all_chars" = Ok (VInt all_chars)
  end →
  ∃ d', ∀ name,
    name ∈ SOURCE_KEYS →
    fst (getattr (S (S fuel)) {| kind := GhostStats base; cache_key := key |}
           clk name w)
    = Ok (ghost_value all all_words all_chars name)
    ∧ _data (snd (getattr (S (S fuel))
                    {| kind := GhostStats base; cache_key := key |} clk name w))
      = Some d'
    ∧ (base = None →
       snd (getattr (S (S fuel)) {| kind := GhostStats base; cache_key := key |}
              clk name w)
       = with_data (Some d') w).
Proof.
  intros Hd Hbase.
  set (self := {| kind := GhostStats base; cache_key := key |}).
  assert (∃ stats, ghost_stats self base = Ok stats
            ∧ ∀ name, name ∈ SOURCE_KEYS →
                stored name <$> stats !! name
                = Some (ghost_value all all_words all_chars name))
    as (stats & Hstats & Hvalues).
  { destruct base as [b|].
    - destruct Hbase as (Ha & Haw & Hac).
      eexists. split; [by apply ghost_stats_base|].
      intros name Hk. unfold SOURCE_KEYS, BASIC_KEYS in Hk.
      cbn [map app BASICS CHANGE_KEYS] in Hk.
      repeat (apply elem_of_cons in Hk as [->|Hk];
              [vm_compute; reflexivity|]).
      by apply elem_of_nil in Hk.
    - destruct Hbase as (-> & -> & ->).
      eexists. split; [reflexivity|].
      intros name Hk. unfold SOURCE_KEYS, BASIC_KEYS in Hk.
      cbn [map app BASICS CHANGE_KEYS] in Hk.
      repeat (apply elem_of_cons in Hk as [->|Hk];
              [vm_compute; reflexivity|]).
      by apply elem_of_nil in Hk. }
  assert (∃ d', ∀ name, name ∈ SOURCE_KEYS →
            getattr (S (S fuel)) self clk name w
            = (Ok (ghost_value all all_words all_chars name),
               with_data (Some d') w)) as [d' Hreads];
    [|exists d'; intros name Hname; by rewrite (Hreads name Hname)].
  eexists. intros name Hname.
  apply getattr_computes_locally; try done.
  - by apply contains_elem.
  - unfold computed. cbn [kind self]. fold self. rewrite Hstats. reflexivity.
  - assert (name ≠ "stats_timestamp") as Hts.
    { intros ->. by apply timestamp_not_key. }
    rewrite lookup_apply_items, last_stored_app. cbn [last_stored].
    apply String.eqb_neq in Hts. rewrite String.eqb_sym, Hts.
    rewrite last_stored_map_to_list, (Hvalues name Hname). reflexivity.
Qed.

(** X19.  The strings waiting for review are the translated ones that are
    neither approved nor read-only: [waiting_review], [waiting_review_words]
    and [waiting_review_chars] are computed at every read as translated -
    approved - readonly from the record, which stays as it is; a key of
    that name in the record is never read. *)
Theorem waiting_review_difference fuel self clk suffix w d translated approved
    readonly :
  suffix ∈ [ ""; "_words"; "_chars" ] → _data w = Some d →
  d !! ("translated" ++ suffix)%string = Some (VInt translated) →
  d !! ("approved" ++ suffix)%string = Some (VInt approved) →
  d !! ("readonly" ++ suffix)%string = Some (VInt readonly) →
  getattr (S fuel) self clk ("waiting_review" ++ suffix)%string w
  = (Ok (VInt (translated - approved - readonly)), w).
Proof.
  intros Hsuffix Hd Ht Ha Hr.
  assert (attribute (__getattr__ (S fuel) self clk)
            ("waiting_review" ++ suffix)%string
          = waiting_review (__getattr__ (S fuel) self clk) suffix) as Hattr.
  { repeat (apply elem_of_cons in Hsuffix as [->|Hsuffix]); try reflexivity.
    by apply elem_of_nil in Hsuffix. }
  unfold getattr. rewrite Hattr. unfold waiting_review.
  assert (plain ("translated" ++ suffix)%string = true
          ∧ plain ("approved" ++ suffix)%string = true
          ∧ plain ("readonly" ++ suffix)%string = true) as (Hpt & Hpa & Hpr).
  { repeat (apply elem_of_cons in Hsuffix as [->|Hsuffix]);
      try (by vm_compute). by apply elem_of_nil in Hsuffix. }
  rewrite bind_eq, (__getattr___hit fuel self clk _ w d _ Hpt Hd Ht).
  rewrite bind_eq, (__getattr___hit fuel self clk _ w d _ Hpa Hd Ha).
  cbn [py_sub]. rewrite bind_lift_ok.
  rewrite bind_eq, (__getattr___hit fuel self clk _ w d _ Hpr Hd Hr).
  reflexivity.
Qed.

End FirstRead.

Lemma dummy_reports_zero_witness :
  ∃ d', getattr 2 dummy_stats noon "translated" cached_world
        = (Ok (VInt 0), with_data (Some d') cached_world).
Proof.
  apply (dummy_reports_zero 0 "" noon "translated" cached_world eq_refl).
  apply contains_elem. reflexivity.
Defined.

Lemma ghost_reports_base_witness :
  ∃ d', ∀ name,
    name ∈ SOURCE_KEYS →
    fst (getattr 2 (ghost_of (Some child_a)) noon name cached_world)
    = Ok (ghost_value 3 0 0 name)
    ∧ _data (snd (getattr 2 (ghost_of (Some child_a)) noon name cached_world))
      = Some d'.
Proof.
  assert (attr child_a "all" = Ok (VInt 3)
          ∧ attr child_a "all_words" = Ok (VInt 0)
          ∧ attr child_a "all_chars" = Ok (VInt 0)) as Hbase
    by (repeat split; vm_compute; reflexivity).
  destruct (ghost_reports_base 0 "stats-zero" noon (Some child_a) cached_world
              3 0 0 eq_refl Hbase) as [d' Hreads].
  exists d'. intros name Hname.
  destruct (Hreads name Hname) as (Hvalue & Hdata & _).
  split; [exact Hvalue|exact Hdata].
Defined.

Lemma waiting_review_difference_witness :
  getattr 1 list_node noon "waiting_review"
    (with_data (Some review_record) empty_world)
  = (Ok (VInt 3), with_data (Some review_record) empty_world).
Proof.
  apply (waiting_review_difference 0 list_node noon ""
           (with_data (Some review_record) empty_world) review_record 9 4 2).
  - apply list_elem_of_here.
  - reflexivity.
  - vm_compute. reflexivity.
  - vm_compute. reflexivity.
  - vm_compute. reflexivity.
Defined.
(** ** get_data *)

Section GetData.
Context `{States}.

Lemma translation_percent_int n m complete :
  ∃ q, translation_percent (VInt n) (VInt m) complete = Ok (VFloat q).
Proof.
  unfold translation_percent. destruct (is_zero (VInt m)); cbn; by eexists.
Qed.

Lemma calculate_percent_unfold (g : string → M value) self base w :
  calculate_percent g self (base ++ "_percent") w
  = (total ← g (denominator_key base);
     translated ← g base;
     lift (translation_percent translated total
             (contains (if has_review self
                        then [ "approved"; "approved_words"; "approved_chars" ]
                        else [ "translated"; "translated_words";
                               "translated_chars" ]) base))) w.
Proof.
  unfold calculate_percent, denominator_key.
  change 8%nat with (String.length "_percent"). rewrite drop_last_append.
  by destruct (endswith "_words" base), (endswith "_chars" base).
Qed.

Lemma calculate_percent_loaded fuel self clk percent w d :
  _data w = Some d →
  (∀ k, k ∈ percent_operands → ∃ n, d !! k = Some (VInt n)) →
  percent ∈ percents →
  ∃ q, calculate_percent (getattr (S fuel) self clk) self percent w
       = (Ok (VFloat q), w).
Proof.
  intros Hd Hints Hp.
  assert (∀ k, k ∈ percent_operands →
            ∃ n, getattr (S fuel) self clk k w = (Ok (VInt n), w)) as Hread.
  { intros k Hk. destruct (Hints k Hk) as [n Hn]. exists n.
    eapply getattr_hit; [|done..].
    unfold percent_operands in Hk.
    repeat (apply elem_of_cons in Hk as [->|Hk]; [by vm_compute|]).
    by apply elem_of_nil in Hk. }
  change percents
    with (map (fun base => (base ++ "_percent")%string)
            [ "translated"; "approved"; "fuzzy"; "readonly"; "allchecks";
              "translated_checks"; "translated_words"; "approved_words";
              "fuzzy_words"; "readonly_words"; "allchecks_words";
              "translated_checks_words" ]) in Hp.
  apply list_elem_of_fmap in Hp as (base & -> & Hbase).
  assert (base ∈ percent_operands ∧ denominator_key base ∈ percent_operands)
    as [Hb Hden].
  { repeat (apply elem_of_cons in Hbase as [->|Hbase];
            [split; apply contains_elem; reflexivity|]).
    by apply elem_of_nil in Hbase. }
  destruct (Hread _ Hden) as [m Hm]. destruct (Hread _ Hb) as [n Hn].
  rewrite calculate_percent_unfold, bind_eq, Hm, bind_eq, Hn, lift_eq.
  destruct (translation_percent_int n m
              (contains (if has_review self
                         then [ "approved"; "approved_words"; "approved_chars" ]
                         else [ "translated"; "translated_words";
                                "translated_chars" ]) base)) as [q Hq].
  exists q. by rewrite Hq.
Qed.

Lemma percent_data_loaded (g : string → M value) self ps data w :
  (∀ p, p ∈ ps → ∃ q, calculate_percent g self p w = (Ok (VFloat q), w)) →
  ∃ r, percent_data g self ps data w = (Ok r, w)
    ∧ (∀ k, k ∉ ps → r !! k = data !! k)
    ∧ (∀ p, p ∈ ps →
         ∃ q, calculate_percent g self p w = (Ok (VFloat q), w)
              ∧ r !! p = Some (VFloat q)).
Proof.
  revert data. induction ps as [|p ps IH]; intros data Hall.
  - exists data. split; [done|]. split; [done|]. by intros p ?%elem_of_nil.
  - cbn [percent_data]. destruct (Hall p) as [q Hq]; [apply list_elem_of_here|].
    rewrite bind_eq, Hq.
    destruct (IH (<[p := VFloat q]> data)) as (r & Hr & Hout & Hin).
    { intros p' Hp'. apply Hall. by apply list_elem_of_further. }
    exists r. split; [done|]. split.
    + intros k [Hkp Hk]%not_elem_of_cons. by rewrite Hout, lookup_insert_ne.
    + intros p' Hp'. destruct (decide (p' ∈ ps)) as [Hps|Hps]; [by apply Hin|].
      apply elem_of_cons in Hp' as [->|]; [|done].
      exists q. split; [done|]. by rewrite Hout, lookup_insert_eq.
Qed.

(** X20.  [get_data] gives the record with the twelve percents added and
    leaves the object as it is: every key of the record keeps its value,
    also against a percent of the same name, and every percent the record
    does not hold is what [calculate_percent] gives for it.  This holds for
    a loaded record that has the counts the percents are taken from. *)
Theorem get_data_extends fuel self clk w d :
  _data w = Some d →
  (∀ k, k ∈ percent_operands → ∃ n, d !! k = Some (VInt n)) →
  ∃ r, get_data (getattr (S fuel) self clk) self w = (Ok r, w)
    ∧ (∀ k v, d !! k = Some v → r !! k = Some v)
    ∧ (∀ p, p ∈ percents → d !! p = None →
         ∃ q, calculate_percent (getattr (S fuel) self clk) self p w
              = (Ok (VFloat q), w)
              ∧ r !! p = Some (VFloat q))
    ∧ (∀ k, is_Some (r !! k) ↔ is_Some (d !! k) ∨ k ∈ percents).
Proof.
  intros Hd Hints. unfold get_data.
  destruct (percent_data_loaded (getattr (S fuel) self clk) self percents ∅ w)
    as (data & Hdata & Hout & Hin).
  { intros p Hp. by eapply calculate_percent_loaded. }
  rewrite bind_eq, Hdata, bind_gets, Hd, mret_eq.
  eexists. split; [reflexivity|]. split; [|split].
  - intros k v Hk. by apply lookup_union_Some_l.
  - intros p Hp Hnone. destruct (Hin p Hp) as (q & Hq & Hr).
    exists q. split; [done|]. by rewrite lookup_union_r.
  - intros k. rewrite lookup_union_is_Some. split.
    + intros [?|Hk]; [by left|]. right.
      destruct (decide (k ∈ percents)) as [|Hno]; [done|].
      rewrite Hout, lookup_empty in Hk by done. by destruct Hk.
    + intros [?|Hk]; [by left|]. right.
      destruct (Hin k Hk) as (q & _ & ->). by eexists.
Qed.

End GetData.

Lemma get_data_extends_witness :
  ∃ r, get_data (getattr 1 list_node noon) list_node
         (with_data (Some cached_record) empty_world)
       = (Ok r, with_data (Some cached_record) empty_world)
    ∧ r !! "all" = Some (VInt 7)
    ∧ is_Some (r !! "translated_percent").
Proof.
  destruct (get_data_extends 0 list_node noon
              (with_data (Some cached_record) empty_world) cached_record
              eq_refl) as (r & Hrun & Hkeep & _ & Hkeys).
  - intros k Hk. unfold percent_operands in Hk.
    repeat (apply elem_of_cons in Hk as [->|Hk];
            [eexists; vm_compute; reflexivity|]).
    by apply elem_of_nil in Hk.
  - exists r. split; [exact Hrun|]. split.
    + apply Hkeep. vm_compute. reflexivity.
    + apply Hkeys. right. apply contains_elem. reflexivity.
Defined.
(** ** How deep a read nests *)

Section Depth.
Context `{States}.











End Depth.

(** ** The workflow setting of a project in a language *)

Lemma elem_of_workflow_filter objects project language s :
  s ∈ workflow_filter objects project language
  ↔ s ∈ objects ∧ workflow_language s = language
    ∧ (workflow_project_id s = None ∨ workflow_project_id s = Some project).
Proof.
  unfold workflow_filter. rewrite !list_elem_of_In, filter_In, andb_true_iff.
  rewrite Z.eqb_eq. split.
  - intros (Hin & Hp & Hl). repeat split; try done.
    destruct (workflow_project_id s) as [p|]; [|by left].
    apply Z.eqb_eq in Hp as ->. by right.
  - intros (Hin & Hl & [Hp|Hp]); rewrite Hp; repeat split; try done.
    apply Z.eqb_refl.
Qed.

(** X22.  The workflow setting of a project in a language: a setting that
    is returned is one of the language, made for this project or for all
    projects; when there is a setting for this project it is a setting for
    this project that is returned, in whatever order the query gives the
    settings; nothing is returned only when there is no setting, and the
    lookup fails only when two or more settings for all projects are found
    and none for this project. *)
Theorem workflow_settings_prefers_project objects project language :
  let found := workflow_filter objects project language in
  (workflow_settings objects project language = NoSetting ↔ found = [])
  ∧ (∀ s, workflow_settings objects project language = Setting s → s ∈ found)
  ∧ ((∃ s, s ∈ found ∧ workflow_project_id s = Some project) →
     ∃ s, workflow_settings objects project language = Setting s
          ∧ workflow_project_id s = Some project)
  ∧ (workflow_settings objects project language = RaiseDoesNotExist →
     (2 ≤ List.length found)%nat
     ∧ ∀ s, s ∈ found → workflow_project_id s = None).
Proof.
  intros found. unfold workflow_settings. fold found.
  assert (∀ s, s ∈ found → of_project project s = false →
            workflow_project_id s = None) as Hglobal.
  { intros s Hs. apply elem_of_workflow_filter in Hs as (_ & _ & [Hp|Hp]);
      [done|]. unfold of_project. rewrite Hp, Z.eqb_refl. done. }
  assert (∀ s, of_project project s = true ↔
               workflow_project_id s = Some project) as Hof.
  { intros s. unfold of_project. destruct (workflow_project_id s) as [p|].
    - rewrite Z.eqb_eq. split; [by intros ->|by intros [= ->]].
    - done. }
  destruct found as [|s1 [|s2 rest]] eqn:Hfound.
  - split; [done|]. split; [done|]. split; [|done].
    by intros (s & ?%elem_of_nil & _).
  - split; [done|]. split; [intros s [= <-]; apply list_elem_of_here|].
    split; [|done].
    intros (s & Hs%list_elem_of_singleton & Hp). subst s. by exists s1.
  - destruct (find (of_project project) (s1 :: s2 :: rest)) as [s|] eqn:Hfind.
    + split; [done|]. apply find_some in Hfind as [Hin Hs].
      split; [intros s' [= <-]; by apply list_elem_of_In|].
      split; [|done]. intros _. exists s. split; [done|]. by apply Hof.
    + split; [done|]. split; [done|]. split.
      * intros (s & Hin & Hp). apply Hof in Hp.
        apply list_elem_of_In in Hin.
        by rewrite (find_none _ _ Hfind s Hin) in Hp.
      * intros _. split; [cbn; lia|]. intros s Hin. apply Hglobal; [done|].
        apply list_elem_of_In in Hin. by apply (find_none _ _ Hfind).
Qed.

Example workflow_of_project_wins :
  workflow_settings sample_workflows 5 1
  = Setting {| workflow_project_id := Some 5; workflow_language := 1 |}
  ∧ workflow_settings sample_workflows 7 1
    = Setting {| workflow_project_id := None; workflow_language := 1 |}
  ∧ workflow_settings sample_workflows 7 2 = NoSetting.
Proof. repeat split. Qed.

(** ** What a read leaves behind *)

Section ReadEffects.
Context `{States}.

(** X23.  A read of a basic key that a translation does not hold yet
    registers the update of the parents twice when no save is pending:
    once for the save of the calculator and once for the save that ends the
    read; with a save pending it registers it once. *)
Theorem miss_schedules_parents fuel self clk name w d d' v :
  schedules_parents self = true →
  plain name = true → _data (after_load self w) = Some d → d !! name = None →
  contains (basic_keys self) name = true →
  computed self clk d = Ok d' → d' !! name = Some v →
  ∃ w', getattr (S (S fuel)) self clk name w = (Ok v, w')
    ∧ on_commit w' = ((if _pending_save w then 1 else 2) + on_commit w)%nat.
Proof.
  intros Hleaf Hp Hd Hmiss Hbasic Hcomp Hv. eexists.
  split.
  { unfold getattr. rewrite attribute_plain by done.
    by apply (__getattr___computes fuel self clk name w d d' v). }
  cbv zeta.
  assert (on_commit (after_load self w) = on_commit w) as Hload.
  { unfold after_load. by destruct (_data w). }
  destruct (_pending_save w); cbn [on_commit with_pending_save];
    rewrite !saved_on_commit; cbn [andb on_commit with_data with_pending_save];
    by rewrite Hload, Hleaf.
Qed.



End ReadEffects.

Lemma miss_schedules_parents_witness :
  ∃ w', getattr 2 (translation_stats five_units "stats-t") noon "all"
          empty_world = (Ok (VInt 5), w')
    ∧ on_commit w' = 2%nat.
Proof.
  assert (apply_items
            (leaf_items five_units noon
             ++ [ ("stats_timestamp", VFloat (monotonic noon)) ]) ∅ !! "all"
          = Some (VInt 5)) as Hv by (vm_compute; reflexivity).
  destruct (miss_schedules_parents 0 (translation_stats five_units "stats-t")
              noon "all" empty_world ∅ _ (VInt 5)
              eq_refl eq_refl eq_refl eq_refl eq_refl eq_refl Hv)
    as (w' & Hread & Hcommit).
  exists w'. split; [exact Hread|exact Hcommit].
Defined.

(** ** Reading through an aggregating object *)

Section ReadThrough.
Context `{States}.

Lemma computed_composite self clk d stats src :
  composite self = true →
  aggregated self = Ok stats → source_items self = Ok src →
  computed self clk d
  = Ok (apply_items
          (map_to_list stats ++ src ++ languages_items self
           ++ [ ("stats_timestamp", VFloat (monotonic clk)) ]) d).
Proof.
  intros Hcomp Hagg Hsrc. unfold computed, composite in *.
  destruct (kind self); try done; by rewrite Hagg, Hsrc.
Qed.

Lemma composite_persists self : composite self = true → persists self = true.
Proof. unfold composite, persists. by destruct (kind self). Qed.

(** X25.  Reading a count that an aggregating object does not hold yet
    gives the sum of that count over its children: the read computes the
    record, returns the sum and leaves the record it returned from in the
    cache under the key of the object. *)
Theorem composite_read_through fuel self clk name w d :
  composite self = true →
  Forall (readable (object_keys self)) (object_set_of self) →
  Forall (readable SOURCE_KEYS) (category_set_of self) →
  (∃ src, source_items self = Ok src) →
  _data (after_load self w) = Some d → d !! name = None →
  name ∈ BASIC_KEYS → numeric name = true → name ≠ "languages" →
  ∃ w' d',
    getattr (S (S fuel)) self clk name w
    = (Ok (VInt (total (fun c => int_attr c name)
                   (object_set_of self ++ category_set_of self))), w')
    ∧ _data w' = Some d'
    ∧ cache w' !! cache_key self = Some (Some d')
    ∧ d' !! name
      = Some (VInt (total (fun c => int_attr c name)
                      (object_set_of self ++ category_set_of self))).
Proof.
  intros Hcomp Hobjs Hcats [src Hsrc] Hd Hmiss Hname Hnum Hlang.
  destruct (aggregated_spec self Hcomp Hobjs Hcats)
    as (stats & Hagg & Hsum & _ & _).
  pose proof (computed_composite self clk d stats src Hcomp Hagg Hsrc) as Hcomp'.
  pose proof (composite_persists self Hcomp) as Hpers.
  destruct (numeric_ne name Hnum) as (Hts & _ & _).
  set (d' := apply_items
               (map_to_list stats ++ src ++ languages_items self
                ++ [ ("stats_timestamp", VFloat (monotonic clk)) ]) d) in *.
  assert (d' !! name
          = Some (VInt (total (fun c => int_attr c name)
                          (object_set_of self ++ category_set_of self))))
    as Hv.
  { subst d'. erewrite composite_lookup; try done;
      [|by apply basic_key_not_source
       |apply Hsum; [by apply BASIC_in_SOURCE|done]].
    rewrite stored_int, total_app. do 3 f_equal.
    apply total_ext. intros c. unfold object_part.
    by rewrite (basic_key_not_source name Hname). }
  assert (contains (basic_keys self) name = true) as Hbasic.
  { by apply contains_elem, basic_in_basic_keys. }
  pose proof (source_key_plain name (BASIC_in_SOURCE name Hname)) as Hp.
  unfold getattr. rewrite attribute_plain by done.
  rewrite (__getattr___computes fuel self clk name w d d' _ Hp Hd Hmiss Hbasic
             Hcomp' Hv).
  eexists _, d'. split; [reflexivity|]. cbv zeta.
  destruct (_pending_save w).
  - rewrite saved_data.
    destruct (saved_cache self true
                (with_data (Some d')
                   (with_pending_save true (after_load self w))) Hpers)
      as [-> _].
    by rewrite lookup_insert_eq.
  - cbn [_data cache with_pending_save]. rewrite !saved_data.
    destruct (saved_cache self true
                (saved self true
                   (with_data (Some d')
                      (with_pending_save true (after_load self w)))) Hpers)
      as [-> _].
    by rewrite lookup_insert_eq, saved_data.
Qed.

End ReadThrough.

Lemma composite_read_through_witness :
  ∃ w' d',
    getattr 2 list_node noon "all" empty_world = (Ok (VInt 7), w')
    ∧ _data w' = Some d'
    ∧ cache w' !! "stats-list" = Some (Some d').
Proof.
  assert (Forall (readable SOURCE_KEYS) [ child_a; child_b ]) as Hkids.
  { constructor; [exact child_a_readable|].
    constructor; [exact child_b_readable|]. constructor. }
  assert (contains BASIC_KEYS "all" = true) as Hall by reflexivity.
  apply contains_elem in Hall.
  assert ("all" ≠ "languages") as Hne by done.
  destruct (composite_read_through 0 list_node noon "all" empty_world ∅
              eq_refl Hkids (Forall_nil _) (ex_intro _ [] eq_refl)
              eq_refl eq_refl Hall eq_refl Hne)
    as (w' & d' & Hread & Hd & Hcache & _).
  exists w', d'. split; [exact Hread|]. split; [exact Hd|exact Hcache].
Defined.
